(** * Sync-Validate-Retry pipeline: a shallow embedding

    The development follows four scripts of the repository:

    - the sync-and-validate script with the unbounded retry loop
      (route discovery, [syncRoute], [validate] and its main loop),
      embedded in [Module SyncValidate];
    - the fix-and-validate script with the bounded retry loop
      ([runAxe], [runDomDiff], [runVisualDiff], [validationPhase],
      [summarize] and its main loop), embedded in [Module FixValidate];
    - the visual regression test (padding of screenshots and the
      per-page verdict), embedded in [Module VisualRegression];
    - the conflict resolver (versions, merges of manifests and conflict
      blocks), embedded in [Module ResolveConflicts].

    JavaScript numbers are IEEE doubles.  The only numeric tests in the
    code compare a quotient of two small non-negative integers (string
    lengths, pixel counts), possibly times 100, with the constants 0.99,
    0.1 and 0.5.  A quotient a/b that differs from such a constant
    differs from it by at least 1/(1000*b), far above the rounding error
    of a double for every length a string or an image can have, so finite
    numbers are modelled as exact rationals ([Q]); a division by zero
    gives [Infinity] or [NaN] as in JavaScript ([Num.num]).  The
    components of a version are natural numbers rounded to doubles.
    A character of [string] stands for one code unit of a JavaScript
    string (texts whose code units are below 256); string lengths are
    counted in these. *)

From Stdlib Require Import String Ascii List ZArith QArith Bool Arith Lia.
From Stdlib Require Import Strings.Byte NArith DecimalString.
Import ListNotations.
Close Scope Q_scope.
Local Open Scope string_scope.
Local Open Scope list_scope.
Local Open Scope nat_scope.

(* ===================================================================== *)
(** * String operations of the scripts *)
(* ===================================================================== *)

Module JS.

(** [s.replace(/^[\/]/, '')]: drop one leading slash. *)
Definition strip_leading_slash (s : string) : string :=
  match s with
  | String "/" rest => rest
  | _ => s
  end.

(** [s.replace(/[\/]$/, '')] and [s.replace(/\/$/, '')]: drop one
    trailing slash. *)
Fixpoint strip_trailing_slash (s : string) : string :=
  match s with
  | EmptyString => EmptyString
  | String c EmptyString => if Ascii.eqb c "/" then EmptyString else s
  | String c rest => String c (strip_trailing_slash rest)
  end.

(** [s.startsWith(p)]. *)
Definition startsWith (s p : string) : bool := String.prefix p s.

(** Remove the first [n] characters. *)
Fixpoint drop (n : nat) (s : string) : string :=
  match n, s with
  | O, _ => s
  | S n', String _ rest => drop n' rest
  | S _, EmptyString => EmptyString
  end.

(** [s.replace(pat, '')] with a string pattern: the first occurrence of
    [pat] is removed, wherever it stands. *)
Fixpoint remove_first (pat s : string) : string :=
  if String.prefix pat s then drop (String.length pat) s
  else match s with
       | EmptyString => EmptyString
       | String c rest => String c (remove_first pat rest)
       end.

(** [s.replace(/\//g, '_')]: every slash becomes an underscore. *)
Fixpoint flatten_slashes (s : string) : string :=
  match s with
  | EmptyString => EmptyString
  | String c rest =>
      String (if Ascii.eqb c "/" then "_"%char else c) (flatten_slashes rest)
  end.

(** [a || b] on strings: the empty string is falsy. *)
Definition or_else (a b : string) : string :=
  match a with
  | EmptyString => b
  | _ => a
  end.

(** ** Paths *)

(** The segments of a path: what stands between its slashes. *)
Fixpoint segments (s : string) : list string :=
  match s with
  | EmptyString => [EmptyString]
  | String c rest =>
      if Ascii.eqb c "/" then EmptyString :: segments rest
      else match segments rest with
           | seg :: more => String c seg :: more
           | [] => [String c EmptyString]
           end
  end.

(** The loop of [normalizeString] of Node's [path] module over the
    segments of a path; [kept] holds the segments of the result, the last
    one first.  Empty segments and [.] are dropped; [..] removes the
    segment before it, and stays when there is none to remove and the
    path is relative. *)
Fixpoint resolve_dots (segs : list string) (allowAboveRoot : bool)
    (kept : list string) : list string :=
  match segs with
  | [] => rev kept
  | seg :: rest =>
      if String.eqb seg "" || String.eqb seg "."
      then resolve_dots rest allowAboveRoot kept
      else if String.eqb seg ".."
      then match kept with
           | top :: below =>
               if String.eqb top ".."
               then resolve_dots rest allowAboveRoot
                      (if allowAboveRoot then ".." :: kept else kept)
               else resolve_dots rest allowAboveRoot below
           | [] =>
               resolve_dots rest allowAboveRoot
                 (if allowAboveRoot then [".."] else [])
           end
      else resolve_dots rest allowAboveRoot (seg :: kept)
  end.

(** [s] ends with a slash. *)
Fixpoint trailing_slash (s : string) : bool :=
  match s with
  | EmptyString => false
  | String c EmptyString => Ascii.eqb c "/"
  | String _ rest => trailing_slash rest
  end.

(** [path.normalize(path)] (POSIX). *)
Definition normalize (path : string) : string :=
  match path with
  | EmptyString => "."
  | String c _ =>
      let isAbsolute := Ascii.eqb c "/" in
      let body :=
        String.concat "/"
          (resolve_dots (segments path) (negb isAbsolute) []) in
      if String.eqb body ""
      then if isAbsolute then "/"
           else if trailing_slash path then "./" else "."
      else (if isAbsolute then "/" else "") ++ body
           ++ (if trailing_slash path then "/" else "")
  end.

(** [path.join(a, b)] (POSIX): the operands that are not empty, joined
    by a slash and normalised. *)
Definition join (a b : string) : string :=
  match a, b with
  | EmptyString, EmptyString => "."
  | EmptyString, _ => normalize b
  | _, EmptyString => normalize a
  | _, _ => normalize (a ++ "/" ++ b)
  end.

(** [path.join(...parts)] (POSIX) with any number of operands. *)
Definition join_all (parts : list string) : string :=
  match filter (fun part => negb (String.eqb part "")) parts with
  | [] => "."
  | kept => normalize (String.concat "/" kept)
  end.

(** Segments that normalisation keeps as they are. *)
Definition plain_segments (l : list string) : bool :=
  forallb (fun seg => negb (String.eqb seg "" || String.eqb seg "."
                            || String.eqb seg ".."))
    l.

(** A relative path that is empty or made of such segments: [a/b], but
    not [a//b], [a/], [./a] or [../a]. *)
Definition plain (p : string) : bool :=
  String.eqb p "" || plain_segments (segments p).

(** An absolute path made of such segments, as [process.cwd()] gives it
    anywhere but in the root directory. *)
Definition rooted (p : string) : bool :=
  match p with
  | String "/" rest => plain_segments (segments rest)
  | _ => false
  end.

(** [path.join(dir, name)] on the operands the scripts are meant for, a
    rooted directory and a plain name, where joining is concatenation
    (see [path_join_join] below).  On other operands [path.join]
    normalises: doubled slashes and dot segments of a Route would move
    its files. *)
Definition path_join (dir name : string) : string :=
  match name with
  | EmptyString => dir
  | _ => dir ++ "/" ++ name
  end.

(** [s.endsWith(suffix)]. *)
Fixpoint endsWith (s suffix : string) : bool :=
  if String.eqb s suffix then true
  else match s with
       | EmptyString => false
       | String _ rest => endsWith rest suffix
       end.

(** Occurrence of a character. *)
Fixpoint has_char (c : ascii) (s : string) : bool :=
  match s with
  | EmptyString => false
  | String d rest => Ascii.eqb c d || has_char c rest
  end.

(** [s.includes(t)]. *)
Fixpoint includes (s t : string) : bool :=
  String.prefix t s
  || match s with
     | EmptyString => false
     | String _ rest => includes rest t
     end.

(** [s.replace(/\.+/g, ' ')]: every maximal run of dots becomes one
    space. *)
Fixpoint collapse_dots (s : string) : string :=
  match s with
  | EmptyString => EmptyString
  | String c rest =>
      if Ascii.eqb c "."
      then match rest with
           | String d _ =>
               if Ascii.eqb d "." then collapse_dots rest
               else String " " (collapse_dots rest)
           | EmptyString => String " " EmptyString
           end
      else String c (collapse_dots rest)
  end.

(** The white space and line terminators of JavaScript among the
    characters of [string] (code points below 256): tab, line feed,
    vertical tab, form feed, carriage return, space and no-break
    space. *)
Definition is_space (c : ascii) : bool :=
  let n := nat_of_ascii c in
  ((9 <=? n) && (n <=? 13)) || (n =? 32) || (n =? 160).

(** [s.trim()]. *)
Fixpoint trim_start (s : string) : string :=
  match s with
  | EmptyString => EmptyString
  | String c rest => if is_space c then trim_start rest else s
  end.

Fixpoint trim_end (s : string) : string :=
  match s with
  | EmptyString => EmptyString
  | String c rest =>
      match trim_end rest with
      | EmptyString => if is_space c then EmptyString else String c EmptyString
      | t => String c t
      end
  end.

Definition trim (s : string) : string := trim_end (trim_start s).

End JS.

(* ===================================================================== *)
(** * Numbers *)
(* ===================================================================== *)

Module Num.

(** A JavaScript number, as far as the scripts produce one: an exact
    rational, or what a division by zero leaves behind. *)
Inductive num : Type :=
| Fin (q : Q)
| Infinity
| NaN.

(** The exact quotient of two non-negative integers, for a divisor that
    is not zero. *)
Definition ratio (a b : nat) : Q :=
  (inject_Z (Z.of_nat a) / inject_Z (Z.of_nat b))%Q.

(** [a / b] on two non-negative integers. *)
Definition div (a b : nat) : num :=
  if b =? 0 then (if a =? 0 then NaN else Infinity) else Fin (ratio a b).

(** [x * k] for a positive constant [k]. *)
Definition times (x : num) (k : Q) : num :=
  match x with
  | Fin q => Fin (q * k)%Q
  | Infinity => Infinity
  | NaN => NaN
  end.

(** [x < t], [x > t] and [x <= t] against a finite constant; every
    comparison with [NaN] is false. *)
Definition ltb (x : num) (t : Q) : bool :=
  match x with
  | Fin q => negb (Qle_bool t q)
  | Infinity => false
  | NaN => false
  end.

Definition gtb (x : num) (t : Q) : bool :=
  match x with
  | Fin q => negb (Qle_bool q t)
  | Infinity => true
  | NaN => false
  end.

Definition leb (x : num) (t : Q) : bool :=
  match x with
  | Fin q => Qle_bool q t
  | Infinity => false
  | NaN => false
  end.

(** The number is finite and equal to [v]. *)
Definition equals (x : num) (v : Q) : Prop :=
  match x with
  | Fin q => (q == v)%Q
  | Infinity => False
  | NaN => False
  end.

Lemma ltb_fin_false (q t : Q) : ltb (Fin q) t = false <-> (t <= q)%Q.
Proof.
  unfold ltb. rewrite negb_false_iff. apply Qle_bool_iff.
Qed.


Lemma div_pos (a b : nat) : 0 < b -> div a b = Fin (ratio a b).
Proof.
  intros Hb. unfold div. destruct (Nat.eqb_spec b 0); [lia | reflexivity].
Qed.


Lemma ratio_ge_99 (a b : nat) :
  0 < b -> ((99 # 100 <= ratio a b)%Q <-> 99 * b <= 100 * a).
Proof.
  intros Hn. unfold ratio, Qdiv, Qmult, Qinv, Qle, inject_Z.
  destruct b as [| m]; [lia |].
  cbn [Qnum Qden Z.of_nat].
  rewrite ?Pos2Z.inj_mul. lia.
Qed.

Lemma ratio_self (n : nat) : n <> 0 -> (ratio n n == 1)%Q.
Proof.
  intros Hn. unfold ratio. apply Qmult_inv_r.
  unfold inject_Z, Qeq. simpl. lia.
Qed.

End Num.

(* ===================================================================== *)
(** * Raster images *)
(* ===================================================================== *)

Module Image.

(** A decoded PNG of the [pngjs] package: dimensions and the RGBA buffer,
    four bytes per pixel, rows from the top. *)
Record PNG := mkPNG {
  width : nat;
  height : nat;
  data : list byte
}.

(** [new PNG({ width, height })]: a zero-filled buffer. *)
Definition blank (w h : nat) : PNG :=
  mkPNG w h (repeat x00 (4 * (w * h))).

(** The buffer has the size its dimensions announce (what [PNG.sync.read]
    returns). *)
Definition well_formed (p : PNG) : Prop :=
  length (data p) = 4 * (width p * height p).

(** [buf.copy(target, targetStart, sourceStart, sourceEnd)] of Node's
    Buffer, on lists: the bytes [sourceStart, sourceEnd) of the source
    overwrite the target from [targetStart]; the target keeps its size. *)
Definition buffer_copy (src tgt : list byte)
    (targetStart sourceStart sourceEnd : nat) : list byte :=
  let chunk := firstn (sourceEnd - sourceStart) (skipn sourceStart src) in
  let chunk := firstn (length tgt - targetStart) chunk in
  firstn targetStart tgt ++ chunk ++ skipn (targetStart + length chunk) tgt.

(** The row loop of [PNG.bitblt]: for y = 0 .. rows-1 copy one row. *)
Fixpoint bitblt_rows (src : PNG) (dstw : nat) (dstdata : list byte)
    (srcX srcY w deltaX deltaY : nat) (y rows : nat) : list byte :=
  match rows with
  | O => dstdata
  | S rows' =>
      let d := buffer_copy (data src) dstdata
                 (4 * ((deltaY + y) * dstw + deltaX))
                 (4 * ((srcY + y) * width src + srcX))
                 (4 * ((srcY + y) * width src + srcX + w)) in
      bitblt_rows src dstw d srcX srcY w deltaX deltaY (S y) rows'
  end.

(** [PNG.bitblt(src, dst, srcX, srcY, width, height, deltaX, deltaY)]:
    [None] stands for the two range errors the library raises. *)
Definition bitblt (src dst : PNG) (srcX srcY w h deltaX deltaY : nat)
    : option PNG :=
  if (width src <? srcX) || (height src <? srcY)
     || (width src <? srcX + w) || (height src <? srcY + h) then None
  else if (width dst <? deltaX) || (height dst <? deltaY)
     || (width dst <? deltaX + w) || (height dst <? deltaY + h) then None
  else Some (mkPNG (width dst) (height dst)
               (bitblt_rows src (width dst) (data dst)
                  srcX srcY w deltaX deltaY 0 h)).

(** Channel [c] (0 to 3: red, green, blue, alpha) of the pixel at column
    [x], row [y]. *)
Definition channel (p : PNG) (x y c : nat) : byte :=
  nth (4 * (y * width p + x) + c) (data p) x00.

(** The argument checks of [pixelmatch(img1, img2, output, width, height)]:
    both inputs and the output must have the same length, which must be
    [width * height * 4]; otherwise the library throws. *)
Definition pixelmatch_sizes_ok (img1 img2 output : list byte) (w h : nat)
    : bool :=
  (length img1 =? length img2) && (length output =? length img1)
  && (length img1 =? w * h * 4).

End Image.

(* ===================================================================== *)
(** * Reports, files and the world the scripts act on *)
(* ===================================================================== *)

(** One recorded entry of a report.  The scripts push small objects:
    [{ file, stderr }], [{ stderr }], [{ page, stderr }],
    [{ page, diff: true }], [{ page, diff: true, error }], [{ page, pct }]
    and, in the visual regression test,
    [{ page, diffPixels, diffPercentage, passed }]. *)
Inductive Diag : Type :=
| DStderr (subject : option string) (stderr : string)
| DDomDiff (page : string) (error : option string)
| DVisual (page : string) (pct : Num.num)
| DVisualResult (page : string) (diffPixels : nat)
    (diffPercentage : Num.num)
    (passed : bool).

(** The [results] object of the fix-and-validate script. *)
Record Results := mkResults {
  r_html : list Diag;
  r_css : list Diag;
  r_js : list Diag;
  r_accessibility : list Diag;
  r_links : list Diag;
  r_spell : list Diag;
  r_dom : list Diag;
  r_visual : list Diag;
  r_lighthouse : list Diag
}.

(** What a file holds. *)
Inductive Content : Type :=
| Text (s : string)
| Png (img : Image.PNG)
| Report (r : Results)
| ResultList (l : list Diag).

(** The errors the scripts throw or receive from their collaborators. *)
Inductive Error : Type :=
| FetchFailed (url : string)
| MissingMain (route : string)
| RatioBelowThreshold (route : string)
| NoSuchFile (path : string)
| CommandFailed (cmd : string)
| LaunchFailed
| NavigationFailed (url : string)
| AxeViolations (route : string)
| DomDiffOn (route : string)
| ImageSizesDoNotMatch
| BitbltOutsideImage
| VisualDiffOn (pct : Num.num) (route : string)
| LighthouseError (url : string)
| LighthouseFailedOn (route : string)
| ReferenceError (name : string)
| ClassCallWithoutNew (name : string).

(** The part of the machine the scripts change: the files, the running
    browser engines with their open page contexts, the running local
    servers and the console.  Handles are numbers drawn from [next_id].
    An entry of [disk] whose path ends in a slash stands for a
    directory, which is how a directory without files is there; a
    directory with something below it needs no entry of its own. *)
Record World := mkWorld {
  disk : list (string * Content);
  browsers : list nat;
  pages : list (nat * nat);
  servers : list nat;
  next_id : nat;
  console : list string
}.

Definition empty_world : World := mkWorld [] [] [] [] 0 [].

(** Outcome of a computation: a value or a thrown error. *)
Inductive Result (A : Type) : Type :=
| Ret (a : A)
| Throw (e : Error).
Arguments Ret {A} a.
Arguments Throw {A} e.

(** Computations: state passing with exceptions. *)
Definition M (A : Type) : Type := World -> Result A * World.

Definition ret {A} (a : A) : M A := fun w => (Ret a, w).

Definition throw {A} (e : Error) : M A := fun w => (Throw e, w).

Definition bind {A B} (c : M A) (k : A -> M B) : M B :=
  fun w =>
    match c w with
    | (Ret a, w') => k a w'
    | (Throw e, w') => (Throw e, w')
    end.

(** [try { c } catch (e) { h e }]. *)
Definition try_catch {A} (c : M A) (h : Error -> M A) : M A :=
  fun w =>
    match c w with
    | (Ret a, w') => (Ret a, w')
    | (Throw e, w') => h e w'
    end.

Declare Scope m_scope.
Delimit Scope m_scope with M.
Notation "x <- c ;; k" := (bind c (fun x => k))
  (at level 61, c at next level, right associativity) : m_scope.
Notation "c ;; k" := (bind c (fun _ => k))
  (at level 61, right associativity) : m_scope.
Local Open Scope m_scope.

(** [for (const x of l) body(x)]. *)
Fixpoint forEach {A} (l : list A) (body : A -> M unit) : M unit :=
  match l with
  | [] => ret tt
  | x :: rest => body x ;; forEach rest body
  end.

(** Option values that throw when absent. *)
Definition orThrow {A} (o : option A) (e : Error) : M A :=
  match o with
  | Some a => ret a
  | None => throw e
  end.

(** ** World operations *)

Definition lookup_file (path : string) (d : list (string * Content))
    : option Content :=
  match find (fun kv => String.eqb (fst kv) path) d with
  | Some kv => Some (snd kv)
  | None => None
  end.

(** [fsp.readFile(path, 'utf8')]. *)
Definition readFile (path : string) : M string :=
  fun w =>
    match lookup_file path (disk w) with
    | Some (Text s) => (Ret s, w)
    | _ => (Throw (NoSuchFile path), w)
    end.

(** [fsp.writeFile(path, content)] and [fs.writeFileSync]. *)
Definition writeFile (path : string) (c : Content) : M unit :=
  fun w =>
    (Ret tt,
     mkWorld ((path, c)
              :: filter (fun kv => negb (String.eqb (fst kv) path)) (disk w))
       (browsers w) (pages w) (servers w) (next_id w) (console w)).

(** What lies below a directory, as the recursive [readdir] walks of the
    scripts find it: files, and the entries that stand for directories.
    A directory exists when something lies below it, be it the entry of
    the directory itself. *)
Definition files_below (dir : string) (d : list (string * Content))
    : list string :=
  filter (String.prefix (dir ++ "/")) (map fst d).

(** The walk of a directory: [readdir] throws when the directory does
    not exist.  The walks of the scripts keep the paths with certain
    suffixes; that choice is left to the caller. *)
Definition walk (dir : string) : M (list string) :=
  fun w =>
    match files_below dir (disk w) with
    | [] => (Throw (NoSuchFile dir), w)
    | fs => (Ret fs, w)
    end.

(** [fsp.rm(dir, { recursive: true, force: true })]. *)
Definition rmTree (dir : string) : M unit :=
  fun w =>
    (Ret tt,
     mkWorld (filter (fun kv => negb (String.prefix (dir ++ "/") (fst kv)))
                (disk w))
       (browsers w) (pages w) (servers w) (next_id w) (console w)).

(** [console.log] and [console.error]. *)
Definition log (line : string) : M unit :=
  fun w =>
    (Ret tt, mkWorld (disk w) (browsers w) (pages w) (servers w)
               (next_id w) (line :: console w)).

(** Starting the local server. *)
Definition spawnServer : M nat :=
  fun w =>
    (Ret (next_id w),
     mkWorld (disk w) (browsers w) (pages w) (next_id w :: servers w)
       (S (next_id w)) (console w)).

(** [server.kill()]. *)
Definition killServer (s : nat) : M unit :=
  fun w =>
    (Ret tt,
     mkWorld (disk w) (browsers w) (pages w)
       (filter (fun x => negb (Nat.eqb x s)) (servers w))
       (next_id w) (console w)).

(** [puppeteer.launch(...)]; [ok] tells whether the engine starts. *)
Definition launch (ok : bool) : M nat :=
  fun w =>
    if ok then
      (Ret (next_id w),
       mkWorld (disk w) (next_id w :: browsers w) (pages w) (servers w)
         (S (next_id w)) (console w))
    else (Throw LaunchFailed, w).

(** [browser.newPage()]. *)
Definition newPage (b : nat) : M nat :=
  fun w =>
    (Ret (next_id w),
     mkWorld (disk w) (browsers w) ((b, next_id w) :: pages w) (servers w)
       (S (next_id w)) (console w)).

(** [page.close()]. *)
Definition closePage (p : nat) : M unit :=
  fun w =>
    (Ret tt,
     mkWorld (disk w) (browsers w)
       (filter (fun bp => negb (Nat.eqb (snd bp) p)) (pages w))
       (servers w) (next_id w) (console w)).

(** [browser.close()]: the engine stops and its page contexts go with
    it. *)
Definition closeBrowser (b : nat) : M unit :=
  fun w =>
    (Ret tt,
     mkWorld (disk w)
       (filter (fun x => negb (Nat.eqb x b)) (browsers w))
       (filter (fun bp => negb (Nat.eqb (fst bp) b)) (pages w))
       (servers w) (next_id w) (console w)).

(** [page.goto(url, ...)]; [ok] tells whether the navigation succeeds. *)
Definition goto (ok : bool) (url : string) : M unit :=
  if ok then ret tt else throw (NavigationFailed url).

(** ** The collaborators

    Everything the scripts ask of the outside: the live site, the HTML
    and XML parser, the external checkers, the browser engine and the
    pixel comparison.  An [Env] fixes their answers for one round. *)
Record Env := mkEnv {
  (** working directory of the process, as [process.cwd()] gives it *)
  cwd : string;
  (** [fetch(url)] followed by [res.text()]: [None] when the call fails
      or the response is not ok *)
  fetch : string -> option string;
  (** texts of the [url > loc] elements that cheerio finds in a document
      loaded in XML mode; a document that is no XML has none *)
  xml_locs : string -> list string;
  (** [href] attributes of the [a[href]] elements of an HTML document *)
  anchor_hrefs : string -> list string;
  (** inner markup of the first [main, #content] element, if any *)
  main_region : string -> option string;
  (** inner markup of the first [footer] element, if any *)
  footer_region : string -> option string;
  (** [execSync(cmd)]: does the command exit with status zero *)
  exec_ok : string -> bool;
  (** [exec(cmd, cb)]: what the command writes on its error stream *)
  exec_stderr : string -> string;
  (** [exec(cmd, cb)]: what the command writes to the file that its
      [--output-path] names, [None] when it writes none *)
  exec_report : string -> option string;
  (** does the browser engine start *)
  launch_ok : bool;
  (** does the navigation to a URL succeed *)
  nav_ok : string -> bool;
  (** number of violations the axe audit reports for a URL *)
  axe_violations : string -> nat;
  (** [page.$eval(selector, el => el.innerHTML)] on the page at a URL, by
      selector: [None] when the selector matches nothing *)
  eval_inner : string -> string -> option string;
  (** decoded full-page screenshot of the page at a URL *)
  screenshot : string -> Image.PNG;
  (** number of pixels [pixelmatch] counts as different *)
  pm_count : list byte -> list byte -> nat -> nat -> nat;
  (** what [pixelmatch] draws into its output buffer *)
  pm_mask : list byte -> list byte -> nat -> nat -> list byte;
  (** Lighthouse on a URL: the first-contentful-paint score and the
      accessibility score, [None] when the audit throws *)
  lighthouse : string -> option (Q * Q);
  (** what the cheerio rewriting of the repair step makes of a file:
      path and old contents to new contents *)
  repair : string -> string -> string
}.

(** A relative path, resolved against the working directory. *)
Definition resolve (env : Env) (path : string) : string :=
  JS.path_join (cwd env) path.

(** [err.message]. *)
Definition message (e : Error) : string :=
  match e with
  | FetchFailed url => "fetch " ++ url ++ " failed"
  | MissingMain r => "missing <main> for " ++ r
  | RatioBelowThreshold r => "DOM ratio below threshold for " ++ r
  | NoSuchFile path => "no such file or directory: " ++ path
  | CommandFailed cmd => "Command failed: " ++ cmd
  | LaunchFailed => "Failed to launch the browser process"
  | NavigationFailed url => "navigation failed at " ++ url
  | AxeViolations r => "aXe violations on " ++ r
  | DomDiffOn r => "DOM diff on " ++ r
  | ImageSizesDoNotMatch => "Image sizes do not match."
  | BitbltOutsideImage => "bitblt outside image"
  | VisualDiffOn _ r => "Visual diff on " ++ r
  | LighthouseError url => "lighthouse failed at " ++ url
  | LighthouseFailedOn r => "Lighthouse failed on " ++ r
  | ReferenceError name => name ++ " is not defined"
  | ClassCallWithoutNew name =>
      "Class constructor " ++ name ++ " cannot be invoked without 'new'"
  end.

(** [pixelmatch(img1, img2, output, width, height)]: the size checks of
    the library, then the count and the drawn output. *)
Definition pixelmatch (env : Env) (img1 img2 output : list byte)
    (w h : nat) : M (nat * list byte) :=
  if Image.pixelmatch_sizes_ok img1 img2 output w h
  then ret (pm_count env img1 img2 w h, pm_mask env img1 img2 w h)
  else throw ImageSizesDoNotMatch.

(** The double quote character. *)
Definition dq : string := String (ascii_of_nat 34) EmptyString.

(** [promise.catch(() => '')] on an extraction: a failed extraction gives
    the empty string. *)
Definition catch_empty (o : option string) : string :=
  match o with
  | Some h => h
  | None => ""
  end.

(* ===================================================================== *)
(** * The sync-and-validate script (unbounded retry) *)
(* ===================================================================== *)

Module SyncValidate.

Definition BASE_URL : string := "https://genaiglobal.org".
Definition DIST_DIR (env : Env) : string := JS.path_join (cwd env) "dist".
Definition REPORT_DIR (env : Env) : string :=
  JS.path_join (JS.path_join (cwd env) "reports") "diffs".
Definition PORT : string := "3000".
Definition VISUAL_THRESHOLD : Q := 1 # 10.
Definition DOM_THRESHOLD : Q := 99 # 100.

Definition local_url (r : string) : string :=
  "http://localhost:" ++ PORT ++ "/" ++ r.

Definition live_url (r : string) : string := BASE_URL ++ "/" ++ r.

(** [fetchText(url)]. *)
Definition fetchText (env : Env) (url : string) : M string :=
  orThrow (fetch env url) (FetchFailed url).

(** ** Route discovery *)

(** A JavaScript [Set] of strings, in insertion order. *)
Definition set_has (x : string) (s : list string) : bool :=
  existsb (String.eqb x) s.

Definition set_add (s : list string) (x : string) : list string :=
  if set_has x s then s else s ++ [x].

(** [new Set(l)], then [Array.from]. *)
Definition set_of (l : list string) : list string :=
  fold_left set_add l [].

(** Normalisation of a sitemap location. *)
Definition normalize_loc (text : string) : string :=
  JS.strip_trailing_slash
    (JS.strip_leading_slash (JS.remove_first BASE_URL text)).

(** Normalisation of an anchor target. *)
Definition normalize_href (href : string) : string :=
  JS.strip_trailing_slash (JS.strip_leading_slash href).

(** One step of the anchor loop of the fallback crawl. *)
Definition crawl_step (routes : list string) (href : string) : list string :=
  if negb (String.eqb href "") && JS.startsWith href "/"
  then set_add routes (normalize_href href)
  else routes.

Definition crawl (hrefs : list string) : list string :=
  fold_left crawl_step hrefs [""].

(** Only [fetchText] throws in the [try] block: the parser takes any
    text. *)
Definition discoverRoutes (env : Env) : M (list string) :=
  try_catch
    (xml <- fetchText env (BASE_URL ++ "/sitemap.xml") ;;
     let locs := xml_locs env xml in
     ret (set_of (map normalize_loc locs)))
    (fun _ =>
       html <- fetchText env BASE_URL ;;
       ret (crawl (anchor_hrefs env html))).

(** ** Content synchronisation *)

Definition snapshot (headInc topInc mainHtml footer : string) : string :=
  "<!DOCTYPE html><html lang=" ++ dq ++ "en" ++ dq ++ "><head>" ++ headInc
  ++ "</head><body>" ++ topInc ++ mainHtml ++ footer ++ "</body></html>".

(** The completeness ratio of [syncRoute]. *)
Definition completeness (mainHtml : string) : Num.num :=
  if negb (String.length mainHtml =? 0)
  then Num.div (String.length mainHtml) (String.length mainHtml)
  else Num.Fin 1.

(** The address [syncRoute] fetches. *)
Definition sync_url (route : string) : string :=
  JS.or_else (JS.strip_trailing_slash (BASE_URL ++ "/" ++ route)) BASE_URL.

Definition syncRoute (env : Env) (route : string) : M Num.num :=
  let url := sync_url route in
  html <- fetchText env url ;;
  match main_region env html with
  | None => throw (MissingMain route)
  | Some mainHtml =>
      let footer := match footer_region env html with
                    | Some f => JS.or_else f ""
                    | None => ""
                    end in
      headInc <- readFile (resolve env "head-section.html") ;;
      topInc <- readFile (resolve env "top-panel.html") ;;
      let doc := snapshot headInc topInc (JS.or_else mainHtml "") footer in
      let outDir := JS.path_join (DIST_DIR env) route in
      writeFile (JS.path_join outDir "index.html") (Text doc) ;;
      let ratio := completeness (JS.or_else mainHtml "") in
      if Num.ltb ratio DOM_THRESHOLD
      then throw (RatioBelowThreshold route)
      else ret ratio
  end.

(** [for (const r of routes) await syncRoute(r)]. *)
Definition syncAll (env : Env) (routes : list string) : M unit :=
  forEach routes (fun r => _ <- syncRoute env r ;; ret tt).

(** ** Validation *)

(** [run(cmd)]: [execSync] throws when the command fails. *)
Definition run (env : Env) (cmd : string) : M unit :=
  if exec_ok env cmd then ret tt else throw (CommandFailed cmd).

(** The axe audit of one Route. *)
Definition axeRoute (env : Env) (browser : nat) (r : string) : M unit :=
  page <- newPage browser ;;
  goto (nav_ok env (local_url r)) (local_url r) ;;
  (if negb (axe_violations env (local_url r) =? 0)
   then throw (AxeViolations r) else ret tt) ;;
  closePage page.

(** The structural test of [validate]: does the Route fail. *)
Definition domDiffFails (localHtml liveHtml : string) : bool :=
  String.eqb liveHtml ""
  || Num.ltb (Num.div (String.length localHtml) (String.length liveHtml))
       DOM_THRESHOLD.

(** [(diffPixels / (width * height)) * 100]. *)
Definition percent (diffPixels w h : nat) : Num.num :=
  Num.times (Num.div diffPixels (w * h)) 100.

(** The diff image of a Route. *)
Definition diffPath (env : Env) (r : string) : string :=
  JS.path_join (REPORT_DIR env) (JS.flatten_slashes r ++ ".png").

(** The structural and visual comparison of one Route. *)
Definition diffRoute (env : Env) (browser : nat) (r : string) : M unit :=
  pageLocal <- newPage browser ;;
  goto (nav_ok env (local_url r)) (local_url r) ;;
  let localHtml :=
    catch_empty (eval_inner env (local_url r) "main, #content") in
  let localShot := screenshot env (local_url r) in
  pageLive <- newPage browser ;;
  goto (nav_ok env (live_url r)) (live_url r) ;;
  let liveHtml :=
    catch_empty (eval_inner env (live_url r) "main, #content") in
  (if domDiffFails localHtml liveHtml
   then throw (DomDiffOn r) else ret tt) ;;
  let liveShot := screenshot env (live_url r) in
  let img1 := localShot in
  let img2 := liveShot in
  let width := Image.width img1 in
  let height := Image.height img1 in
  let diff := Image.blank width height in
  res <- pixelmatch env (Image.data img1) (Image.data img2)
           (Image.data diff) width height ;;
  let diffPixels := fst res in
  let pct := percent diffPixels width height in
  writeFile (diffPath env r) (Png (Image.mkPNG width height (snd res))) ;;
  (if Num.gtb pct VISUAL_THRESHOLD
   then throw (VisualDiffOn pct r) else ret tt) ;;
  closePage pageLocal ;;
  closePage pageLive.

(** The Lighthouse audit of one Route. *)
Definition lighthouseRoute (env : Env) (r : string) : M unit :=
  lhr <- orThrow (lighthouse env (local_url r))
           (LighthouseError (local_url r)) ;;
  if Qeq_bool (fst lhr) 0 || Num.ltb (Num.Fin (snd lhr)) (1 # 2)
  then throw (LighthouseFailedOn r)
  else ret tt.

Definition validate (env : Env) (routes : list string) : M unit :=
  htmlFiles <- walk (DIST_DIR env) ;;
  let htmlFiles := filter (fun f => JS.endsWith f ".html") htmlFiles in
  forEach htmlFiles
    (fun f =>
       run env ("npx html-validator --quiet --file=" ++ dq ++ f ++ dq)) ;;
  run env ("npx stylelint " ++ dq ++ DIST_DIR env ++ "/**/*.css" ++ dq) ;;
  run env ("npx eslint " ++ dq ++ DIST_DIR env ++ "/**/*.js" ++ dq) ;;
  run env
    ("npx cspell " ++ dq ++ DIST_DIR env ++ "/**/*.{html,js,md}" ++ dq) ;;
  server <- spawnServer ;;
  forEach routes (fun r => run env ("npx pa11y " ++ local_url r)) ;;
  browser <- launch (launch_ok env) ;;
  forEach routes (axeRoute env browser) ;;
  run env ("npx blc http://localhost:" ++ PORT ++ " -ro") ;;
  forEach routes (diffRoute env browser) ;;
  forEach routes (lighthouseRoute env) ;;
  closeBrowser browser ;;
  killServer server.

(** ** The main loop *)

(** [while (!validated) { try { validate } catch { log; re-sync } }].
    The loop has no bound, so the embedding takes fuel: [None] means the
    loop is still running when the fuel is spent.  Round [k] validates
    with [validate_k k]; the re-synchronisation that follows a failed
    round [k] is [resync_k k].  The answer carries the outcome, the
    number of rounds run and the final world. *)
Fixpoint retry_loop (fuel : nat) (validate_k resync_k : nat -> M unit)
    (k : nat) (w : World) : option (Result unit * nat * World) :=
  match fuel with
  | O => None
  | S fuel' =>
      match validate_k k w with
      | (Ret _, w1) => Some (Ret tt, S k, w1)
      | (Throw e, w1) =>
          match (log (message e) ;; resync_k k) w1 with
          | (Ret _, w2) => retry_loop fuel' validate_k resync_k (S k) w2
          | (Throw e', w2) => Some (Throw e', S k, w2)
          end
      end
  end.

(** What comes before the loop. *)
Definition prepare (env : Env) : M (list string) :=
  routes <- discoverRoutes env ;;
  log "Route discovery: routes found" ;;
  rmTree (DIST_DIR env) ;;
  syncAll env routes ;;
  log "All pages synced" ;;
  ret routes.

(** The whole script: the exit code, the number of validation rounds and
    the final world, or [None] while the loop is still running.  The
    site and the checkers may answer differently from round to round:
    [envs k] is what round [k] sees, and the re-synchronisation after
    round [k] already sees [envs (S k)]. *)
Definition main (fuel : nat) (envs : nat -> Env) (w : World)
    : option (nat * nat * World) :=
  match prepare (envs 0) w with
  | (Throw e, w1) => Some (1, 0, snd (log (message e) w1))
  | (Ret routes, w1) =>
      match retry_loop fuel
              (fun k => validate (envs k) routes)
              (fun k => syncAll (envs (S k)) routes) 0 w1 with
      | None => None
      | Some (Ret _, n, w2) =>
          Some (0, n, snd (log "SYNC & VALIDATE complete" w2))
      | Some (Throw e, n, w2) => Some (1, n, snd (log (message e) w2))
      end
  end.

End SyncValidate.

(* ===================================================================== *)
(** * The fix-and-validate script (bounded retry) *)
(* ===================================================================== *)

Module FixValidate.

Definition baseURL : string := "https://genaiglobal.org".
Definition port : string := "3000".
Definition threshold : Q := 1 # 10.
Definition reportDir (env : Env) : string := JS.path_join (cwd env) "reports".

Definition local_url (page : string) : string :=
  "http://localhost:" ++ port ++ "/" ++ page.

Definition live_url (page : string) : string := baseURL ++ "/" ++ page.

(** The [files] object of [discoverFiles]. *)
Record Files := mkFiles {
  f_html : list string;
  f_css : list string;
  f_js : list string
}.

(** The statements of the module that run before the script proper:
    [if (!fs.existsSync(reportDir)) fs.mkdirSync(reportDir, ...)].  The
    script walks the working directory after them, so its walk finds
    at least the directory of the reports. *)
Definition ensureReportDir (env : Env) : M unit :=
  fun w =>
    match files_below (reportDir env) (disk w) with
    | [] => writeFile (reportDir env ++ "/") (Text "") w
    | _ => (Ret tt, w)
    end.

Definition discoverFiles (root : string) : M Files :=
  found <- walk root ;;
  ret (mkFiles
         (filter (fun f => JS.endsWith f ".html") found)
         (filter (fun f => negb (JS.endsWith f ".html")
                           && JS.endsWith f ".css") found)
         (filter (fun f => negb (JS.endsWith f ".html")
                           && negb (JS.endsWith f ".css")
                           && JS.endsWith f ".js") found)).

(** What two lists of segments have after their common beginning. *)
Fixpoint after_common (from to : list string)
    : list string * list string :=
  match from, to with
  | x :: from', y :: to' =>
      if String.eqb x y then after_common from' to' else (from, to)
  | _, _ => (from, to)
  end.

(** [path.relative(process.cwd(), f)] (POSIX): both paths are resolved
    against the working directory and normalised; the answer climbs with
    one [..] for every segment the working directory has after what the
    two have in common, and then follows [f]. *)
Definition relative (env : Env) (f : string) : string :=
  let absolute :=
    if JS.startsWith f "/" then f else (cwd env ++ "/" ++ f)%string in
  let from := JS.resolve_dots (JS.segments (cwd env)) false [] in
  let to := JS.resolve_dots (JS.segments absolute) false [] in
  let rest := after_common from to in
  String.concat "/" (repeat ".." (length (fst rest)) ++ snd rest)%list.

Definition empty_results : Results := mkResults [] [] [] [] [] [] [] [] [].

(** [results.<kind>.push(entry)]. *)
Definition push_html (r : Results) (d : Diag) : Results :=
  mkResults (r_html r ++ [d]) (r_css r) (r_js r) (r_accessibility r)
    (r_links r) (r_spell r) (r_dom r) (r_visual r) (r_lighthouse r).
Definition push_js (r : Results) (d : Diag) : Results :=
  mkResults (r_html r) (r_css r) (r_js r ++ [d]) (r_accessibility r)
    (r_links r) (r_spell r) (r_dom r) (r_visual r) (r_lighthouse r).
Definition push_accessibility (r : Results) (d : Diag) : Results :=
  mkResults (r_html r) (r_css r) (r_js r) (r_accessibility r ++ [d])
    (r_links r) (r_spell r) (r_dom r) (r_visual r) (r_lighthouse r).
Definition push_links (r : Results) (d : Diag) : Results :=
  mkResults (r_html r) (r_css r) (r_js r) (r_accessibility r)
    (r_links r ++ [d]) (r_spell r) (r_dom r) (r_visual r) (r_lighthouse r).
Definition push_spell (r : Results) (d : Diag) : Results :=
  mkResults (r_html r) (r_css r) (r_js r) (r_accessibility r)
    (r_links r) (r_spell r ++ [d]) (r_dom r) (r_visual r) (r_lighthouse r).
Definition push_dom (r : Results) (d : Diag) : Results :=
  mkResults (r_html r) (r_css r) (r_js r) (r_accessibility r)
    (r_links r) (r_spell r) (r_dom r ++ [d]) (r_visual r) (r_lighthouse r).
Definition push_visual (r : Results) (d : Diag) : Results :=
  mkResults (r_html r) (r_css r) (r_js r) (r_accessibility r)
    (r_links r) (r_spell r) (r_dom r) (r_visual r ++ [d]) (r_lighthouse r).
Definition push_lighthouse (r : Results) (d : Diag) : Results :=
  mkResults (r_html r) (r_css r) (r_js r) (r_accessibility r)
    (r_links r) (r_spell r) (r_dom r) (r_visual r) (r_lighthouse r ++ [d]).

(** A string is truthy when it is not empty. *)
Definition truthy (s : string) : bool := negb (String.eqb s "").

(** [for (const x of l) { ... results ... }]: the loops of the stages,
    with the [results] object threaded through. *)
Fixpoint forEachR {A} (l : list A) (body : Results -> A -> M Results)
    (results : Results) : M Results :=
  match l with
  | [] => ret results
  | x :: rest => r <- body results x ;; forEachR rest body r
  end.

(** ** Repair *)

(** The class loop of [fixHtml], on one attribute value: a value that
    holds the placeholder [...] has its runs of dots replaced by a space
    and is trimmed; any other value stays. *)
Definition fixClass (cls : string) : string :=
  if JS.includes cls "..." then JS.trim (JS.collapse_dots cls) else cls.

(** The rewriting of the document itself (the parse, the class loop over
    the elements, the two includes, the texts taken from the live page)
    is the [repair] of the environment. *)
Definition fixHtml (env : Env) (file : string) : M unit :=
  content <- readFile file ;;
  writeFile file (Text (repair env file content)).

Definition fixPhase (env : Env) (files : Files) : M unit :=
  forEach (f_html files) (fixHtml env).

(** ** Stages *)

Definition runHtmlValidator (env : Env) (files : Files) (results : Results)
    : M Results :=
  forEachR (f_html files)
    (fun res file =>
       let stderr := exec_stderr env
            ("npx html-validator --quiet --file=" ++ dq ++ file ++ dq) in
       ret (if truthy stderr then push_html res (DStderr (Some file) stderr)
            else res))
    results.

(** A reference to an identifier that no declaration binds throws. *)
Definition undeclared {A} (name : string) : M A :=
  throw (ReferenceError name).

(** The body of [runStylelint] is the test of [stderr], an identifier
    that nothing declares. *)
Definition runStylelint (env : Env) (files : Files) (results : Results)
    : M Results :=
  stderr <- undeclared "stderr" ;;
  ret (if truthy stderr then push_js results (DStderr None stderr)
       else results).

(** Modelled from the spec: [runEslint] is called by [validationPhase]
    but its declaration is not in the sources.  The script linter is an
    opaque collaborator whose diagnostics are recorded in the report and
    counted as failures. *)
Definition runEslint (env : Env) (files : Files) (results : Results)
    : M Results :=
  let stderr := exec_stderr env "npx eslint" in
  ret (if truthy stderr then push_js results (DStderr None stderr)
       else results).

Definition startServer : M nat := spawnServer.

Definition runPa11y (env : Env) (pages : list string) (results : Results)
    : M Results :=
  forEachR pages
    (fun res page =>
       let stderr := exec_stderr env ("npx pa11y " ++ local_url page) in
       ret (if truthy stderr
            then push_accessibility res (DStderr (Some page) stderr)
            else res))
    results.

(** One iteration of the loop of [runAxe].  Nothing declares [browser]:
    the first statement of the [try] block throws, and the handler
    records the message of that error for the page.  The call of
    [AxePuppeteer] without [new], which comes later in the block, would
    throw as well. *)
Definition axePage (env : Env) (res : Results) (page : string)
    : M Results :=
  try_catch
    (browser <- undeclared "browser" ;;
     pageObj <- newPage browser ;;
     goto (nav_ok env (local_url page)) (local_url page) ;;
     violations <- throw (ClassCallWithoutNew "AxePuppeteer") ;;
     ret (if negb (violations =? 0)
          then push_accessibility res (DStderr (Some page) "violations")
          else res))
    (fun e => ret (push_accessibility res (DStderr (Some page) (message e)))).

(** The entries that the loop pushes stay in the [results] object of
    the caller when [browser.close()] throws after the loop; the only
    caller, [validationPhase], lets the error pass and never looks at
    the object again. *)
Definition runAxe (env : Env) (pages : list string) (results : Results)
    : M Results :=
  res <- forEachR pages (axePage env) results ;;
  browser <- undeclared "browser" ;;
  closeBrowser browser ;;
  ret res.

Definition runBrokenLinks (env : Env) (results : Results) : M Results :=
  let stderr := exec_stderr env
       ("npx blc http://localhost:" ++ port ++ " -ro") in
  ret (if truthy stderr then push_links results (DStderr None stderr)
       else results).

(** As in [runStylelint], nothing declares [stderr]. *)
Definition runCspell (env : Env) (results : Results) : M Results :=
  stderr <- undeclared "stderr" ;;
  ret (if truthy stderr then push_spell results (DStderr None stderr)
       else results).

(** One iteration of the loop of [runDomDiff]; as in [runAxe], the
    first statement of the [try] block throws. *)
Definition domDiffPage (env : Env) (res : Results) (page : string)
    : M Results :=
  try_catch
    (browser <- undeclared "browser" ;;
     p1 <- newPage browser ;;
     goto (nav_ok env (local_url page)) (local_url page) ;;
     let localHtml :=
       catch_empty (eval_inner env (local_url page) "#content") in
     goto (nav_ok env (live_url page)) (live_url page) ;;
     let liveHtml :=
       catch_empty (eval_inner env (live_url page) "#content") in
     let res' := if negb (String.eqb localHtml liveHtml)
                 then push_dom res (DDomDiff page None)
                 else res in
     closePage p1 ;;
     ret res')
    (fun e => ret (push_dom res (DDomDiff page (Some (message e))))).

Definition runDomDiff (env : Env) (pages : list string) (results : Results)
    : M Results :=
  res <- forEachR pages (domDiffPage env) results ;;
  browser <- undeclared "browser" ;;
  closeBrowser browser ;;
  ret res.

Definition percent (diffPixels w h : nat) : Num.num :=
  Num.times (Num.div diffPixels (w * h)) 100.

(** One iteration of the loop of [runVisualDiff]: no [try] block here,
    the reference to [browser] ends the stage. *)
Definition visualDiffPage (env : Env) (res : Results) (page : string)
    : M Results :=
  browser <- undeclared "browser" ;;
  pLocal <- newPage browser ;;
  goto (nav_ok env (local_url page)) (local_url page) ;;
  let img1 := screenshot env (local_url page) in
  goto (nav_ok env (live_url page)) (live_url page) ;;
  let img2 := screenshot env (live_url page) in
  let width := Image.width img1 in
  let height := Image.height img1 in
  let diff := Image.blank width height in
  pm <- pixelmatch env (Image.data img1) (Image.data img2)
          (Image.data diff) width height ;;
  let pct := percent (fst pm) width height in
  let res' := if Num.gtb pct threshold
              then push_visual res (DVisual page pct)
              else res in
  writeFile (JS.path_join (reportDir env)
               (JS.flatten_slashes page ++ "-diff.png"))
    (Png (Image.mkPNG width height (snd pm))) ;;
  closePage pLocal ;;
  ret res'.

Definition runVisualDiff (env : Env) (pages : list string)
    (results : Results) : M Results :=
  res <- forEachR pages (visualDiffPage env) results ;;
  browser <- undeclared "browser" ;;
  closeBrowser browser ;;
  ret res.

(** The report file of a page, and the command that writes it. *)
Definition lighthousePath (env : Env) (page : string) : string :=
  JS.path_join (reportDir env)
    ("lighthouse-" ++ JS.flatten_slashes page ++ ".json").

Definition lighthouseCommand (env : Env) (page : string) : string :=
  "npx lighthouse " ++ local_url page
  ++ " --quiet --chrome-flags=" ++ dq ++ "--headless" ++ dq
  ++ " --output json --output-path=" ++ lighthousePath env page.

Definition runLighthouse (env : Env) (pages : list string)
    (results : Results) : M Results :=
  forEachR pages
    (fun res page =>
       let cmd := lighthouseCommand env page in
       match exec_report env cmd with
       | Some report => writeFile (lighthousePath env page) (Text report)
       | None => ret tt
       end ;;
       let stderr := exec_stderr env cmd in
       ret (if truthy stderr
            then push_lighthouse res (DStderr (Some page) stderr)
            else res))
    results.

Definition validationPhase (env : Env) (files : Files) (pages : list string)
    : M Results :=
  let results := empty_results in
  results <- runHtmlValidator env files results ;;
  results <- runStylelint env files results ;;
  results <- runEslint env files results ;;
  server <- startServer ;;
  results <- runPa11y env pages results ;;
  results <- runAxe env pages results ;;
  results <- runBrokenLinks env results ;;
  results <- runCspell env results ;;
  results <- runDomDiff env pages results ;;
  results <- runVisualDiff env pages results ;;
  results <- runLighthouse env pages results ;;
  killServer server ;;
  ret results.

(** [Object.values(res).reduce((a, arr) => a + arr.length, 0)]. *)
Definition summarize (res : Results) : nat :=
  fold_left (fun a arr => a + length arr)
    [r_html res; r_css res; r_js res; r_accessibility res; r_links res;
     r_spell res; r_dom res; r_visual res; r_lighthouse res] 0.

Definition reportPath (env : Env) : string :=
  JS.path_join (reportDir env) "validation-report.json".

(** ** The main loop *)

(** [for (let attempt = 1; attempt <= MAX_ATTEMPTS; attempt++) ...],
    by recursion on the number of iterations still allowed; the value is
    the exit code of the process.  Attempt [a] repairs with [fix_k a] and
    validates with [validate_k a]. *)
Fixpoint attempts (remaining : nat) (reportFile : string)
    (fix_k : nat -> M unit) (validate_k : nat -> M Results)
    (attempt : nat) : M nat :=
  match remaining with
  | O => log "Validation failed after maximum attempts." ;; ret 1
  | S remaining' =>
      fix_k attempt ;;
      results <- validate_k attempt ;;
      writeFile reportFile (Report results) ;;
      let failures := summarize results in
      if failures =? 0
      then log "ALL FILES FIXED & VALIDATED" ;; ret 0
      else log "Attempt completed with issues." ;;
           attempts remaining' reportFile fix_k validate_k (S attempt)
  end.

Definition MAX_ATTEMPTS : nat := 3.

(** The whole script.  [envs a] is what attempt [a] sees; an error that
    escapes is an unhandled rejection, which ends the process. *)
Definition main (envs : nat -> Env) : M nat :=
  files <- discoverFiles (cwd (envs 0)) ;;
  let pages := map (relative (envs 0)) (f_html files) in
  attempts MAX_ATTEMPTS (reportPath (envs 0))
    (fun a => fixPhase (envs a) files)
    (fun a => validationPhase (envs a) files pages) 1.

End FixValidate.

(* ===================================================================== *)
(** * The visual regression test *)
(* ===================================================================== *)

Module VisualRegression.

Definition baseURL : string := "https://genaiglobal.org".
Definition port : string := "3000".
Definition threshold : Q := 1 # 10.

Definition pages : list string :=
  ["index.html"; "about-us.html"; "community.html"; "events.html";
   "resources.html"; "get-involved.html"; "spotlight.html"; "log-in.html"].

Definition local_url (pagePath : string) : string :=
  "http://localhost:" ++ port ++ "/" ++ pagePath.

Definition live_url (pagePath : string) : string := baseURL ++ "/" ++ pagePath.

(** Padding of one decoded screenshot onto a [width] x [height] canvas:
    [new PNG({ width, height })], then [PNG.bitblt] of the whole image to
    the origin. *)
Definition pad (img : Image.PNG) (width height : nat) : option Image.PNG :=
  Image.bitblt img (Image.blank width height) 0 0
    (Image.width img) (Image.height img) 0 0.

(** The comparison of two decoded screenshots: the padded canvases, then
    [pixelmatch] on them.  The value is [(diffPixels, diffPercent,
    passed)]. *)
Definition compare (env : Env) (localPNG livePNG : Image.PNG)
    : M (nat * Num.num * bool) :=
  let width := Nat.max (Image.width localPNG) (Image.width livePNG) in
  let height := Nat.max (Image.height localPNG) (Image.height livePNG) in
  localPadded <- orThrow (pad localPNG width height) BitbltOutsideImage ;;
  livePadded <- orThrow (pad livePNG width height) BitbltOutsideImage ;;
  let diffPNG := Image.blank width height in
  pm <- pixelmatch env (Image.data localPadded) (Image.data livePadded)
          (Image.data diffPNG) width height ;;
  let diffPixels := fst pm in
  let totalPixels := width * height in
  let diffPercent := Num.times (Num.div diffPixels totalPixels) 100 in
  let passed := Num.leb diffPercent threshold in
  ret (diffPixels, diffPercent, passed).

(** The body of the page loop: the entry pushed onto [results]. *)
Definition checkPage (env : Env) (browser : nat) (pagePath : string)
    : M Diag :=
  page <- newPage browser ;;
  goto (nav_ok env (local_url pagePath)) (local_url pagePath) ;;
  let localShot := screenshot env (local_url pagePath) in
  goto (nav_ok env (live_url pagePath)) (live_url pagePath) ;;
  let liveShot := screenshot env (live_url pagePath) in
  closePage page ;;
  res <- compare env localShot liveShot ;;
  let '(diffPixels, diffPercent, passed) := res in
  log (if passed then "pass " ++ pagePath else "fail " ++ pagePath) ;;
  ret (DVisualResult pagePath diffPixels diffPercent passed).

(** The page loop with the shared [results] array: entries pushed before
    an error stay in the array. *)
Fixpoint pageLoop (env : Env) (browser : nat) (l : list string)
    (results : list Diag) (w : World)
    : list Diag * option Error * World :=
  match l with
  | [] => (results, None, w)
  | pagePath :: rest =>
      match checkPage env browser pagePath w with
      | (Ret d, w') => pageLoop env browser rest (results ++ [d]) w'
      | (Throw e, w') => (results, Some e, w')
      end
  end.

Definition passed_of (d : Diag) : bool :=
  match d with
  | DVisualResult _ _ _ passed => passed
  | _ => true
  end.

(** [main()]: the value is [process.exitCode] when the function returns
    ([None] for a code that was never set). *)
Definition main (env : Env) (pageList : list string) : M (option nat) :=
  server <- spawnServer ;;
  browser <- launch (launch_ok env) ;;
  fun w =>
    let '(results, err, w1) := pageLoop env browser pageList [] w in
    let '(exitCode, w2) :=
      match err with
      | None => (None, w1)
      | Some e => (Some 1, snd (log (message e) w1))
      end in
    ((closeBrowser browser ;;
      killServer server ;;
      writeFile (JS.path_join (resolve env "reports") "visual-diffs.json")
        (ResultList results) ;;
      let allPassed := forallb passed_of results in
      ret (if negb allPassed
           then match exitCode with
                | Some 0 => Some 1
                | _ => exitCode
                end
           else exitCode)) w2).

End VisualRegression.

(* ===================================================================== *)
(** * The conflict resolver *)
(* ===================================================================== *)

Module ResolveConflicts.

(** [hasMarkers(str)]. *)
Definition hasMarkers (str : string) : bool :=
  JS.includes str "<<<<<<<" || JS.includes str "======="
  || JS.includes str ">>>>>>>".

(** ** Versions *)

(** The class [[0-9]]. *)
Definition is_digit (c : ascii) : bool :=
  let n := nat_of_ascii c in (48 <=? n) && (n <=? 57).

(** The string is made of digits. *)
Fixpoint only_digits (s : string) : bool :=
  match s with
  | EmptyString => true
  | String c rest => is_digit c && only_digits rest
  end.

(** The double nearest to a natural number, ties to even, as the number
    it stands for; [2 ^ 1024] stands for [Infinity]. *)
Definition to_double (n : N) : N :=
  if (n <? 2 ^ 53)%N then n
  else
    let e := (N.log2 n - 52)%N in
    let q := N.shiftr n e in
    let r := (n - N.shiftl q e)%N in
    let half := N.shiftl 1 (e - 1) in
    let q' := if (half <? r)%N || ((r =? half)%N && N.odd q)
              then (q + 1)%N else q in
    N.min (N.shiftl q' e) (2 ^ 1024).

(** The natural number a string of digits writes. *)
Fixpoint digits_value (s : string) (acc : N) : N :=
  match s with
  | EmptyString => acc
  | String c rest =>
      digits_value rest (acc * 10 + N.of_nat (nat_of_ascii c - 48))%N
  end.

(** [Number(s)] on a string of digits. *)
Definition Number (s : string) : N := to_double (digits_value s 0).

(** The match of [[0-9]+(\.[0-9]+)*] at the head of [s], which starts
    with a digit, split at its dots: [cur] is the component being
    read.  A dot belongs to the match when a digit follows it. *)
Fixpoint components (s : string) (cur : string) : list string :=
  match s with
  | EmptyString => [cur]
  | String c rest =>
      if is_digit c then components rest (cur ++ String c EmptyString)
      else if Ascii.eqb c "."
      then match rest with
           | String d _ =>
               if is_digit d then cur :: components rest EmptyString
               else [cur]
           | EmptyString => [cur]
           end
      else [cur]
  end.

(** [versionNums(v)]: the first match of the pattern in [v], split at
    its dots and read as numbers; [[0]] when nothing matches. *)
Fixpoint versionNums (v : string) : list N :=
  match v with
  | EmptyString => [0%N]
  | String c rest =>
      if is_digit c then map Number (components v EmptyString)
      else versionNums rest
  end.

(** The loop of [higherVersion], from index [i], with [remaining]
    iterations to go: [va[i] || 0] is [nth i va 0]. *)
Fixpoint compareFrom (a b : string) (va vb : list N) (i remaining : nat)
    : string :=
  match remaining with
  | O => a
  | S remaining' =>
      let x := nth i va 0%N in
      let y := nth i vb 0%N in
      if (y <? x)%N then a
      else if (x <? y)%N then b
      else compareFrom a b va vb (S i) remaining'
  end.

Definition higherVersion (a b : string) : string :=
  let va := versionNums a in
  let vb := versionNums b in
  let len := Nat.max (length va) (length vb) in
  compareFrom a b va vb 0 len.

(** ** Values *)

(** What [JSON.parse] returns.  A number is the rational its double
    stands for.  The fields of an object are its own properties in the
    order in which JavaScript enumerates them; their names differ from
    one another. *)
#[warnings="-register-all"]
Inductive json : Type :=
| JNull
| JBool (b : bool)
| JNum (q : Q)
| JStr (s : string)
| JArr (items : list json)
| JObj (fields : list (string * json)).

(** Is a value truthy. *)
Definition truthy (v : json) : bool :=
  match v with
  | JNull => false
  | JBool b => b
  | JNum q => negb (Qeq_bool q 0)
  | JStr s => negb (String.eqb s "")
  | JArr _ => true
  | JObj _ => true
  end.

(** The name of the index [i]. *)
Definition index_name (i : nat) : string :=
  NilEmpty.string_of_uint (Nat.to_uint i).

Fixpoint indexed {A} (l : list A) (i : nat) : list (string * A) :=
  match l with
  | [] => []
  | x :: rest => (index_name i, x) :: indexed rest (S i)
  end.

Fixpoint chars (s : string) : list json :=
  match s with
  | EmptyString => []
  | String c rest => JStr (String c EmptyString) :: chars rest
  end.

(** The own enumerable properties of a value: what [{ ...v }] copies
    and what [Object.entries(v)] lists. *)
Definition own_enumerable (v : json) : list (string * json) :=
  match v with
  | JObj fields => fields
  | JArr items => indexed items 0
  | JStr s => indexed (chars s) 0
  | _ => []
  end.

(** [Object.entries(v)]: [None] stands for the [TypeError] on [null]. *)
Definition entries (v : json) : option (list (string * json)) :=
  match v with
  | JNull => None
  | _ => Some (own_enumerable v)
  end.

Definition own (fields : list (string * json)) (name : string)
    : option json :=
  match find (fun kv => String.eqb (fst kv) name) fields with
  | Some kv => Some (snd kv)
  | None => None
  end.

(** An array index: the decimal name, without a leading zero, of a
    number below [2 ^ 32 - 1].  JavaScript enumerates the properties of
    such names first, in ascending order, and the others after them in
    the order of their creation. *)
Definition is_array_index (name : string) : bool :=
  match name with
  | EmptyString => false
  | String c rest =>
      only_digits name
      && (negb (Ascii.eqb c "0") || String.eqb rest "")
      && (digits_value name 0 <? 2 ^ 32 - 1)%N
  end.

Fixpoint replace_own (fields : list (string * json)) (name : string)
    (v : json) : list (string * json) :=
  match fields with
  | [] => []
  | (k, x) :: rest =>
      if String.eqb k name then (k, v) :: rest
      else (k, x) :: replace_own rest name v
  end.

Fixpoint insert_index (fields : list (string * json)) (name : string)
    (v : json) : list (string * json) :=
  match fields with
  | [] => [(name, v)]
  | (k, x) :: rest =>
      if is_array_index k && (digits_value k 0 <? digits_value name 0)%N
      then (k, x) :: insert_index rest name v
      else (name, v) :: (k, x) :: rest
  end.

(** [obj[name] = v] on an own property: an existing property keeps its
    place; a new one goes among the array indices when its name is one,
    and to the end otherwise. *)
Definition set_own (fields : list (string * json)) (name : string) (v : json)
    : list (string * json) :=
  match own fields name with
  | Some _ => replace_own fields name v
  | None =>
      if is_array_index name then insert_index fields name v
      else fields ++ [(name, v)]
  end.

(** The properties every object inherits from [Object.prototype]. *)
Definition inherited : list string :=
  ["constructor"; "__defineGetter__"; "__defineSetter__"; "hasOwnProperty";
   "__lookupGetter__"; "__lookupSetter__"; "isPrototypeOf";
   "propertyIsEnumerable"; "toString"; "valueOf"; "__proto__";
   "toLocaleString"].

Definition is_inherited (name : string) : bool :=
  existsb (String.eqb name) inherited.

(** [obj[name] = v] on an object literal: the name [__proto__], when it
    is not an own property, reaches the setter of the prototype and adds
    no property. *)
Definition assign (fields : list (string * json)) (name : string) (v : json)
    : list (string * json) :=
  match own fields name with
  | Some _ => set_own fields name v
  | None => if String.eqb name "__proto__" then fields
            else set_own fields name v
  end.

(** What the lookup [a[key]] finds. *)
Inductive Lookup : Type :=
| Found (v : json)
| Undefined
| OfNull
| OnPrototype.

(** The two names whose values are merged as dependencies. *)
Definition deps (key : string) : bool :=
  String.eqb key "dependencies" || String.eqb key "devDependencies".

(** [a[key]]: an own property is [Found]; [OfNull] stands for the
    [TypeError] of a lookup on [null].  A name that is not an own
    property is looked up on the prototype: on an object, the names of
    [inherited] are there and no other is.  Arrays and strings have
    their [length] besides their indices; what else their prototypes,
    and those of numbers and booleans, hold is not described, except
    that none has a property of the name of a dependency map. *)
Definition get (a : json) (key : string) : Lookup :=
  match a with
  | JNull => OfNull
  | JObj fields =>
      match own fields key with
      | Some v => Found v
      | None => if is_inherited key then OnPrototype else Undefined
      end
  | JArr items =>
      if String.eqb key "length"
      then Found (JNum (inject_Z (Z.of_nat (length items))))
      else match own (own_enumerable a) key with
           | Some v => Found v
           | None => if deps key then Undefined else OnPrototype
           end
  | JStr s =>
      if String.eqb key "length"
      then Found (JNum (inject_Z (Z.of_nat (String.length s))))
      else match own (own_enumerable a) key with
           | Some v => Found v
           | None => if deps key then Undefined else OnPrototype
           end
  | _ => if deps key then Undefined else OnPrototype
  end.

(** ** Merging *)

(** One iteration of the loop of [mergeDeps]; [None] stands for the
    [TypeError] of [higherVersion] on a value without [match]. *)
Definition mergeDep (out : list (string * json)) (name : string) (ver : json)
    : option (list (string * json)) :=
  match own out name with
  | Some cur =>
      if truthy cur
      then match cur, ver with
           | JStr x, JStr y =>
               Some (set_own out name (JStr (higherVersion x y)))
           | _, _ => None
           end
      else Some (set_own out name ver)
  | None =>
      if is_inherited name then None
      else Some (set_own out name ver)
  end.

Fixpoint mergeDepsLoop (l : list (string * json))
    (out : list (string * json)) : option (list (string * json)) :=
  match l with
  | [] => Some out
  | (name, ver) :: rest =>
      match mergeDep out name ver with
      | Some out' => mergeDepsLoop rest out'
      | None => None
      end
  end.

(** [mergeDeps(a, b)]; [a] is [None] when the argument is [undefined]
    and the default [{}] applies. *)
Definition mergeDeps (a : option json) (b : json) : option json :=
  let out := match a with
             | Some v => own_enumerable v
             | None => []
             end in
  match entries b with
  | None => None
  | Some l =>
      match mergeDepsLoop l out with
      | Some out' => Some (JObj out')
      | None => None
      end
  end.

(** [val && typeof val === 'object' && !Array.isArray(val)]. *)
Definition is_plain_object (val : json) : bool :=
  match val with
  | JObj _ => true
  | _ => false
  end.

(** How [resolveFile] and the functions it calls may fail. *)
Inductive Failure : Type :=
| ReadFailed (file : string)
| SyntaxError
| UnableToParseMarkers (file : string)
| TypeError.

(** What a call comes to.  [Unfollowed]: the merge goes on with a
    built-in object of a prototype as its first argument, because the
    second argument holds an object under a name such as [constructor]
    or [toString]; the properties of the built-in objects are not
    described, and the call is not followed further. *)
Inductive Outcome (A : Type) : Type :=
| Returns (v : A)
| Throws (e : Failure)
| Unfollowed.

Arguments Returns {A} v.
Arguments Throws {A} e.
Arguments Unfollowed {A}.

(** The outcome of [mergeDeps]. *)
Definition typed {A} (o : option A) : Outcome A :=
  match o with
  | Some v => Returns v
  | None => Throws TypeError
  end.

(** [a[key] || {}]. *)
Definition or_empty (old : json) : json :=
  if truthy old then old else JObj [].

(** The value [deepMerge] assigns under [key]; [merged] is the
    recursive call [deepMerge(a[key] || {}, val)] as a function of its
    first argument. *)
Definition mergedField (a : json) (key : string) (val : json)
    (merged : json -> Outcome json) : Outcome json :=
  if deps key
  then match get a key with
       | OfNull => Throws TypeError
       | Found old => typed (mergeDeps (Some old) val)
       | Undefined | OnPrototype => typed (mergeDeps None val)
       end
  else if is_plain_object val
  then match get a key with
       | OfNull => Throws TypeError
       | OnPrototype => Unfollowed
       | Found old => merged (or_empty old)
       | Undefined => merged (JObj [])
       end
  else Returns val.

(** [deepMerge(a, b)].  The loop runs over [Object.entries(b)]: the
    fields of an object, the items of an array under their indices, the
    characters of a string under theirs. *)
Fixpoint deepMerge (a b : json) {struct b} : Outcome json :=
  match b with
  | JNull => Throws TypeError
  | JObj fields =>
      (fix loop (l : list (string * json)) (result : list (string * json))
         : Outcome json :=
         match l with
         | [] => Returns (JObj result)
         | (key, val) :: rest =>
             match mergedField a key val (fun a' => deepMerge a' val) with
             | Returns r => loop rest (assign result key r)
             | Throws e => Throws e
             | Unfollowed => Unfollowed
             end
         end) fields (own_enumerable a)
  | JArr items =>
      (fix loop (l : list json) (i : nat) (result : list (string * json))
         : Outcome json :=
         match l with
         | [] => Returns (JObj result)
         | val :: rest =>
             match mergedField a (index_name i) val
                     (fun a' => deepMerge a' val) with
             | Returns r => loop rest (S i) (assign result (index_name i) r)
             | Throws e => Throws e
             | Unfollowed => Unfollowed
             end
         end) items 0 (own_enumerable a)
  | JStr s =>
      (fix loop (l : list (string * json)) (result : list (string * json))
         : Outcome json :=
         match l with
         | [] => Returns (JObj result)
         | (key, val) :: rest => loop rest (assign result key val)
         end) (indexed (chars s) 0) (own_enumerable a)
  | _ => Returns (JObj (own_enumerable a))
  end.

(** ** Conflict blocks *)

(** The line feed. *)
Definition nl : string := String (ascii_of_nat 10) EmptyString.

(** The text before and the text after the first occurrence of [pat]. *)
Fixpoint split_first (pat s : string) : option (string * string) :=
  if String.prefix pat s
  then Some (EmptyString, JS.drop (String.length pat) s)
  else match s with
       | EmptyString => None
       | String c rest =>
           match split_first pat rest with
           | Some (before, after) => Some (String c before, after)
           | None => None
           end
       end.

(** The group of [raw.match(/<<<<<<<[^\n]*\n([\s\S]*?)=======/)]: what
    stands between the end of the first line that holds the opening
    marker and the first separator after it. *)
Definition oursMatch (raw : string) : option string :=
  match split_first "<<<<<<<" raw with
  | Some (_, r1) =>
      match split_first nl r1 with
      | Some (_, r2) =>
          match split_first "=======" r2 with
          | Some (ours, _) => Some ours
          | None => None
          end
      | None => None
      end
  | None => None
  end.

(** The group of [raw.match(/=======\n([\s\S]*?)>>>>>>>/)]: what stands
    between the first separator line and the first closing marker after
    it. *)
Definition theirsMatch (raw : string) : option string :=
  match split_first ("=======" ++ nl)%string raw with
  | Some (_, r1) =>
      match split_first ">>>>>>>" r1 with
      | Some (theirs, _) => Some theirs
      | None => None
      end
  | None => None
  end.

(** [resolveFile(file)] on the files [d], a map from paths to texts;
    it returns a value and the files it leaves.  [parse] is
    [JSON.parse], [None] standing for its [SyntaxError], and [stringify]
    is [JSON.stringify(v, null, 2)]. *)
Definition resolveFile (parse : string -> option json)
    (stringify : json -> string) (file : string)
    (d : list (string * string))
    : Outcome (json * list (string * string)) :=
  match find (fun kv => String.eqb (fst kv) file) d with
  | None => Throws (ReadFailed file)
  | Some (_, raw) =>
      if negb (hasMarkers raw)
      then match parse raw with
           | Some v => Returns (v, d)
           | None => Throws SyntaxError
           end
      else
        match oursMatch raw, theirsMatch raw with
        | Some oursText, Some theirsText =>
            match parse oursText with
            | None => Throws SyntaxError
            | Some ours =>
                match parse theirsText with
                | None => Throws SyntaxError
                | Some theirs =>
                    match deepMerge ours theirs with
                    | Returns merged =>
                        Returns
                          (merged,
                           (file, (stringify merged ++ nl)%string)
                           :: filter
                                (fun kv => negb (String.eqb (fst kv) file))
                                d)
                    | Throws e => Throws e
                    | Unfollowed => Unfollowed
                    end
                end
            end
        | _, _ => Throws (UnableToParseMarkers file)
        end
  end.

End ResolveConflicts.

(* ===================================================================== *)
(** * Concrete environments *)
(* ===================================================================== *)

Module Samples.

(** One opaque black pixel. *)
Definition dot : Image.PNG := Image.mkPNG 1 1 [x00; x00; x00; xff].

(** Two pixels, one above the other. *)
Definition column : Image.PNG :=
  Image.mkPNG 1 2 [x00; x00; x00; xff; xff; xff; xff; xff].

(** Two pixels side by side. *)
Definition row : Image.PNG :=
  Image.mkPNG 2 1 [x00; x00; x00; xff; xff; xff; xff; xff].

(** A site on which every check passes: the live pages and the local
    pages show the same markup and the same screenshot. *)
Definition calm : Env :=
  mkEnv "/site"
    (fun _ => Some "<html></html>")
    (fun _ => ["https://genaiglobal.org/";
               "https://genaiglobal.org/about-us/";
               "https://genaiglobal.org/about-us"])
    (fun _ => ["/events/"; "mailto:team"; "/events"])
    (fun _ => Some "<p>hello</p>")
    (fun _ => None)
    (fun _ => true)
    (fun _ => "")
    (fun _ => Some "{}")
    true
    (fun _ => true)
    (fun _ => 0)
    (fun _ _ => Some "<p>hello</p>")
    (fun _ => dot)
    (fun _ _ _ _ => 0)
    (fun _ _ w h => repeat x00 (4 * (w * h)))
    (fun _ => Some (1%Q, 1%Q))
    (fun _ c => c).

(** The same site, with one collaborator replaced. *)
Definition with_fetch (env : Env) (f : string -> option string) : Env :=
  mkEnv (cwd env) f (xml_locs env) (anchor_hrefs env) (main_region env)
    (footer_region env) (exec_ok env) (exec_stderr env) (exec_report env)
    (launch_ok env) (nav_ok env) (axe_violations env) (eval_inner env)
    (screenshot env) (pm_count env) (pm_mask env) (lighthouse env)
    (repair env).

Definition with_xml_locs (env : Env) (f : string -> list string) : Env :=
  mkEnv (cwd env) (fetch env) f (anchor_hrefs env) (main_region env)
    (footer_region env) (exec_ok env) (exec_stderr env) (exec_report env)
    (launch_ok env) (nav_ok env) (axe_violations env) (eval_inner env)
    (screenshot env) (pm_count env) (pm_mask env) (lighthouse env)
    (repair env).

Definition with_main_region (env : Env) (f : string -> option string) : Env :=
  mkEnv (cwd env) (fetch env) (xml_locs env) (anchor_hrefs env) f
    (footer_region env) (exec_ok env) (exec_stderr env) (exec_report env)
    (launch_ok env) (nav_ok env) (axe_violations env) (eval_inner env)
    (screenshot env) (pm_count env) (pm_mask env) (lighthouse env)
    (repair env).

Definition with_exec_ok (env : Env) (f : string -> bool) : Env :=
  mkEnv (cwd env) (fetch env) (xml_locs env) (anchor_hrefs env)
    (main_region env) (footer_region env) f (exec_stderr env)
    (exec_report env) (launch_ok env) (nav_ok env) (axe_violations env)
    (eval_inner env) (screenshot env) (pm_count env) (pm_mask env)
    (lighthouse env) (repair env).

Definition with_exec_stderr (env : Env) (f : string -> string) : Env :=
  mkEnv (cwd env) (fetch env) (xml_locs env) (anchor_hrefs env)
    (main_region env) (footer_region env) (exec_ok env) f (exec_report env)
    (launch_ok env) (nav_ok env) (axe_violations env) (eval_inner env)
    (screenshot env) (pm_count env) (pm_mask env) (lighthouse env)
    (repair env).

Definition with_exec_report (env : Env) (f : string -> option string) : Env :=
  mkEnv (cwd env) (fetch env) (xml_locs env) (anchor_hrefs env)
    (main_region env) (footer_region env) (exec_ok env) (exec_stderr env) f
    (launch_ok env) (nav_ok env) (axe_violations env) (eval_inner env)
    (screenshot env) (pm_count env) (pm_mask env) (lighthouse env)
    (repair env).

Definition with_launch_ok (env : Env) (b : bool) : Env :=
  mkEnv (cwd env) (fetch env) (xml_locs env) (anchor_hrefs env)
    (main_region env) (footer_region env) (exec_ok env) (exec_stderr env)
    (exec_report env) b (nav_ok env) (axe_violations env) (eval_inner env)
    (screenshot env) (pm_count env) (pm_mask env) (lighthouse env)
    (repair env).

Definition with_nav_ok (env : Env) (f : string -> bool) : Env :=
  mkEnv (cwd env) (fetch env) (xml_locs env) (anchor_hrefs env)
    (main_region env) (footer_region env) (exec_ok env) (exec_stderr env)
    (exec_report env) (launch_ok env) f (axe_violations env)
    (eval_inner env) (screenshot env) (pm_count env) (pm_mask env)
    (lighthouse env) (repair env).

Definition with_axe_violations (env : Env) (f : string -> nat) : Env :=
  mkEnv (cwd env) (fetch env) (xml_locs env) (anchor_hrefs env)
    (main_region env) (footer_region env) (exec_ok env) (exec_stderr env)
    (exec_report env) (launch_ok env) (nav_ok env) f (eval_inner env)
    (screenshot env) (pm_count env) (pm_mask env) (lighthouse env)
    (repair env).

Definition with_eval_inner (env : Env)
    (f : string -> string -> option string) : Env :=
  mkEnv (cwd env) (fetch env) (xml_locs env) (anchor_hrefs env)
    (main_region env) (footer_region env) (exec_ok env) (exec_stderr env)
    (exec_report env) (launch_ok env) (nav_ok env) (axe_violations env) f
    (screenshot env) (pm_count env) (pm_mask env) (lighthouse env)
    (repair env).

Definition with_screenshot (env : Env) (f : string -> Image.PNG) : Env :=
  mkEnv (cwd env) (fetch env) (xml_locs env) (anchor_hrefs env)
    (main_region env) (footer_region env) (exec_ok env) (exec_stderr env)
    (exec_report env) (launch_ok env) (nav_ok env) (axe_violations env)
    (eval_inner env) f (pm_count env) (pm_mask env) (lighthouse env)
    (repair env).

Definition with_pm_count (env : Env)
    (f : list byte -> list byte -> nat -> nat -> nat) : Env :=
  mkEnv (cwd env) (fetch env) (xml_locs env) (anchor_hrefs env)
    (main_region env) (footer_region env) (exec_ok env) (exec_stderr env)
    (exec_report env) (launch_ok env) (nav_ok env) (axe_violations env)
    (eval_inner env) (screenshot env) f (pm_mask env) (lighthouse env)
    (repair env).

(** A working directory that holds the two shared fragments and one
    synchronised page. *)
Definition site : World :=
  mkWorld
    [("/site/head-section.html", Text "<title>t</title>");
     ("/site/top-panel.html", Text "<nav></nav>");
     ("/site/dist/index.html", Text "<html></html>")]
    [] [] [] 0 [].

End Samples.

(* ===================================================================== *)
(** * Paths that joining leaves as they are *)
(* ===================================================================== *)

Section Paths.

Import JS.

Lemma segments_nonempty (s : string) : segments s <> [].
Proof.
  destruct s as [| c s]; cbn [segments]; [discriminate |].
  destruct (Ascii.eqb c "/"); [discriminate |].
  destruct (segments s); discriminate.
Qed.

Lemma segments_single_empty (s : string) : segments s = [""] -> s = "".
Proof.
  destruct s as [| c s]; [reflexivity |]. cbn [segments].
  destruct (Ascii.eqb c "/").
  - intros H. inversion H as [H1]. destruct (segments_nonempty s H1).
  - destruct (segments s); discriminate.
Qed.

Lemma segments_app_slash (a b : string) :
  segments (a ++ "/" ++ b) = (segments a ++ segments b)%list.
Proof.
  induction a as [| c a IH].
  - reflexivity.
  - cbn [append segments]. cbn [append] in IH. rewrite IH.
    destruct (Ascii.eqb c "/"); [reflexivity |].
    pose proof (segments_nonempty a) as Ha.
    destruct (segments a) as [| seg more]; [congruence | reflexivity].
Qed.

Lemma concat_segments (s : string) : String.concat "/" (segments s) = s.
Proof.
  induction s as [| c s IH]; [reflexivity |]. cbn [segments].
  pose proof (segments_nonempty s) as Hs.
  destruct (Ascii.eqb_spec c "/") as [-> | Hc].
  - destruct (segments s) as [| seg more]; [congruence |].
    cbn [String.concat]. cbn [String.concat] in IH. rewrite IH.
    reflexivity.
  - destruct (segments s) as [| seg more]; [congruence |].
    destruct more as [| m more]; cbn [String.concat] in *;
      rewrite <- IH; reflexivity.
Qed.

Lemma plain_segments_app (l m : list string) :
  plain_segments (l ++ m) = plain_segments l && plain_segments m.
Proof. apply forallb_app. Qed.

Lemma resolve_dots_plain (segs : list string) (allow : bool) :
  plain_segments segs = true ->
  forall kept, resolve_dots segs allow kept = (rev kept ++ segs)%list.
Proof.
  induction segs as [| seg segs IH]; intros Hp kept.
  - cbn [resolve_dots]. rewrite app_nil_r. reflexivity.
  - cbn [plain_segments forallb] in Hp. apply andb_true_iff in Hp.
    destruct Hp as [Hseg Hrest]. apply negb_true_iff in Hseg.
    apply orb_false_iff in Hseg. destruct Hseg as [H12 H3].
    cbn [resolve_dots]. rewrite H12, H3. rewrite (IH Hrest).
    cbn [rev]. rewrite <- app_assoc. reflexivity.
Qed.

Lemma trailing_slash_last (s : string) :
  trailing_slash s = true -> last (segments s) "x" = "".
Proof.
  induction s as [| c s IH]; [discriminate |].
  destruct s as [| d s].
  - cbn [trailing_slash]. intros Hc. cbn [segments]. rewrite Hc.
    reflexivity.
  - change (trailing_slash (String c (String d s)))
      with (trailing_slash (String d s)).
    intros Ht. specialize (IH Ht).
    remember (String d s) as t eqn:Et. cbn [segments].
    pose proof (segments_nonempty t) as Hne.
    destruct (segments t) as [| seg more] eqn:Es; [congruence |].
    destruct (Ascii.eqb c "/"); [exact IH |].
    destruct more as [| m more]; [| exact IH].
    cbn [last] in IH. subst seg.
    apply segments_single_empty in Es. congruence.
Qed.

Lemma plain_segments_last (l : list string) :
  plain_segments l = true -> l <> [] -> last l "x" <> "".
Proof.
  induction l as [| seg l IH]; intros Hp Hne; [congruence |].
  cbn [plain_segments forallb] in Hp. apply andb_true_iff in Hp.
  destruct Hp as [Hseg Hrest]. destruct l as [| m l].
  - cbn [last]. intros ->. discriminate Hseg.
  - apply IH; [exact Hrest | discriminate].
Qed.

Lemma plain_no_trailing_slash (s : string) :
  plain_segments (segments s) = true -> trailing_slash s = false.
Proof.
  intros Hp. destruct (trailing_slash s) eqn:Ht; [| reflexivity].
  exfalso. apply (plain_segments_last _ Hp (segments_nonempty s)).
  apply trailing_slash_last. exact Ht.
Qed.

Lemma append_empty (s : string) : (s ++ "")%string = s.
Proof.
  induction s as [| c s IH]; [reflexivity |]. cbn [append]. rewrite IH.
  reflexivity.
Qed.

(** Normalisation leaves a rooted path as it is. *)
Lemma normalize_rooted (p : string) : rooted p = true -> normalize p = p.
Proof.
  destruct p as [| c rest]; [discriminate |]. unfold rooted.
  destruct (Ascii.eqb_spec c "/") as [-> | Hc].
  - intros Hp. unfold normalize. cbn [Ascii.eqb Bool.eqb negb].
    cbn [segments Ascii.eqb Bool.eqb]. cbn [resolve_dots String.eqb orb].
    rewrite (resolve_dots_plain _ false Hp []). cbn [rev app].
    rewrite concat_segments.
    assert (Hrest : String.eqb rest "" = false).
    { destruct rest; [discriminate Hp | reflexivity]. }
    rewrite Hrest.
    assert (Ht : trailing_slash (String "/" rest) = false).
    { destruct rest as [| d rest]; [discriminate Hrest |].
      change (trailing_slash (String "/" (String d rest)))
        with (trailing_slash (String d rest)).
      apply plain_no_trailing_slash. exact Hp. }
    rewrite Ht. rewrite append_empty. reflexivity.
  - destruct c as [[] [] [] [] [] [] [] []]; try discriminate.
    exfalso. apply Hc. reflexivity.
Qed.

Lemma rooted_join (dir name : string) :
  rooted dir = true -> plain name = true -> name <> "" ->
  rooted (dir ++ "/" ++ name) = true.
Proof.
  intros Hd Hn Hne. unfold plain in Hn.
  destruct name as [| c name]; [congruence |]. cbn [String.eqb orb] in Hn.
  destruct dir as [| d rest]; [discriminate |].
  destruct d as [[] [] [] [] [] [] [] []]; try discriminate.
  unfold rooted in *. cbn [append].
  change (rest ++ String "/" (String c name))%string
    with (rest ++ "/" ++ String c name)%string.
  rewrite segments_app_slash, plain_segments_app, Hd, Hn. reflexivity.
Qed.

(** On a rooted directory and a plain name, [path.join] is the
    concatenation of [path_join]. *)
Lemma path_join_join (dir name : string) :
  rooted dir = true -> plain name = true ->
  path_join dir name = join dir name.
Proof.
  intros Hd Hn. unfold path_join, join.
  destruct dir as [| d rest]; [discriminate |].
  destruct name as [| c name].
  - symmetry. apply normalize_rooted. exact Hd.
  - symmetry. apply normalize_rooted. apply rooted_join; congruence.
Qed.

Lemma join_join_all (a b : string) : join a b = join_all [a; b].
Proof. destruct a, b; reflexivity. Qed.

Lemma append_assoc (a b c : string) :
  ((a ++ b) ++ c)%string = (a ++ b ++ c)%string.
Proof.
  induction a as [| x a IH]; [reflexivity |]. cbn [append]. rewrite IH.
  reflexivity.
Qed.

(** The same with a name in between, as [path.join(dir, route, name)]
    has it. *)
Lemma path_join_join_all (dir route name : string) :
  rooted dir = true -> plain route = true -> plain name = true ->
  name <> "" ->
  path_join (path_join dir route) name = join_all [dir; route; name].
Proof.
  intros Hd Hr Hn Hne.
  assert (Hdr : rooted (path_join dir route) = true).
  { unfold path_join. destruct route as [| c route]; [exact Hd |].
    apply rooted_join; congruence. }
  rewrite (path_join_join _ name Hdr Hn). unfold join, join_all.
  destruct dir as [| d dir]; [discriminate |].
  destruct name as [| c name]; [congruence |].
  destruct route as [| x route].
  - cbn [path_join filter String.eqb negb String.concat]. reflexivity.
  - cbn [path_join filter String.eqb negb String.concat].
    destruct (String d dir ++ "/" ++ String x route)%string eqn:E;
      [discriminate E |].
    rewrite <- E, append_assoc. reflexivity.
Qed.

End Paths.

(* ===================================================================== *)
(** * Properties of the content synchroniser *)
(* ===================================================================== *)

Section Synchroniser.

Import SyncValidate.

Lemma completeness_one (mainHtml : string) :
  Num.equals (completeness mainHtml) 1.
Proof.
  unfold completeness.
  destruct (Nat.eqb_spec (String.length mainHtml) 0) as [E | E]; cbn [negb].
  - reflexivity.
  - rewrite Num.div_pos by lia. apply Num.ratio_self. exact E.
Qed.

Lemma completeness_reaches_threshold (mainHtml : string) :
  Num.ltb (completeness mainHtml) DOM_THRESHOLD = false.
Proof.
  pose proof (completeness_one mainHtml) as H.
  destruct (completeness mainHtml) as [q | |]; try reflexivity.
  apply Num.ltb_fin_false. cbn [Num.equals] in H. rewrite H.
  unfold DOM_THRESHOLD, Qle. simpl. lia.
Qed.

Lemma or_else_empty (s : string) : JS.or_else s "" = s.
Proof. destruct s; reflexivity. Qed.

(** [syncRoute], step by step. *)
Lemma syncRoute_eq (env : Env) (route : string) (w : World) :
  syncRoute env route w =
  match fetch env (sync_url route) with
  | None => (Throw (FetchFailed (sync_url route)), w)
  | Some html =>
      match main_region env html with
      | None => (Throw (MissingMain route), w)
      | Some mainHtml =>
          match lookup_file (resolve env "head-section.html") (disk w) with
          | Some (Text headInc) =>
              match lookup_file (resolve env "top-panel.html") (disk w) with
              | Some (Text topInc) =>
                  (Ret (completeness mainHtml),
                   snd (writeFile
                          (JS.path_join (JS.path_join (DIST_DIR env) route)
                             "index.html")
                          (Text (snapshot headInc topInc mainHtml
                                   match footer_region env html with
                                   | Some f => f
                                   | None => ""
                                   end)) w))
              | _ => (Throw (NoSuchFile (resolve env "top-panel.html")), w)
              end
          | _ => (Throw (NoSuchFile (resolve env "head-section.html")), w)
          end
      end
  end.
Proof.
  unfold syncRoute, fetchText, orThrow, bind, readFile, ret, throw.
  destruct (fetch env (sync_url route)) as [html |]; [| reflexivity].
  destruct (main_region env html) as [mainHtml |]; [| reflexivity].
  destruct (lookup_file (resolve env "head-section.html") (disk w))
    as [[headInc | | | ] | ]; try reflexivity.
  destruct (lookup_file (resolve env "top-panel.html") (disk w))
    as [[topInc | | | ] | ]; try reflexivity.
  rewrite or_else_empty, completeness_reaches_threshold.
  unfold writeFile. simpl.
  destruct (footer_region env html) as [f |]; [rewrite or_else_empty |];
    reflexivity.
Qed.

(** C10.  For every Route whose primary content region is located, the
    completeness ratio of [syncRoute] is exactly 1, also when the
    extracted content is empty; whenever [syncRoute] returns, it returns
    1; it never throws the ratio-below-threshold error; and it does return
    as soon as the two shared fragments can be read. *)
Theorem syncRoute_ratio_is_one (env : Env) (route : string) (w : World)
    (html mainHtml : string) :
  fetch env (sync_url route) = Some html ->
  main_region env html = Some mainHtml ->
  Num.equals (completeness mainHtml) 1
  /\ (forall q w', syncRoute env route w = (Ret q, w') -> Num.equals q 1)
  /\ (forall r w', syncRoute env route w <> (Throw (RatioBelowThreshold r), w'))
  /\ (forall headInc topInc,
        lookup_file (resolve env "head-section.html") (disk w)
          = Some (Text headInc) ->
        lookup_file (resolve env "top-panel.html") (disk w)
          = Some (Text topInc) ->
        exists w', syncRoute env route w = (Ret (completeness mainHtml), w')).
Proof.
  intros Hf Hm. rewrite syncRoute_eq, Hf, Hm.
  split; [apply completeness_one |].
  split; [| split].
  - intros q w'.
    destruct (lookup_file (resolve env "head-section.html") (disk w))
      as [[headInc | | | ] | ]; try discriminate.
    destruct (lookup_file (resolve env "top-panel.html") (disk w))
      as [[topInc | | | ] | ]; try discriminate.
    intros H. inversion H; subst. apply completeness_one.
  - intros r w'.
    destruct (lookup_file (resolve env "head-section.html") (disk w))
      as [[headInc | | | ] | ]; try discriminate.
    destruct (lookup_file (resolve env "top-panel.html") (disk w))
      as [[topInc | | | ] | ]; discriminate.
  - intros headInc topInc Hh Ht. rewrite Hh, Ht. eexists. reflexivity.
Qed.

(** A page whose content region is present and empty. *)
Definition hollow : Env :=
  Samples.with_main_region Samples.calm (fun _ => Some "").

Lemma syncRoute_ratio_is_one_witness :
  Num.equals (completeness "") 1
  /\ (forall q w', syncRoute hollow "about-us" Samples.site = (Ret q, w')
                   -> Num.equals q 1)
  /\ (forall r w', syncRoute hollow "about-us" Samples.site
                   <> (Throw (RatioBelowThreshold r), w'))
  /\ (forall headInc topInc,
        lookup_file (resolve hollow "head-section.html") (disk Samples.site)
          = Some (Text headInc) ->
        lookup_file (resolve hollow "top-panel.html") (disk Samples.site)
          = Some (Text topInc) ->
        exists w', syncRoute hollow "about-us" Samples.site
                   = (Ret (completeness ""), w')).
Proof.
  apply (syncRoute_ratio_is_one hollow "about-us" Samples.site
           "<html></html>" ""); reflexivity.
Defined.

(** C2, at the input on which the code departs from it: the content
    region of the page is found and is empty, and [syncRoute] returns the
    ratio 1 instead of failing. *)
Theorem syncRoute_accepts_empty_content :
  main_region hollow "<html></html>" = Some ""
  /\ exists w',
       syncRoute hollow "about-us" Samples.site = (Ret (Num.Fin 1), w').
Proof.
  split; [reflexivity |].
  exists (snd (syncRoute hollow "about-us" Samples.site)).
  vm_compute. reflexivity.
Qed.

End Synchroniser.

(* ===================================================================== *)
(** * Properties of the structural and visual comparison of [validate] *)
(* ===================================================================== *)

Section RouteComparison.

Import SyncValidate.

Variable env : Env.
Variable browser : nat.
Variable r : string.

(** The markup [diffRoute] extracts on each side. *)
Definition localHtml_of : string :=
  catch_empty (eval_inner env (local_url r) "main, #content").
Definition liveHtml_of : string :=
  catch_empty (eval_inner env (live_url r) "main, #content").

(** The percentage [diffRoute] derives from the two screenshots. *)
Definition pct_of : Num.num :=
  let img1 := screenshot env (local_url r) in
  let img2 := screenshot env (live_url r) in
  percent (pm_count env (Image.data img1) (Image.data img2)
             (Image.width img1) (Image.height img1))
    (Image.width img1) (Image.height img1).

(** Do the buffers handed to [pixelmatch] pass its size checks. *)
Definition sizes_ok_of : bool :=
  let img1 := screenshot env (local_url r) in
  let img2 := screenshot env (live_url r) in
  Image.pixelmatch_sizes_ok (Image.data img1) (Image.data img2)
    (Image.data (Image.blank (Image.width img1) (Image.height img1)))
    (Image.width img1) (Image.height img1).

(** The diff image [diffRoute] writes. *)
Definition diffImage_of : Image.PNG :=
  let img1 := screenshot env (local_url r) in
  let img2 := screenshot env (live_url r) in
  Image.mkPNG (Image.width img1) (Image.height img1)
    (pm_mask env (Image.data img1) (Image.data img2)
       (Image.width img1) (Image.height img1)).

(** [diffRoute], step by step. *)
Lemma diffRoute_eq (w : World) :
  diffRoute env browser r w =
  let w1 := snd (newPage browser w) in
  let w2 := snd (newPage browser w1) in
  if negb (nav_ok env (local_url r))
  then (Throw (NavigationFailed (local_url r)), w1)
  else if negb (nav_ok env (live_url r))
  then (Throw (NavigationFailed (live_url r)), w2)
  else if domDiffFails localHtml_of liveHtml_of
  then (Throw (DomDiffOn r), w2)
  else if negb sizes_ok_of
  then (Throw ImageSizesDoNotMatch, w2)
  else
    let w3 := snd (writeFile (diffPath env r) (Png diffImage_of) w2) in
    if Num.gtb pct_of VISUAL_THRESHOLD
    then (Throw (VisualDiffOn pct_of r), w3)
    else (Ret tt,
          snd (closePage (S (next_id w)) (snd (closePage (next_id w) w3)))).
Proof.
  unfold diffRoute, bind, goto, pixelmatch.
  fold localHtml_of liveHtml_of. unfold pct_of, sizes_ok_of, diffImage_of.
  cbv zeta. unfold newPage at 1. cbn [snd fst].
  destruct (nav_ok env (local_url r)); [| reflexivity].
  cbn [negb]. unfold ret at 1. unfold newPage at 1. cbn [snd fst].
  destruct (nav_ok env (live_url r)); [| reflexivity].
  cbn [negb]. unfold ret at 1.
  destruct (domDiffFails localHtml_of liveHtml_of); [reflexivity |].
  unfold ret at 1.
  destruct (Image.pixelmatch_sizes_ok _ _ _ _ _); [| reflexivity].
  cbn [negb]. unfold ret at 1. cbn [snd fst]. unfold writeFile at 1.
  destruct (Num.gtb _ _); reflexivity.
Qed.

Lemma string_length_pos (s : string) : s <> "" -> 0 < String.length s.
Proof. destruct s; [congruence | simpl; lia]. Qed.

Lemma domDiffFails_false_iff (localHtml liveHtml : string) :
  domDiffFails localHtml liveHtml = false <->
  liveHtml <> ""
  /\ (DOM_THRESHOLD <=
      Num.ratio (String.length localHtml) (String.length liveHtml))%Q.
Proof.
  unfold domDiffFails. rewrite orb_false_iff, String.eqb_neq.
  split; intros [Hne H]; (split; [exact Hne |]).
  - rewrite Num.div_pos in H by (apply string_length_pos; exact Hne).
    apply Num.ltb_fin_false. exact H.
  - rewrite Num.div_pos by (apply string_length_pos; exact Hne).
    apply Num.ltb_fin_false. exact H.
Qed.

Lemma domDiffFails_same (X : string) : X <> "" -> domDiffFails X X = false.
Proof.
  intros HX. apply domDiffFails_false_iff. split; [exact HX |].
  apply Num.ratio_ge_99; [apply string_length_pos; exact HX | lia].
Qed.

Lemma domDiffFails_empty_live (X : string) : domDiffFails X "" = true.
Proof. reflexivity. Qed.

(** [diffRoute] throws the structural error exactly when both pages are
    reached and the structural test fails. *)
Lemma diffRoute_structural (w : World) :
  fst (diffRoute env browser r w) = Throw (DomDiffOn r)
  <-> nav_ok env (local_url r) = true
      /\ nav_ok env (live_url r) = true
      /\ domDiffFails localHtml_of liveHtml_of = true.
Proof.
  rewrite diffRoute_eq. cbv zeta.
  destruct (nav_ok env (local_url r)); cbn [negb].
  2:{ split; [discriminate | intros [H _]; discriminate]. }
  destruct (nav_ok env (live_url r)); cbn [negb].
  2:{ split; [discriminate | intros [_ [H _]]; discriminate]. }
  destruct (domDiffFails localHtml_of liveHtml_of).
  - split; [intros _; repeat split | reflexivity].
  - split; [| intros [_ [_ H]]; discriminate].
    destruct (negb sizes_ok_of); [discriminate |].
    destruct (Num.gtb pct_of VISUAL_THRESHOLD); discriminate.
Qed.

(** C6.  In length-ratio mode the structural test passes exactly when
    the live markup is not empty and len(local)/len(live) is at or above
    the threshold 0.99 (on integers: 99 * len(live) <= 100 * len(local));
    so diff(X, X) passes for every non-empty X and diff(X, empty) fails
    for every X.  [diffRoute] fails the structural check of a Route
    exactly when both pages are reached and this test fails on the
    extracted markup, and a failed extraction on the live side is such a
    failure. *)
Theorem structural_diff_length_ratio (w : World) :
  (forall localHtml liveHtml,
     domDiffFails localHtml liveHtml = false
     <-> liveHtml <> ""
         /\ (DOM_THRESHOLD <=
             Num.ratio (String.length localHtml)
               (String.length liveHtml))%Q)
  /\ (forall localHtml liveHtml,
        domDiffFails localHtml liveHtml = false
        <-> liveHtml <> ""
            /\ 99 * String.length liveHtml <= 100 * String.length localHtml)
  /\ (forall X, X <> "" -> domDiffFails X X = false)
  /\ (forall X, domDiffFails X "" = true)
  /\ (fst (diffRoute env browser r w) = Throw (DomDiffOn r)
      <-> nav_ok env (local_url r) = true
          /\ nav_ok env (live_url r) = true
          /\ domDiffFails localHtml_of liveHtml_of = true)
  /\ (nav_ok env (local_url r) = true ->
      nav_ok env (live_url r) = true ->
      eval_inner env (live_url r) "main, #content" = None ->
      fst (diffRoute env browser r w) = Throw (DomDiffOn r)).
Proof.
  split; [| split; [| split; [| split; [| split]]]].
  - apply domDiffFails_false_iff.
  - intros localHtml liveHtml. rewrite domDiffFails_false_iff.
    split; intros [Hne H]; (split; [exact Hne |]).
    + apply Num.ratio_ge_99 in H; [exact H |].
      apply string_length_pos; exact Hne.
    + apply Num.ratio_ge_99; [apply string_length_pos; exact Hne | exact H].
  - apply domDiffFails_same.
  - apply domDiffFails_empty_live.
  - apply diffRoute_structural.
  - intros Hl Hv Hnone. apply diffRoute_structural.
    split; [exact Hl |]. split; [exact Hv |].
    unfold liveHtml_of. rewrite Hnone. apply domDiffFails_empty_live.
Qed.



Lemma lookup_written (path : string) (c : Content) (w : World) :
  lookup_file path (disk (snd (writeFile path c w))) = Some c.
Proof.
  unfold writeFile, lookup_file. cbn [snd disk find fst].
  rewrite String.eqb_refl. reflexivity.
Qed.



(** C3, where the code departs from it: [diffRoute] hands the two
    screenshots to [pixelmatch] as they are.  When their buffers differ in
    length the comparison throws, the Route gets no diff image and the
    round is aborted. *)
Theorem unpadded_comparison_throws (w : World) :
  nav_ok env (local_url r) = true ->
  nav_ok env (live_url r) = true ->
  domDiffFails localHtml_of liveHtml_of = false ->
  length (Image.data (screenshot env (local_url r)))
    <> length (Image.data (screenshot env (live_url r))) ->
  fst (diffRoute env browser r w) = Throw ImageSizesDoNotMatch
  /\ disk (snd (diffRoute env browser r w)) = disk w.
Proof.
  intros Hl Hv Hdom Hlen.
  rewrite diffRoute_eq. cbv zeta. rewrite Hl, Hv, Hdom. cbn [negb].
  assert (Hsz : sizes_ok_of = false).
  { unfold sizes_ok_of, Image.pixelmatch_sizes_ok. cbv zeta.
    apply Nat.eqb_neq in Hlen. rewrite Hlen. reflexivity. }
  rewrite Hsz. cbn [negb fst snd]. split; reflexivity.
Qed.

(** C9, where the code departs from it: when the structural check of a
    Route fails, [diffRoute] throws with both page contexts of the Route
    open; nothing closes them afterwards. *)
Theorem failing_check_leaves_pages_open (w : World) :
  nav_ok env (local_url r) = true ->
  nav_ok env (live_url r) = true ->
  domDiffFails localHtml_of liveHtml_of = true ->
  fst (diffRoute env browser r w) = Throw (DomDiffOn r)
  /\ pages (snd (diffRoute env browser r w))
     = (browser, S (next_id w)) :: (browser, next_id w) :: pages w.
Proof.
  intros Hl Hv Hdom.
  rewrite diffRoute_eq. cbv zeta. rewrite Hl, Hv, Hdom. cbn [negb].
  split; reflexivity.
Qed.

Lemma filter_fresh (n : nat) (l : list (nat * nat)) :
  (forall bp, In bp l -> snd bp <> n) ->
  filter (fun bp : nat * nat => negb (snd bp =? n)) l = l.
Proof.
  intros H. induction l as [| x l IH]; [reflexivity |].
  cbn [filter]. destruct (snd x =? n) eqn:E.
  - apply Nat.eqb_eq in E. exfalso. apply (H x); [left; reflexivity | exact E].
  - cbn [negb]. rewrite IH; [reflexivity |].
    intros bp Hin. apply H. right. exact Hin.
Qed.

(** The page contexts of a Route are closed when all its checks pass:
    the open pages are then those that were open before. *)
Lemma passing_check_closes_pages (w : World) :
  (forall bp, In bp (pages w) -> snd bp < next_id w) ->
  fst (diffRoute env browser r w) = Ret tt ->
  pages (snd (diffRoute env browser r w)) = pages w.
Proof.
  intros Hfresh. rewrite diffRoute_eq. cbv zeta.
  destruct (negb (nav_ok env (local_url r))); [discriminate |].
  destruct (negb (nav_ok env (live_url r))); [discriminate |].
  destruct (domDiffFails localHtml_of liveHtml_of); [discriminate |].
  destruct (negb sizes_ok_of); [discriminate |].
  destruct (Num.gtb pct_of VISUAL_THRESHOLD); [discriminate |].
  intros _. unfold closePage, writeFile, newPage. cbn [snd pages next_id fst].
  cbn [filter snd].
  replace (S (next_id w) =? next_id w) with false
    by (symmetry; apply Nat.eqb_neq; lia).
  rewrite Nat.eqb_refl. cbn [negb filter snd]. rewrite Nat.eqb_refl.
  cbn [negb].
  rewrite (filter_fresh (next_id w)), (filter_fresh (S (next_id w))).
  - reflexivity.
  - intros bp Hin. apply Hfresh in Hin. lia.
  - intros bp Hin. apply Hfresh in Hin. lia.
Qed.

End RouteComparison.

(** ** The comparison on concrete sites *)

Section RouteComparisonRuns.

Import SyncValidate.

(** The live page has lost its content region. *)
Definition gutted : Env :=
  Samples.with_eval_inner Samples.calm
    (fun url _ => if String.prefix BASE_URL url then None
                  else Some "<p>hello</p>").

(** The live page is one pixel taller than the local one. *)
Definition taller : Env :=
  Samples.with_screenshot Samples.calm
    (fun url => if String.prefix BASE_URL url then Samples.column
                else Samples.dot).

Lemma structural_diff_length_ratio_witness :
  (forall X, X <> "" -> domDiffFails X X = false)
  /\ (forall X, domDiffFails X "" = true)
  /\ fst (diffRoute gutted 0 "about-us" Samples.site)
     = Throw (DomDiffOn "about-us").
Proof.
  pose proof (structural_diff_length_ratio gutted 0 "about-us" Samples.site)
    as [_ [_ [Hsame [Hempty [_ Hlive]]]]].
  split; [exact Hsame |]. split; [exact Hempty |].
  apply Hlive; reflexivity.
Defined.


Lemma unpadded_comparison_throws_witness :
  fst (diffRoute taller 0 "about-us" Samples.site)
  = Throw ImageSizesDoNotMatch
  /\ disk (snd (diffRoute taller 0 "about-us" Samples.site))
     = disk Samples.site.
Proof.
  apply (unpadded_comparison_throws taller 0 "about-us" Samples.site);
    [reflexivity | reflexivity | reflexivity | ].
  cbv. intros H. discriminate H.
Defined.

Lemma failing_check_leaves_pages_open_witness :
  fst (diffRoute gutted 0 "about-us" Samples.site)
  = Throw (DomDiffOn "about-us")
  /\ pages (snd (diffRoute gutted 0 "about-us" Samples.site))
     = (0, S (next_id Samples.site)) :: (0, next_id Samples.site)
       :: pages Samples.site.
Proof.
  apply (failing_check_leaves_pages_open gutted 0 "about-us" Samples.site);
    reflexivity.
Defined.

End RouteComparisonRuns.

(* ===================================================================== *)
(** * Properties of route discovery *)
(* ===================================================================== *)

Section RouteDiscovery.

Import SyncValidate.

Lemma set_has_In (x : string) (s : list string) :
  set_has x s = true <-> In x s.
Proof.
  unfold set_has. rewrite existsb_exists. split.
  - intros [y [Hin Heq]]. apply String.eqb_eq in Heq. subst. exact Hin.
  - intros Hin. exists x. split; [exact Hin | apply String.eqb_refl].
Qed.

Lemma set_add_In (s : list string) (x y : string) :
  In y (set_add s x) <-> In y s \/ y = x.
Proof.
  unfold set_add. destruct (set_has x s) eqn:E.
  - apply set_has_In in E. split; [tauto |].
    intros [H | H]; [exact H | subst; exact E].
  - rewrite in_app_iff. cbn [In]. split; intros H; intuition congruence.
Qed.

Lemma set_add_NoDup (s : list string) (x : string) :
  NoDup s -> NoDup (set_add s x).
Proof.
  intros Hs. unfold set_add. destruct (set_has x s) eqn:E; [exact Hs |].
  assert (Hx : ~ In x s).
  { intros Hin. apply set_has_In in Hin. congruence. }
  clear E. induction Hs as [| a l Ha Hl IH]; cbn [app].
  - constructor; [intros [] | constructor].
  - constructor.
    + rewrite in_app_iff. cbn [In]. intros [H | [H | []]].
      * exact (Ha H).
      * apply Hx. left. symmetry. exact H.
    + apply IH. intros Hin. apply Hx. right. exact Hin.
Qed.

(** A set built by repeated insertion has no duplicates and holds what
    was inserted. *)
Lemma fold_set_add (l acc : list string) :
  NoDup acc ->
  NoDup (fold_left set_add l acc)
  /\ (forall y, In y (fold_left set_add l acc) <-> In y acc \/ In y l).
Proof.
  revert acc. induction l as [| x l IH]; intros acc Hacc; cbn [fold_left].
  - split; [exact Hacc |]. intros y. cbn [In]. tauto.
  - destruct (IH (set_add acc x) (set_add_NoDup acc x Hacc)) as [Hn Hin].
    split; [exact Hn |]. intros y. rewrite Hin, set_add_In. cbn [In].
    split; intros H; repeat destruct H as [H | H]; auto.
Qed.

Lemma set_of_spec (l : list string) :
  NoDup (set_of l) /\ (forall y, In y (set_of l) <-> In y l).
Proof.
  unfold set_of. destruct (fold_set_add l [] (NoDup_nil _)) as [Hn Hin].
  split; [exact Hn |]. intros y. rewrite Hin. cbn [In]. tauto.
Qed.

(** The fallback crawl: no duplicates, the root Route, and the
    normalised targets of the anchors that start with a slash. *)
Lemma fold_crawl_step (hrefs acc : list string) :
  NoDup acc ->
  NoDup (fold_left crawl_step hrefs acc)
  /\ (forall y, In y (fold_left crawl_step hrefs acc) <->
                In y acc
                \/ exists href, In href hrefs
                                /\ JS.startsWith href "/" = true
                                /\ y = normalize_href href).
Proof.
  revert acc. induction hrefs as [| h hrefs IH]; intros acc Hacc;
    cbn [fold_left].
  - split; [exact Hacc |]. intros y. split; [auto |].
    intros [H | [href [[] _]]]. exact H.
  - assert (Hstep : NoDup (crawl_step acc h)).
    { unfold crawl_step.
      destruct (_ && _); [apply set_add_NoDup |]; exact Hacc. }
    destruct (IH (crawl_step acc h) Hstep) as [Hn Hin].
    split; [exact Hn |]. intros y. rewrite Hin. clear Hin Hn IH.
    assert (Hcond : negb (String.eqb h "") && JS.startsWith h "/"
                    = JS.startsWith h "/").
    { destruct h as [| c h']; reflexivity. }
    unfold crawl_step. rewrite Hcond.
    destruct (JS.startsWith h "/") eqn:E.
    + rewrite set_add_In. split.
      * intros [[H | H] | [href [Hh [Hs Hy]]]].
        -- left. exact H.
        -- right. exists h. split; [left; reflexivity | split; assumption].
        -- right. exists href. split; [right; exact Hh | split; assumption].
      * intros [H | [href [[Hh | Hh] [Hs Hy]]]].
        -- left. left. exact H.
        -- subst href. left. right. exact Hy.
        -- right. exists href. split; [exact Hh | split; assumption].
    + split.
      * intros [H | [href [Hh [Hs Hy]]]]; [left; exact H |].
        right. exists href. split; [right; exact Hh | split; assumption].
      * intros [H | [href [[Hh | Hh] [Hs Hy]]]]; [left; exact H | |].
        -- subst href. congruence.
        -- right. exists href. split; [exact Hh | split; assumption].
Qed.

Lemma crawl_spec (hrefs : list string) :
  NoDup (crawl hrefs)
  /\ In "" (crawl hrefs)
  /\ (forall y, In y (crawl hrefs) <->
                y = ""
                \/ exists href, In href hrefs
                                /\ JS.startsWith href "/" = true
                                /\ y = normalize_href href).
Proof.
  unfold crawl.
  assert (H0 : NoDup [""]) by (constructor; [intros [] | constructor]).
  destruct (fold_crawl_step hrefs [""] H0) as [Hn Hin].
  split; [exact Hn |]. split.
  - apply Hin. left. left. reflexivity.
  - intros y. rewrite Hin. cbn [In]. split.
    + intros [[H | []] | H]; [left; symmetry; exact H | right; exact H].
    + intros [H | H]; [left; left; symmetry; exact H | right; exact H].
Qed.

Lemma strip_trailing_slash_app (p : string) :
  JS.strip_trailing_slash (p ++ "/") = p.
Proof.
  induction p as [| c p IH]; [reflexivity |].
  cbn [append JS.strip_trailing_slash]. rewrite IH.
  destruct (p ++ "/")%string eqn:E; [| reflexivity].
  destruct p; discriminate.
Qed.

Lemma normalize_loc_canonical (p : string) :
  normalize_loc (BASE_URL ++ "/" ++ p ++ "/") = p.
Proof.
  unfold normalize_loc, BASE_URL. cbn [append].
  cbn [JS.remove_first String.prefix Ascii.eqb Bool.eqb String.length JS.drop].
  cbn [JS.strip_leading_slash]. apply strip_trailing_slash_app.
Qed.

Lemma normalize_href_canonical (p : string) :
  normalize_href ("/" ++ p ++ "/") = p.
Proof.
  unfold normalize_href. cbn [append JS.strip_leading_slash].
  apply strip_trailing_slash_app.
Qed.

Lemma normalize_loc_doubled (p : string) :
  normalize_loc (BASE_URL ++ "//" ++ p ++ "//") = ("/" ++ p ++ "/")%string.
Proof.
  unfold normalize_loc, BASE_URL. cbn [append].
  cbn [JS.remove_first String.prefix Ascii.eqb Bool.eqb String.length JS.drop].
  cbn [JS.strip_leading_slash].
  assert (E : (p ++ "//" = (p ++ "/") ++ "/")%string).
  { induction p as [| c p IH]; [reflexivity |].
    cbn [append]. rewrite IH. reflexivity. }
  rewrite E.
  change (String "/" ((p ++ "/") ++ "/"))%string
    with (("/" ++ p ++ "/") ++ "/")%string.
  apply strip_trailing_slash_app.
Qed.

Lemma normalize_href_doubled (p : string) :
  normalize_href ("//" ++ p ++ "/") = ("/" ++ p)%string.
Proof.
  unfold normalize_href. cbn [append JS.strip_leading_slash].
  change (String "/" (p ++ "/"))%string with (("/" ++ p) ++ "/")%string.
  apply strip_trailing_slash_app.
Qed.

Lemma discoverRoutes_eq (env : Env) (w : World) :
  discoverRoutes env w =
  match fetch env (BASE_URL ++ "/sitemap.xml") with
  | Some xml => (Ret (set_of (map normalize_loc (xml_locs env xml))), w)
  | None =>
      match fetch env BASE_URL with
      | Some html => (Ret (crawl (anchor_hrefs env html)), w)
      | None => (Throw (FetchFailed BASE_URL), w)
      end
  end.
Proof.
  unfold discoverRoutes, try_catch, bind, fetchText, orThrow.
  destruct (fetch env (BASE_URL ++ "/sitemap.xml")) as [xml |].
  - reflexivity.
  - unfold throw at 1. destruct (fetch env BASE_URL); reflexivity.
Qed.

(** C8, as amended.  Whatever route discovery returns has no
    duplicates.  When the site index can be fetched, the result is the
    locations that the parser finds in it, each without the first
    occurrence of the base address, one leading slash and one trailing
    slash, in the order of their first occurrence; an index in which
    the parser finds no location, as in a text that is no XML, gives no
    Route, and nothing is crawled.  Only when the index cannot be
    fetched does discovery crawl the root document: the result is the
    root Route and the targets of the anchors that start with a slash,
    each without one leading and one trailing slash, and a root document
    that cannot be fetched either makes discovery fail.  A location or
    target with doubled slashes keeps the others, and a target that
    starts with two slashes, which names another host, is taken like
    any other. *)
Theorem route_discovery (env : Env) (w : World) :
  match fetch env (BASE_URL ++ "/sitemap.xml") with
  | Some xml =>
      discoverRoutes env w
      = (Ret (set_of (map normalize_loc (xml_locs env xml))), w)
      /\ (xml_locs env xml = [] -> discoverRoutes env w = (Ret [], w))
  | None =>
      match fetch env BASE_URL with
      | Some html =>
          discoverRoutes env w = (Ret (crawl (anchor_hrefs env html)), w)
          /\ In "" (crawl (anchor_hrefs env html))
      | None => discoverRoutes env w = (Throw (FetchFailed BASE_URL), w)
      end
  end
  /\ (forall routes w',
        discoverRoutes env w = (Ret routes, w') -> NoDup routes)
  /\ (forall locs r,
        In r (set_of (map normalize_loc locs))
        <-> exists loc, In loc locs /\ r = normalize_loc loc)
  /\ (forall hrefs r,
        In r (crawl hrefs)
        <-> r = ""
            \/ exists href, In href hrefs
                            /\ JS.startsWith href "/" = true
                            /\ r = normalize_href href)
  /\ (forall p,
        normalize_loc (BASE_URL ++ "/" ++ p ++ "/") = p
        /\ normalize_href ("/" ++ p ++ "/") = p)
  /\ (forall p,
        normalize_loc (BASE_URL ++ "//" ++ p ++ "//")
        = ("/" ++ p ++ "/")%string
        /\ normalize_href ("//" ++ p ++ "/") = ("/" ++ p)%string
        /\ In ("/" ++ p)%string (crawl [("//" ++ p ++ "/")%string])).
Proof.
  split; [| split; [| split; [| split; [| split]]]].
  - rewrite discoverRoutes_eq.
    destruct (fetch env (BASE_URL ++ "/sitemap.xml")) as [xml |].
    + split; [reflexivity |]. intros ->. reflexivity.
    + destruct (fetch env BASE_URL) as [html |]; [| reflexivity].
      split; [reflexivity | exact (proj1 (proj2 (crawl_spec _)))].
  - intros routes w'. rewrite discoverRoutes_eq.
    destruct (fetch env (BASE_URL ++ "/sitemap.xml")) as [xml |].
    + intros H. inversion H; subst. exact (proj1 (set_of_spec _)).
    + destruct (fetch env BASE_URL) as [html |]; [| discriminate].
      intros H. inversion H; subst. exact (proj1 (crawl_spec _)).
  - intros locs r0. rewrite (proj2 (set_of_spec _)), in_map_iff.
    split; intros [loc [H1 H2]]; exists loc; split; auto.
  - intros hrefs r0. exact (proj2 (proj2 (crawl_spec hrefs)) r0).
  - intros p. split;
      [apply normalize_loc_canonical | apply normalize_href_canonical].
  - intros p. split; [apply normalize_loc_doubled |].
    split; [apply normalize_href_doubled |].
    apply (proj2 (proj2 (crawl_spec _))). right.
    exists ("//" ++ p ++ "/")%string.
    split; [left; reflexivity |]. split; [reflexivity |].
    symmetry. apply normalize_href_doubled.
Qed.

(** ** The site index that cannot be read *)

(** The reading of C8 on an index that is fetched and in which no
    location is found, as in one that cannot be parsed: discovery falls
    back on the crawl, so that it returns the root Route. *)
Definition unreadable_index_falls_back : Prop :=
  forall (env : Env) (w : World) (xml : string),
    fetch env (BASE_URL ++ "/sitemap.xml") = Some xml ->
    xml_locs env xml = [] ->
    exists routes w',
      discoverRoutes env w = (Ret routes, w') /\ In "" routes.

(** The site index is served, and is no XML; the root document has its
    anchors. *)
Definition garbled : Env :=
  Samples.with_xml_locs
    (Samples.with_fetch Samples.calm
       (fun url => if String.eqb url (BASE_URL ++ "/sitemap.xml")
                   then Some "<<< not a site index"
                   else Some "<html></html>"))
    (fun _ => []).

(** C8 fails on an index that cannot be read: discovery returns no Route
    at all, the root Route included, and the root document is never
    crawled.  Nor is every Route normalised or of this site: doubled
    slashes stay, and a link to another host is crawled. *)
Lemma unreadable_index_gives_no_route :
  ~ unreadable_index_falls_back
  /\ discoverRoutes garbled Samples.site = (Ret [], Samples.site)
  /\ crawl (anchor_hrefs garbled "<html></html>") = [""; "events"]
  /\ normalize_loc "https://genaiglobal.org//docs//" = "/docs/"
  /\ crawl ["//cdn.example.org/lib.js"] = [""; "/cdn.example.org/lib.js"].
Proof.
  split; [| repeat split; vm_compute; reflexivity].
  intros H.
  destruct (H garbled Samples.site "<<< not a site index" eq_refl eq_refl)
    as [routes [w' [Hr Hin]]].
  assert (Hd : discoverRoutes garbled Samples.site = (Ret [], Samples.site))
    by (vm_compute; reflexivity).
  rewrite Hd in Hr. inversion Hr; subst. destruct Hin.
Qed.

End RouteDiscovery.

(* ===================================================================== *)
(** * Route-level errors in the two orchestrators *)
(* ===================================================================== *)

Section RouteErrors.

(** ** The collecting loops of the fix-and-validate script *)

(** The entries a stage records over a list of pages, in order. *)
Definition entries (f : string -> option Diag) (l : list string) : list Diag :=
  flat_map (fun p => match f p with Some d => [d] | None => [] end) l.

Definition record (push : Results -> Diag -> Results) (res : Results)
    (o : option Diag) : Results :=
  match o with
  | Some d => push res d
  | None => res
  end.

(** What the loops of [runAxe] and [runDomDiff] record for a page: the
    message of the error that the reference to [browser] throws. *)
Definition axe_entry (page : string) : Diag :=
  DStderr (Some page) (message (ReferenceError "browser")).

Definition dom_entry (page : string) : Diag :=
  DDomDiff page (Some (message (ReferenceError "browser"))).

Lemma axePage_records (env : Env) (res : Results) (page : string)
    (w : World) :
  FixValidate.axePage env res page w
  = (Ret (FixValidate.push_accessibility res (axe_entry page)), w).
Proof. reflexivity. Qed.

Lemma domDiffPage_records (env : Env) (res : Results) (page : string)
    (w : World) :
  FixValidate.domDiffPage env res page w
  = (Ret (FixValidate.push_dom res (dom_entry page)), w).
Proof. reflexivity. Qed.

Lemma entries_total (g : string -> Diag) (l : list string) :
  entries (fun p => Some (g p)) l = map g l.
Proof.
  induction l as [| p l IH]; [reflexivity |].
  cbn [entries flat_map map app]. fold (entries (fun p => Some (g p)) l).
  rewrite IH. reflexivity.
Qed.

(** A loop whose body returns and leaves the world as it is. *)
Lemma forEachR_fold (body : Results -> string -> M Results)
    (step : Results -> string -> Results) (l : list string) :
  (forall res x w, body res x w = (Ret (step res x), w)) ->
  forall res w,
    FixValidate.forEachR l body res w = (Ret (fold_left step l res), w).
Proof.
  intros Hbody. induction l as [| x l IH]; intros res w; [reflexivity |].
  cbn [FixValidate.forEachR fold_left]. unfold bind. rewrite Hbody.
  apply IH.
Qed.

(** A loop whose body never throws visits every page and folds the
    recorded entries into the results. *)
Lemma forEachR_records (body : Results -> string -> M Results)
    (step : Results -> string -> Results) (l : list string) :
  (forall res page w, fst (body res page w) = Ret (step res page)) ->
  forall res w, fst (FixValidate.forEachR l body res w)
                = Ret (fold_left step l res).
Proof.
  intros Hbody. induction l as [| p l IH]; intros res w; [reflexivity |].
  cbn [FixValidate.forEachR fold_left]. unfold bind.
  specialize (Hbody res p w).
  destruct (body res p w) as [[a | e] w1]; cbn [fst] in Hbody.
  - inversion Hbody; subst. apply IH.
  - discriminate.
Qed.

Lemma fold_record_dom (f : string -> option Diag) (l : list string)
    (res : Results) :
  fold_left (fun r p => record FixValidate.push_dom r (f p)) l res
  = mkResults (r_html res) (r_css res) (r_js res) (r_accessibility res)
      (r_links res) (r_spell res) (r_dom res ++ entries f l) (r_visual res)
      (r_lighthouse res).
Proof.
  revert res. induction l as [| p l IH]; intros res.
  - cbn [fold_left entries flat_map]. rewrite app_nil_r. destruct res.
    reflexivity.
  - cbn [fold_left entries flat_map]. rewrite IH. fold (entries f l).
    destruct (f p) as [d |]; cbn [record FixValidate.push_dom r_html r_css
      r_js r_accessibility r_links r_spell r_dom r_visual r_lighthouse app].
    + rewrite <- app_assoc. reflexivity.
    + reflexivity.
Qed.

Lemma fold_record_accessibility (f : string -> option Diag)
    (l : list string) (res : Results) :
  fold_left (fun r p => record FixValidate.push_accessibility r (f p)) l res
  = mkResults (r_html res) (r_css res) (r_js res)
      (r_accessibility res ++ entries f l)
      (r_links res) (r_spell res) (r_dom res) (r_visual res)
      (r_lighthouse res).
Proof.
  revert res. induction l as [| p l IH]; intros res.
  - cbn [fold_left entries flat_map]. rewrite app_nil_r. destruct res.
    reflexivity.
  - cbn [fold_left entries flat_map]. rewrite IH. fold (entries f l).
    destruct (f p) as [d |]; cbn [record FixValidate.push_accessibility
      r_html r_css r_js r_accessibility r_links r_spell r_dom r_visual
      r_lighthouse app].
    + rewrite <- app_assoc. reflexivity.
    + reflexivity.
Qed.

(** The loops record the error of every page and go on to the next. *)
Lemma axeLoop_records (env : Env) (pageList : list string) (res : Results)
    (w : World) :
  FixValidate.forEachR pageList (FixValidate.axePage env) res w
  = (Ret (mkResults (r_html res) (r_css res) (r_js res)
            (r_accessibility res ++ map axe_entry pageList)
            (r_links res) (r_spell res) (r_dom res)
            (r_visual res) (r_lighthouse res)), w).
Proof.
  rewrite (forEachR_fold _
             (fun r p => record FixValidate.push_accessibility r
                           (Some (axe_entry p)))).
  - rewrite fold_record_accessibility, entries_total. reflexivity.
  - intros r x w1. apply axePage_records.
Qed.

Lemma domDiffLoop_records (env : Env) (pageList : list string)
    (res : Results) (w : World) :
  FixValidate.forEachR pageList (FixValidate.domDiffPage env) res w
  = (Ret (mkResults (r_html res) (r_css res) (r_js res)
            (r_accessibility res) (r_links res) (r_spell res)
            (r_dom res ++ map dom_entry pageList)
            (r_visual res) (r_lighthouse res)), w).
Proof.
  rewrite (forEachR_fold _
             (fun r p => record FixValidate.push_dom r (Some (dom_entry p)))).
  - rewrite fold_record_dom, entries_total. reflexivity.
  - intros r x w1. apply domDiffPage_records.
Qed.

(** ** The throwing round of the sync-and-validate script *)

(** A computation that throws from every world, and one that returns
    from every world. *)
Definition always_throws {A} (c : M A) : Prop :=
  forall w, exists e w', c w = (Throw e, w').

Definition always_returns {A} (c : M A) : Prop :=
  forall w, exists a w', c w = (Ret a, w').

Lemma bind_throws_l {A B} (c : M A) (k : A -> M B) :
  always_throws c -> always_throws (bind c k).
Proof.
  intros Hc w. destruct (Hc w) as [e [w' H]]. unfold bind. rewrite H.
  exists e, w'. reflexivity.
Qed.

Lemma bind_throws_r {A B} (c : M A) (k : A -> M B) :
  (forall a, always_throws (k a)) -> always_throws (bind c k).
Proof.
  intros Hk w. unfold bind. destruct (c w) as [[a | e] w1].
  - apply Hk.
  - exists e, w1. reflexivity.
Qed.



Lemma throw_throws {A} (e : Error) : always_throws (@throw A e).
Proof. intros w. exists e, w. reflexivity. Qed.

Lemma forEach_throws {A} (l : list A) (body : A -> M unit) (x : A) :
  In x l -> always_throws (body x) -> always_throws (forEach l body).
Proof.
  intros Hin Hx. induction l as [| y l IH]; [destruct Hin |].
  cbn [forEach]. destruct Hin as [Heq | Hin].
  - subst y. apply bind_throws_l. exact Hx.
  - apply bind_throws_r. intros _. apply IH. exact Hin.
Qed.


Import SyncValidate.

(** The failures of a single Route in [validate]: the axe audit, the
    structural and visual comparison, and the Lighthouse audit. *)
Definition axe_fails (env : Env) (r : string) : bool :=
  negb (nav_ok env (local_url r))
  || negb (axe_violations env (local_url r) =? 0).

Definition diff_fails (env : Env) (r : string) : bool :=
  negb (nav_ok env (local_url r)) || negb (nav_ok env (live_url r))
  || domDiffFails (localHtml_of env r) (liveHtml_of env r)
  || negb (sizes_ok_of env r)
  || Num.gtb (pct_of env r) VISUAL_THRESHOLD.

Definition lighthouse_fails (env : Env) (r : string) : bool :=
  match lighthouse env (local_url r) with
  | None => true
  | Some lhr => Qeq_bool (fst lhr) 0 || Num.ltb (Num.Fin (snd lhr)) (1 # 2)
  end.

Definition route_fails (env : Env) (r : string) : bool :=
  axe_fails env r || diff_fails env r || lighthouse_fails env r.

Lemma axeRoute_outcome (env : Env) (browser : nat) (r : string) :
  if axe_fails env r then always_throws (axeRoute env browser r)
  else always_returns (axeRoute env browser r).
Proof.
  unfold axe_fails, axeRoute, bind, goto.
  destruct (nav_ok env (local_url r)); cbn [negb orb].
  - destruct (negb (axe_violations env (local_url r) =? 0)); intros w.
    + eexists. eexists. reflexivity.
    + eexists. eexists. reflexivity.
  - intros w. eexists. eexists. reflexivity.
Qed.

Lemma diffRoute_outcome (env : Env) (browser : nat) (r : string) :
  if diff_fails env r then always_throws (diffRoute env browser r)
  else always_returns (diffRoute env browser r).
Proof.
  unfold diff_fails.
  destruct (negb (nav_ok env (local_url r))) eqn:E1; cbn [orb].
  { intros w. rewrite diffRoute_eq. cbv zeta. rewrite E1.
    eexists. eexists. reflexivity. }
  destruct (negb (nav_ok env (live_url r))) eqn:E2; cbn [orb].
  { intros w. rewrite diffRoute_eq. cbv zeta. rewrite E1, E2.
    eexists. eexists. reflexivity. }
  destruct (domDiffFails (localHtml_of env r) (liveHtml_of env r)) eqn:E3;
    cbn [orb].
  { intros w. rewrite diffRoute_eq. cbv zeta. rewrite E1, E2, E3.
    eexists. eexists. reflexivity. }
  destruct (negb (sizes_ok_of env r)) eqn:E4; cbn [orb].
  { intros w. rewrite diffRoute_eq. cbv zeta. rewrite E1, E2, E3, E4.
    eexists. eexists. reflexivity. }
  destruct (Num.gtb (pct_of env r) VISUAL_THRESHOLD) eqn:E5.
  - intros w. rewrite diffRoute_eq. cbv zeta. rewrite E1, E2, E3, E4, E5.
    eexists. eexists. reflexivity.
  - intros w. rewrite diffRoute_eq. cbv zeta. rewrite E1, E2, E3, E4, E5.
    eexists. eexists. reflexivity.
Qed.

Lemma lighthouseRoute_outcome (env : Env) (r : string) :
  if lighthouse_fails env r then always_throws (lighthouseRoute env r)
  else always_returns (lighthouseRoute env r).
Proof.
  unfold lighthouse_fails, lighthouseRoute, bind, orThrow.
  destruct (lighthouse env (local_url r)) as [lhr |].
  - destruct (Qeq_bool (fst lhr) 0 || Num.ltb (Num.Fin (snd lhr)) (1 # 2))
      eqn:E;
      intros w; unfold ret at 1; cbv beta iota; rewrite E;
      eexists; eexists; reflexivity.
  - intros w. eexists. eexists. reflexivity.
Qed.

(** A Route that fails one of its checks makes the whole round throw. *)
Lemma validate_aborts (env : Env) (routes : list string) (r : string) :
  In r routes -> route_fails env r = true ->
  always_throws (validate env routes).
Proof.
  intros Hin Hfail. unfold validate.
  apply bind_throws_r; intros htmlFiles.
  apply bind_throws_r; intros _.
  apply bind_throws_r; intros _.
  apply bind_throws_r; intros _.
  apply bind_throws_r; intros _.
  apply bind_throws_r; intros server.
  apply bind_throws_r; intros _.
  apply bind_throws_r; intros browser.
  unfold route_fails in Hfail.
  destruct (axe_fails env r) eqn:Ea.
  { apply bind_throws_l. apply (forEach_throws routes _ r Hin).
    pose proof (axeRoute_outcome env browser r) as H. rewrite Ea in H.
    exact H. }
  apply bind_throws_r; intros _.
  apply bind_throws_r; intros _.
  destruct (diff_fails env r) eqn:Ed.
  { apply bind_throws_l. apply (forEach_throws routes _ r Hin).
    pose proof (diffRoute_outcome env browser r) as H. rewrite Ed in H.
    exact H. }
  apply bind_throws_r; intros _.
  cbn [orb] in Hfail.
  apply bind_throws_l. apply (forEach_throws routes _ r Hin).
  pose proof (lighthouseRoute_outcome env r) as H. rewrite Hfail in H.
  exact H.
Qed.


(** ** On concrete sites *)

(** The accessibility audit finds a violation on Route [a], and nowhere
    else. *)
Definition flawed : Env :=
  Samples.with_axe_violations Samples.calm
    (fun url => if String.eqb url (local_url "a") then 1 else 0).

(** The reading of C1 on [validate]: a round whose resources are sound
    (the engine starts, the external checkers succeed, the artifact tree
    exists) runs to its end, whatever happens on single Routes. *)
Definition route_errors_never_abort_round : Prop :=
  forall (env : Env) (routes : list string) (w : World),
    launch_ok env = true ->
    (forall cmd, exec_ok env cmd = true) ->
    files_below (DIST_DIR env) (disk w) <> [] ->
    exists w', validate env routes w = (Ret tt, w').

(** C1, where the code departs from it: in [validate] a Route that
    fails one of its checks (a navigation error, audit violations, a
    structural or visual mismatch, a failed performance audit) makes the
    whole round throw.  With an accessibility violation on the first of
    two Routes the round ends at once with that error; nothing is
    recorded and the second Route is never compared.  The loops of the
    other script show what is meant: there the error of a page is
    caught and recorded for that page, and the loop goes on over the
    remaining pages. *)
Theorem route_error_aborts_round :
  ~ route_errors_never_abort_round
  /\ fst (validate flawed ["a"; "b"] Samples.site) = Throw (AxeViolations "a")
  /\ lookup_file (diffPath flawed "b")
       (disk (snd (validate flawed ["a"; "b"] Samples.site))) = None
  /\ (forall env routes r,
        In r routes -> route_fails env r = true ->
        always_throws (validate env routes))
  /\ (forall env pageList res w,
        FixValidate.forEachR pageList (FixValidate.domDiffPage env) res w
        = (Ret (mkResults (r_html res) (r_css res) (r_js res)
                  (r_accessibility res) (r_links res) (r_spell res)
                  (r_dom res ++ map dom_entry pageList)
                  (r_visual res) (r_lighthouse res)), w)).
Proof.
  split; [| split; [| split; [| split]]].
  - intros H.
    destruct (H flawed ["a"; "b"] Samples.site) as [w' Hw'].
    + reflexivity.
    + intros cmd. reflexivity.
    + discriminate.
    + assert (Hf : fst (validate flawed ["a"; "b"] Samples.site)
                   = Throw (AxeViolations "a")) by (vm_compute; reflexivity).
      rewrite Hw' in Hf. discriminate Hf.
  - vm_compute. reflexivity.
  - vm_compute. reflexivity.
  - exact validate_aborts.
  - exact domDiffLoop_records.
Qed.

End RouteErrors.

(* ===================================================================== *)
(** * The unbounded retry loop *)
(* ===================================================================== *)

Section UnboundedRetry.

Import SyncValidate.

(** The snapshot of a Route. *)
Definition snapshot_path (env : Env) (route : string) : string :=
  JS.path_join (JS.path_join (DIST_DIR env) route) "index.html".

Lemma find_filter_other (p q : string) (d : list (string * Content)) :
  String.eqb q p = false ->
  find (fun kv => String.eqb (fst kv) p)
    (filter (fun kv => negb (String.eqb (fst kv) q)) d)
  = find (fun kv => String.eqb (fst kv) p) d.
Proof.
  intros Hqp. induction d as [| kv d IH]; [reflexivity |].
  cbn [filter find]. destruct (String.eqb (fst kv) q) eqn:E1; cbn [negb].
  - apply String.eqb_eq in E1. rewrite E1, Hqp. exact IH.
  - cbn [find]. destruct (String.eqb (fst kv) p); [reflexivity | exact IH].
Qed.

Lemma lookup_writeFile (p q : string) (c : Content) (w : World) :
  lookup_file p (disk (snd (writeFile q c w)))
  = if String.eqb q p then Some c else lookup_file p (disk w).
Proof.
  unfold writeFile, lookup_file. cbn [snd disk find fst].
  destruct (String.eqb q p) eqn:E; [reflexivity |].
  rewrite find_filter_other; [reflexivity | exact E].
Qed.

(** A file that holds text. *)
Definition has_text (path : string) (w : World) : Prop :=
  exists doc, lookup_file path (disk w) = Some (Text doc).

Lemma syncRoute_writes (env : Env) (route : string) (w w' : World)
    (q : Num.num) :
  syncRoute env route w = (Ret q, w') ->
  has_text (snapshot_path env route) w'
  /\ (forall p, has_text p w -> has_text p w').
Proof.
  rewrite syncRoute_eq.
  destruct (fetch env (sync_url route)) as [html |]; [| discriminate].
  destruct (main_region env html) as [mainHtml |]; [| discriminate].
  destruct (lookup_file (resolve env "head-section.html") (disk w))
    as [[headInc | | | ] | ]; try discriminate.
  destruct (lookup_file (resolve env "top-panel.html") (disk w))
    as [[topInc | | | ] | ]; try discriminate.
  intros H.
  match type of H with
  | (_, ?X) = _ => assert (Hw' : X = w') by congruence
  end.
  rewrite <- Hw'. clear H Hw'. split.
  - unfold has_text, snapshot_path. rewrite lookup_writeFile.
    rewrite String.eqb_refl. eexists. reflexivity.
  - intros p [doc Hp]. unfold has_text. rewrite lookup_writeFile.
    destruct (String.eqb _ p); eexists; [reflexivity | exact Hp].
Qed.

(** After a pass of [syncAll] every Route has its snapshot. *)
Lemma syncAll_writes (env : Env) (routes : list string) (w w' : World) :
  syncAll env routes w = (Ret tt, w') ->
  forall r, In r routes -> has_text (snapshot_path env r) w'.
Proof.
  unfold syncAll. revert w.
  induction routes as [| x routes IH]; intros w H r Hin.
  - destruct Hin.
  - cbn [forEach] in H. unfold bind at 1 2 in H.
    destruct (syncRoute env x w) as [[q | e] w1] eqn:Hx; [| discriminate].
    unfold ret at 1 in H.
    destruct (syncRoute_writes env x w w1 q Hx) as [Hown Hkeep].
    assert (Hpres : forall p, has_text p w1 -> has_text p w').
    { clear - H.
      revert w1 H. induction routes as [| y routes IH]; intros w1 H p Hp.
      - cbn [forEach] in H. inversion H; subst. exact Hp.
      - cbn [forEach] in H. unfold bind at 1 2 in H.
        destruct (syncRoute env y w1) as [[q | e] w2] eqn:Hy; [| discriminate].
        unfold ret at 1 in H.
        apply (IH w2 H). apply (syncRoute_writes env y w1 w2 q Hy). exact Hp. }
    destruct Hin as [Heq | Hin].
    + subst x. apply Hpres. exact Hown.
    + apply (IH w1 H r Hin).
Qed.

(** The exit code of the script: 0 exactly when the loop ended with a
    round that passed. *)
Lemma main_exit_code (fuel : nat) (envs : nat -> Env) (w : World)
    (routes : list string) (w1 : World) :
  prepare (envs 0) w = (Ret routes, w1) ->
  match retry_loop fuel
          (fun k => validate (envs k) routes)
          (fun k => syncAll (envs (S k)) routes) 0 w1 with
  | None => main fuel envs w = None
  | Some (Ret _, n, w2) =>
      exists w', main fuel envs w = Some (0, n, w')
  | Some (Throw _, n, w2) =>
      exists w', main fuel envs w = Some (1, n, w')
  end.
Proof.
  intros Hp. unfold main. rewrite Hp.
  destruct (retry_loop _ _ _ _ _) as [[[[[] | e] n] w2] |].
  - eexists. reflexivity.
  - eexists. reflexivity.
  - reflexivity.
Qed.

Variables validate_k resync_k : nat -> M unit.

Lemma retry_loop_step (fuel k : nat) (w w1 w2 : World) (e : Error) :
  validate_k k w = (Throw e, w1) ->
  resync_k k (snd (log (message e) w1)) = (Ret tt, w2) ->
  retry_loop (S fuel) validate_k resync_k k w
  = retry_loop fuel validate_k resync_k (S k) w2.
Proof.
  intros Hv Hr. cbn [retry_loop]. rewrite Hv. unfold bind, log at 1.
  cbn [snd] in Hr. unfold log in Hr. cbn [snd] in Hr. rewrite Hr.
  reflexivity.
Qed.

Lemma retry_loop_resync_error (fuel k : nat) (w w1 w2 : World) (e e' : Error) :
  validate_k k w = (Throw e, w1) ->
  resync_k k (snd (log (message e) w1)) = (Throw e', w2) ->
  retry_loop (S fuel) validate_k resync_k k w = Some (Throw e', S k, w2).
Proof.
  intros Hv Hr. cbn [retry_loop]. rewrite Hv. unfold bind, log at 1.
  cbn [snd] in Hr. unfold log in Hr. cbn [snd] in Hr. rewrite Hr.
  reflexivity.
Qed.

Lemma retry_loop_pass (fuel k : nat) (w w1 : World) :
  validate_k k w = (Ret tt, w1) ->
  retry_loop (S fuel) validate_k resync_k k w = Some (Ret tt, S k, w1).
Proof. intros Hv. cbn [retry_loop]. rewrite Hv. reflexivity. Qed.

(** An invariant of the worlds the loop goes through (that the shared
    fragments stay readable, say), which logging does not disturb, which
    every round keeps, and under which every re-synchronisation
    succeeds. *)
Variable Inv : World -> Prop.

Definition round_fails (j : nat) : Prop :=
  forall w, Inv w -> exists e w', validate_k j w = (Throw e, w').

Definition round_passes (j : nat) : Prop :=
  forall w, Inv w -> exists w', validate_k j w = (Ret tt, w').

Hypothesis log_keeps : forall w line, Inv w -> Inv (snd (log line w)).
Hypothesis round_keeps :
  forall j w, Inv w -> Inv (snd (validate_k j w)).
Hypothesis resync_succeeds :
  forall j w, Inv w -> exists w', resync_k j w = (Ret tt, w') /\ Inv w'.

(** Rounds [k .. k+n-1] fail and round [k+n] passes: the loop stops
    after round [k+n], and not before. *)
Lemma retry_loop_first_pass (n : nat) :
  forall k w,
    Inv w ->
    (forall j, k <= j < k + n -> round_fails j) ->
    round_passes (k + n) ->
    exists w', forall fuel,
      retry_loop fuel validate_k resync_k k w
      = if fuel <=? n then None else Some (Ret tt, S (k + n), w').
Proof.
  induction n as [| n IH]; intros k w Hw Hfail Hpass.
  - rewrite Nat.add_0_r in *.
    destruct (Hpass w Hw) as [w1 Hv]. exists w1. intros [| fuel].
    + reflexivity.
    + rewrite (retry_loop_pass fuel k w w1 Hv). reflexivity.
  - destruct (Hfail k ltac:(lia) w Hw) as [e [w1 Hv]].
    assert (Hw1 : Inv w1).
    { pose proof (round_keeps k w Hw) as H. rewrite Hv in H. exact H. }
    destruct (resync_succeeds k (snd (log (message e) w1))
                (log_keeps w1 (message e) Hw1)) as [w2 [Hr Hw2]].
    destruct (IH (S k) w2 Hw2) as [w' Hw'].
    + intros j Hj. apply Hfail. lia.
    + replace (S k + n) with (k + S n) by lia. exact Hpass.
    + exists w'. intros [| fuel]; [reflexivity |].
      rewrite (retry_loop_step fuel k w w1 w2 e Hv Hr), Hw'.
      replace (S k + n) with (k + S n) by lia. reflexivity.
Qed.

(** Every round fails: the loop never stops. *)
Lemma retry_loop_never_passes :
  (forall j, round_fails j) ->
  forall fuel k w, Inv w -> retry_loop fuel validate_k resync_k k w = None.
Proof.
  intros Hfail. induction fuel as [| fuel IH]; intros k w Hw; [reflexivity |].
  destruct (Hfail k w Hw) as [e [w1 Hv]].
  assert (Hw1 : Inv w1).
  { pose proof (round_keeps k w Hw) as H. rewrite Hv in H. exact H. }
  destruct (resync_succeeds k (snd (log (message e) w1))
              (log_keeps w1 (message e) Hw1)) as [w2 [Hr Hw2]].
  rewrite (retry_loop_step fuel k w w1 w2 e Hv Hr). apply IH. exact Hw2.
Qed.

(** C5, as amended.  As long as every re-synchronisation succeeds, the
    unbounded loop answers a failed round by re-synchronising and running
    the next round, stops exactly after the first round that passes (a
    validation that fails once and then passes: exactly two rounds) and
    never stops when every round fails.  An error during the
    re-synchronisation that follows a failed round ends the loop with that
    error.  The script runs the loop on [validate] and [syncAll]: it exits
    with code 0 when the loop ends with a round that passed and with
    code 1 when it ends with an error, and a pass of [syncAll] that
    succeeds leaves the snapshot of every Route on disk. *)
Theorem unbounded_retry (w : World) :
  Inv w ->
  (forall n,
     (forall j, j < n -> round_fails j) -> round_passes n ->
     exists w', forall fuel,
       retry_loop fuel validate_k resync_k 0 w
       = if fuel <=? n then None else Some (Ret tt, S n, w'))
  /\ ((forall j, round_fails j) ->
      forall fuel, retry_loop fuel validate_k resync_k 0 w = None)
  /\ (forall fuel k w0 e w1,
        Inv w0 -> validate_k k w0 = (Throw e, w1) ->
        exists w2,
          resync_k k (snd (log (message e) w1)) = (Ret tt, w2)
          /\ retry_loop (S fuel) validate_k resync_k k w0
             = retry_loop fuel validate_k resync_k (S k) w2)
  /\ (forall fuel k w0 e w1 e' w2,
        validate_k k w0 = (Throw e, w1) ->
        resync_k k (snd (log (message e) w1)) = (Throw e', w2) ->
        retry_loop (S fuel) validate_k resync_k k w0
        = Some (Throw e', S k, w2))
  /\ (forall fuel envs w0 routes w1,
        prepare (envs 0) w0 = (Ret routes, w1) ->
        match retry_loop fuel
                (fun k => validate (envs k) routes)
                (fun k => syncAll (envs (S k)) routes) 0 w1 with
        | None => main fuel envs w0 = None
        | Some (Ret _, n, _) => exists w', main fuel envs w0 = Some (0, n, w')
        | Some (Throw _, n, _) =>
            exists w', main fuel envs w0 = Some (1, n, w')
        end)
  /\ (forall env routes w0 w',
        syncAll env routes w0 = (Ret tt, w') ->
        forall r, In r routes -> has_text (snapshot_path env r) w').
Proof.
  intros Hw. split; [| split; [| split; [| split; [| split]]]].
  - intros n Hfail Hpass.
    destruct (retry_loop_first_pass n 0 w Hw) as [w' Hw'].
    + intros j Hj. apply Hfail. lia.
    + exact Hpass.
    + exists w'. exact Hw'.
  - intros Hfail fuel. apply retry_loop_never_passes; assumption.
  - intros fuel k w0 e w1 Hw0 Hv.
    assert (Hw1 : Inv w1).
    { pose proof (round_keeps k w0 Hw0) as H. rewrite Hv in H. exact H. }
    destruct (resync_succeeds k (snd (log (message e) w1))
                (log_keeps w1 (message e) Hw1)) as [w2 [Hr _]].
    exists w2. split; [exact Hr |].
    apply (retry_loop_step fuel k w0 w1 w2 e Hv Hr).
  - intros fuel k w0 e w1 e' w2. apply retry_loop_resync_error.
  - intros fuel envs w0 routes w1. apply main_exit_code.
  - apply syncAll_writes.
Qed.

End UnboundedRetry.

Section UnboundedRetryRuns.

Import SyncValidate.

(** A validator stub that fails once and then passes, and a
    re-synchronisation that does nothing. *)
Definition fails_once (k : nat) : M unit :=
  if k =? 0 then throw (DomDiffOn "about-us") else ret tt.

Definition idle (k : nat) : M unit := ret tt.

Lemma unbounded_retry_witness :
  exists w', forall fuel,
    retry_loop fuel fails_once idle 0 Samples.site
    = if fuel <=? 1 then None else Some (Ret tt, 2, w').
Proof.
  refine (proj1 (unbounded_retry fails_once idle (fun _ => True)
                   _ _ _ Samples.site I) 1 _ _).
  - intros w line _. exact I.
  - intros j w _. exact I.
  - intros j w _. exists w. split; [reflexivity | exact I].
  - intros j Hj w _. assert (j = 0) by lia. subst j.
    eexists. eexists. reflexivity.
  - intros w _. eexists. reflexivity.
Defined.

(** The site whose first round finds an accessibility violation on the
    root Route; from the second round on the violation is gone. *)
Definition mended (k : nat) : Env :=
  if k =? 0
  then Samples.with_axe_violations Samples.calm
         (fun url => if String.eqb url (local_url "") then 1 else 0)
  else Samples.calm.

(** The same first round, after which the live site stops answering. *)
Definition cut_off (k : nat) : Env :=
  if k =? 0 then mended 0 else Samples.with_fetch Samples.calm (fun _ => None).

(** The script on the mended site: two rounds, exit code 0. *)
Example main_fails_once_then_passes :
  exists w', main 5 mended Samples.site = Some (0, 2, w').
Proof.
  exists (snd (match main 5 mended Samples.site with
               | Some x => x
               | None => (0, 0, empty_world)
               end)).
  vm_compute. reflexivity.
Qed.

(** The reading of C5 on the script: whenever the script ends after its
    preparation, it ends with exit code 0. *)
Definition loop_ends_only_on_success : Prop :=
  forall (envs : nat -> Env) (fuel : nat) (w : World)
         (routes : list string) (w1 : World) (code n : nat) (w' : World),
    prepare (envs 0) w = (Ret routes, w1) ->
    main fuel envs w = Some (code, n, w') ->
    code = 0.

(** C5 fails when a re-synchronisation fails: the first round finds a
    violation, the live site does not answer the re-synchronisation, and
    the script ends after one round with exit code 1; no round has
    passed and the round is not run again. *)
Lemma resync_error_ends_loop :
  ~ loop_ends_only_on_success
  /\ (exists w', main 5 cut_off Samples.site = Some (1, 1, w'))
  /\ fst (validate (cut_off 0) [""; "about-us"]
            (snd (prepare (cut_off 0) Samples.site)))
     = Throw (AxeViolations "").
Proof.
  assert (Hmain : exists w', main 5 cut_off Samples.site = Some (1, 1, w')).
  { exists (snd (match main 5 cut_off Samples.site with
                 | Some x => x
                 | None => (0, 0, empty_world)
                 end)).
    vm_compute. reflexivity. }
  split; [| split].
  - intros H. destruct Hmain as [w' Hw'].
    assert (Hc : 1 = 0).
    { eapply (H cut_off 5 Samples.site _ _ 1 1 w'); [| exact Hw'].
      vm_compute. reflexivity. }
    discriminate Hc.
  - exact Hmain.
  - vm_compute. reflexivity.
Qed.

End UnboundedRetryRuns.

(* ===================================================================== *)
(** * The bounded retry loop *)
(* ===================================================================== *)

Section BoundedRetry.

Import FixValidate.

Variable reportFile : string.
Variable fix_k : nat -> M unit.
Variable validate_k : nat -> M Results.

(** One round that ends with failures, in the words of the
    specification: repair, validate, persist the report, announce the
    failures; and [n] such rounds in a row, from attempt [a] on. *)
Inductive failing_rounds : nat -> nat -> World -> World -> Prop :=
| rounds_done (a : nat) (w : World) : failing_rounds 0 a w w
| rounds_more (n a : nat) (w w1 w2 w' : World) (results : Results) :
    fix_k a w = (Ret tt, w1) ->
    validate_k a w1 = (Ret results, w2) ->
    0 < summarize results ->
    failing_rounds n (S a)
      (snd (log "Attempt completed with issues."
              (snd (writeFile reportFile (Report results) w2)))) w' ->
    failing_rounds (S n) a w w'.

(** An invariant of the worlds the loop goes through, which persisting
    the report and logging do not disturb, and under which every repair
    succeeds and every validation returns results with failures; neither
    of the two writes on the console. *)
Variable Inv : World -> Prop.

Hypothesis log_keeps : forall w line, Inv w -> Inv (snd (log line w)).
Hypothesis report_keeps :
  forall w results,
    Inv w -> Inv (snd (writeFile reportFile (Report results) w)).
Hypothesis fix_succeeds :
  forall a w, Inv w ->
    exists w1, fix_k a w = (Ret tt, w1) /\ Inv w1 /\ console w1 = console w.
Hypothesis validation_fails :
  forall a w, Inv w ->
    exists results w1,
      validate_k a w = (Ret results, w1) /\ Inv w1
      /\ console w1 = console w /\ 0 < summarize results.




End BoundedRetry.

Section BoundedRetryRuns.

Import FixValidate.


Definition no_repair (a : nat) : M unit := ret tt.


(** A site whose markup validator complains about every file. *)
Definition noisy : Env :=
  Samples.with_exec_stderr Samples.calm
    (fun cmd => if String.prefix "npx html-validator" cmd
                then "error: stray end tag" else "").

(** The script as stored, on the noisy site: the first round ends in
    the style check, whose body reads a name that is declared nowhere;
    the error leaves the script, which prints nothing and writes no
    report. *)
Example main_ends_in_first_round :
  fst (main (fun _ => noisy) Samples.site) = Throw (ReferenceError "stderr")
  /\ console (snd (main (fun _ => noisy) Samples.site)) = []
  /\ lookup_file (reportPath noisy)
       (disk (snd (main (fun _ => noisy) Samples.site))) = None.
Proof.
  split; [vm_compute; reflexivity |].
  split; vm_compute; reflexivity.
Qed.

End BoundedRetryRuns.

(* ===================================================================== *)
(** * Padding in the visual regression test *)
(* ===================================================================== *)

Section Padding.

Import VisualRegression.

Lemma buffer_copy_length (src tgt : list byte) (ts ss se : nat) :
  length (Image.buffer_copy src tgt ts ss se) = length tgt.
Proof.
  unfold Image.buffer_copy.
  repeat (rewrite length_app || rewrite length_firstn
          || rewrite length_skipn).
  lia.
Qed.

(** A byte of the target after a copy that fits: the copied range comes
    from the source, the rest is unchanged. *)
Lemma buffer_copy_nth (src tgt : list byte) (ts ss n i : nat) (d : byte) :
  ss + n <= length src ->
  ts + n <= length tgt ->
  nth i (Image.buffer_copy src tgt ts ss (ss + n)) d
  = if (ts <=? i) && (i <? ts + n) then nth (ss + (i - ts)) src d
    else nth i tgt d.
Proof.
  intros Hs Ht. unfold Image.buffer_copy.
  replace (ss + n - ss) with n by lia.
  assert (Hc0 : length (firstn n (skipn ss src)) = n).
  { rewrite length_firstn, length_skipn. lia. }
  assert (Hc : firstn (length tgt - ts) (firstn n (skipn ss src))
               = firstn n (skipn ss src)).
  { apply firstn_all2. rewrite Hc0. lia. }
  rewrite Hc, Hc0.
  destruct (Nat.leb_spec ts i) as [Hle | Hlt]; cbn [andb].
  - rewrite app_nth2 by (rewrite length_firstn; lia).
    rewrite length_firstn.
    replace (Nat.min ts (length tgt)) with ts by lia.
    destruct (Nat.ltb_spec i (ts + n)) as [Hin | Hout].
    + rewrite app_nth1 by (rewrite Hc0; lia).
      rewrite nth_firstn.
      destruct (Nat.ltb_spec (i - ts) n); [| lia].
      apply nth_skipn.
    + rewrite app_nth2 by (rewrite Hc0; lia).
      rewrite Hc0, nth_skipn. f_equal. lia.
  - rewrite app_nth1 by (rewrite length_firstn; lia).
    rewrite nth_firstn.
    destruct (Nat.ltb_spec i ts); [reflexivity | lia].
Qed.

Lemma bitblt_rows_length (src : Image.PNG) (dstw : nat) (rows : nat) :
  forall (dstdata : list byte) (srcX srcY w deltaX deltaY y : nat),
    length (Image.bitblt_rows src dstw dstdata srcX srcY w deltaX deltaY
              y rows)
    = length dstdata.
Proof.
  induction rows as [| rows IH]; intros; cbn [Image.bitblt_rows].
  - reflexivity.
  - rewrite IH. apply buffer_copy_length.
Qed.

(** The rows copied to the origin of a wider canvas: inside the rows
    [y .. y+rows-1] and the first [width src] columns the canvas shows
    the source, elsewhere it is unchanged. *)
Lemma bitblt_rows_origin (src : Image.PNG) (W : nat) (rows : nat) :
  forall (dstdata : list byte) (y x y' c : nat),
    Image.well_formed src ->
    Image.width src <= W ->
    y + rows <= Image.height src ->
    4 * (W * (y + rows)) <= length dstdata ->
    x < W -> c < 4 ->
    nth (4 * (y' * W + x) + c)
      (Image.bitblt_rows src W dstdata 0 0 (Image.width src) 0 0 y rows) x00
    = if (y <=? y') && (y' <? y + rows) && (x <? Image.width src)
      then nth (4 * (y' * Image.width src + x) + c) (Image.data src) x00
      else nth (4 * (y' * W + x) + c) dstdata x00.
Proof.
  induction rows as [| rows IH];
    intros dstdata y x y' c Hwf Hw Hh Hlen Hx Hc; cbn [Image.bitblt_rows].
  - destruct (Nat.leb_spec y y'); cbn [andb]; [| reflexivity].
    destruct (Nat.ltb_spec y' (y + 0)); [lia | reflexivity].
  - rewrite IH; try assumption; try lia.
    2:{ rewrite buffer_copy_length. lia. }
    replace (4 * ((0 + y) * Image.width src + 0 + Image.width src))
      with (4 * ((0 + y) * Image.width src + 0) + 4 * Image.width src)
      by lia.
    rewrite buffer_copy_nth.
    2:{ unfold Image.well_formed in Hwf. rewrite Hwf.
        assert (Image.width src * (y + S rows)
                <= Image.width src * Image.height src)
          by (apply Nat.mul_le_mono_l; lia).
        lia. }
    2:{ assert (W * (y + S rows) = y * W + W + W * rows) by ring. lia. }
    destruct (Nat.leb_spec (S y) y') as [H1 | H1];
      destruct (Nat.ltb_spec y' (S y + rows)) as [H2 | H2];
      destruct (Nat.ltb_spec x (Image.width src)) as [H3 | H3];
      destruct (Nat.leb_spec y y') as [H4 | H4];
      destruct (Nat.ltb_spec y' (y + S rows)) as [H5 | H5];
      cbn [andb]; try lia; try reflexivity.
    all: destruct (Nat.leb_spec (4 * ((0 + y) * W + 0))
                     (4 * (y' * W + x) + c)) as [H6 | H6];
      destruct (Nat.ltb_spec (4 * (y' * W + x) + c)
                  (4 * ((0 + y) * W + 0) + 4 * Image.width src)) as [H7 | H7];
      cbn [andb]; try reflexivity; try (exfalso; nia).
    all: try (f_equal; nia).
Qed.

Lemma pad_shape (img : Image.PNG) (W H : nat) :
  Image.width img <= W -> Image.height img <= H ->
  exists p,
    pad img W H = Some p
    /\ Image.width p = W /\ Image.height p = H
    /\ Image.data p
       = Image.bitblt_rows img W (repeat x00 (4 * (W * H))) 0 0
           (Image.width img) 0 0 0 (Image.height img)
    /\ Image.well_formed p.
Proof.
  intros Hw Hh. unfold pad, Image.bitblt, Image.blank.
  cbn [Image.width Image.height Image.data].
  replace (Image.width img <? 0) with false
    by (symmetry; apply Nat.ltb_ge; lia).
  replace (Image.height img <? 0) with false
    by (symmetry; apply Nat.ltb_ge; lia).
  replace (Image.width img <? 0 + Image.width img) with false
    by (symmetry; apply Nat.ltb_ge; lia).
  replace (Image.height img <? 0 + Image.height img) with false
    by (symmetry; apply Nat.ltb_ge; lia).
  replace (W <? 0) with false by (symmetry; apply Nat.ltb_ge; lia).
  replace (H <? 0) with false by (symmetry; apply Nat.ltb_ge; lia).
  replace (W <? 0 + Image.width img) with false
    by (symmetry; apply Nat.ltb_ge; lia).
  replace (H <? 0 + Image.height img) with false
    by (symmetry; apply Nat.ltb_ge; lia).
  cbn [orb]. eexists. split; [reflexivity |].
  cbn [Image.width Image.height Image.data].
  split; [reflexivity |]. split; [reflexivity |]. split; [reflexivity |].
  unfold Image.well_formed. cbn [Image.width Image.height Image.data].
  rewrite bitblt_rows_length, repeat_length. reflexivity.
Qed.

(** X20.  Padding is anchored at the origin: the canvas shows the image in
    its top left corner and transparent black elsewhere. *)
Lemma pad_origin_anchored (img : Image.PNG) (W H : nat) :
  Image.well_formed img ->
  Image.width img <= W -> Image.height img <= H ->
  exists p,
    pad img W H = Some p
    /\ Image.width p = W /\ Image.height p = H /\ Image.well_formed p
    /\ forall x y c,
         x < W -> y < H -> c < 4 ->
         Image.channel p x y c
         = if (x <? Image.width img) && (y <? Image.height img)
           then Image.channel img x y c
           else x00.
Proof.
  intros Hwf Hw Hh.
  destruct (pad_shape img W H Hw Hh) as [p [Hp [Hpw [Hph [Hpd Hpwf]]]]].
  exists p. split; [exact Hp |]. split; [exact Hpw |].
  split; [exact Hph |]. split; [exact Hpwf |].
  intros x y c Hx Hy Hc. unfold Image.channel. rewrite Hpw, Hpd.
  rewrite bitblt_rows_origin; try assumption; try lia.
  2:{ rewrite repeat_length.
      assert (W * (0 + Image.height img) <= W * H)
        by (apply Nat.mul_le_mono_l; lia).
      lia. }
  cbn [Nat.leb andb Nat.add].
  destruct (Nat.ltb_spec y (Image.height img));
    destruct (Nat.ltb_spec x (Image.width img)); cbn [andb];
    try reflexivity; apply nth_repeat.
Qed.

(** The comparison of the test never throws, whatever the sizes of the
    two screenshots: both are padded onto the canvas of the maximal width
    and height, the buffers handed to [pixelmatch] have the size of that
    canvas, and the page passes exactly when the percentage is at or
    below the threshold. *)
Lemma compare_pads (env : Env) (localPNG livePNG : Image.PNG) (w : World) :
  let width := Nat.max (Image.width localPNG) (Image.width livePNG) in
  let height := Nat.max (Image.height localPNG) (Image.height livePNG) in
  exists localPadded livePadded,
    pad localPNG width height = Some localPadded
    /\ pad livePNG width height = Some livePadded
    /\ Image.well_formed localPadded /\ Image.well_formed livePadded
    /\ Image.width localPadded = width /\ Image.height localPadded = height
    /\ Image.width livePadded = width /\ Image.height livePadded = height
    /\ let diffPixels :=
         pm_count env (Image.data localPadded) (Image.data livePadded)
           width height in
       let diffPercent := Num.times (Num.div diffPixels (width * height)) 100 in
       compare env localPNG livePNG w
       = (Ret (diffPixels, diffPercent, Num.leb diffPercent threshold), w).
Proof.
  cbv zeta.
  destruct (pad_shape localPNG
              (Nat.max (Image.width localPNG) (Image.width livePNG))
              (Nat.max (Image.height localPNG) (Image.height livePNG)))
    as [p1 [Hp1 [Hw1 [Hh1 [_ Hwf1]]]]]; try lia.
  destruct (pad_shape livePNG
              (Nat.max (Image.width localPNG) (Image.width livePNG))
              (Nat.max (Image.height localPNG) (Image.height livePNG)))
    as [p2 [Hp2 [Hw2 [Hh2 [_ Hwf2]]]]]; try lia.
  exists p1, p2. repeat (split; [assumption |]).
  unfold compare, bind, orThrow. rewrite Hp1, Hp2.
  unfold ret at 1. unfold ret at 1. unfold pixelmatch.
  assert (Hsz : Image.pixelmatch_sizes_ok (Image.data p1) (Image.data p2)
                  (Image.data
                     (Image.blank
                        (Nat.max (Image.width localPNG) (Image.width livePNG))
                        (Nat.max (Image.height localPNG)
                           (Image.height livePNG))))
                  (Nat.max (Image.width localPNG) (Image.width livePNG))
                  (Nat.max (Image.height localPNG) (Image.height livePNG))
                = true).
  { unfold Image.pixelmatch_sizes_ok, Image.blank.
    cbn [Image.data]. unfold Image.well_formed in Hwf1, Hwf2.
    rewrite Hwf1, Hwf2, Hw1, Hh1, Hw2, Hh2, repeat_length.
    rewrite !andb_true_iff, !Nat.eqb_eq. lia. }
  rewrite Hsz. reflexivity.
Qed.

(** The test on the screenshots on which [validate] throws. *)
Example compare_differing_sizes :
  fst (compare Samples.calm Samples.dot Samples.column Samples.site)
  = Ret (0, Num.times (Num.div 0 2) 100, true).
Proof. vm_compute. reflexivity. Qed.

End Padding.

(* ===================================================================== *)
(** * Page contexts, engines and servers after a round *)
(* ===================================================================== *)

Section Resources.

(** A round of [validate] that fails on the structural check of its only
    Route ends with the two page contexts of that Route, the browser
    engine and the local server still open. *)
Example failed_round_leaks :
  let w := snd (SyncValidate.validate gutted ["about-us"] Samples.site) in
  fst (SyncValidate.validate gutted ["about-us"] Samples.site)
  = Throw (DomDiffOn "about-us")
  /\ pages w = [(1, 4); (1, 3)] /\ browsers w = [1] /\ servers w = [0].
Proof. vm_compute. repeat split. Qed.

(** A round of [validate] that passes leaves nothing open. *)
Example passed_round_is_clean :
  let w := snd (SyncValidate.validate Samples.calm ["about-us"] Samples.site) in
  fst (SyncValidate.validate Samples.calm ["about-us"] Samples.site) = Ret tt
  /\ pages w = [] /\ browsers w = [] /\ servers w = [].
Proof. vm_compute. repeat split. Qed.

(** The second page of the test cannot be reached. *)
Definition unreachable_second : Env :=
  Samples.with_nav_ok Samples.calm
    (fun url => negb (JS.endsWith url "/about-us.html")).

(** The visual regression test closes its engine and its server in a
    [finally] block: after a navigation error nothing stays open, the
    entry of the first page is kept and the exit code is 1. *)
Example test_cleans_up_after_error :
  let w := snd (VisualRegression.main unreachable_second
                  VisualRegression.pages Samples.site) in
  fst (VisualRegression.main unreachable_second VisualRegression.pages
         Samples.site) = Ret (Some 1)
  /\ pages w = [] /\ browsers w = [] /\ servers w = []
  /\ lookup_file "/site/reports/visual-diffs.json" (disk w)
     = Some (ResultList
               [DVisualResult "index.html" 0 (Num.times (Num.div 0 1) 100)
                  true]).
Proof. vm_compute. repeat split. Qed.

End Resources.

(* ===================================================================== *)
(** * Runs on concrete sites *)
(* ===================================================================== *)

Section Runs.

Import SyncValidate.

(** The site index lists the root twice over and one page twice. *)
Example discovery_from_index :
  fst (discoverRoutes Samples.calm Samples.site) = Ret [""; "about-us"].
Proof. vm_compute. reflexivity. Qed.

(** The site index cannot be fetched: the anchors of the root document
    are crawled; the mail link is left out. *)
Example discovery_without_index :
  fst (discoverRoutes
         (Samples.with_fetch Samples.calm
            (fun url => if String.eqb url BASE_URL then Some "<html></html>"
                        else None))
         Samples.site)
  = Ret [""; "events"].
Proof. vm_compute. reflexivity. Qed.

(** The site index is fetched and has no location in it: no Route, and
    the root document is not crawled. *)
Example discovery_with_empty_index :
  fst (discoverRoutes (Samples.with_xml_locs Samples.calm (fun _ => []))
         Samples.site)
  = Ret [].
Proof. vm_compute. reflexivity. Qed.

(** Nothing can be fetched: discovery fails. *)
Example discovery_offline :
  fst (discoverRoutes (Samples.with_fetch Samples.calm (fun _ => None))
         Samples.site)
  = Throw (FetchFailed BASE_URL).
Proof. vm_compute. reflexivity. Qed.

(** The single pixel of the page differs: 100 percent, the Route fails
    and its diff image is written all the same. *)
Definition repainted : Env :=
  Samples.with_pm_count Samples.calm (fun _ _ _ _ => 1).

Example visual_mismatch_writes_image :
  fst (diffRoute repainted 0 "about-us" Samples.site)
  = Throw (VisualDiffOn (Num.times (Num.div 1 1) 100) "about-us")
  /\ lookup_file "/site/reports/diffs/about-us.png"
       (disk (snd (diffRoute repainted 0 "about-us" Samples.site)))
     = Some (Png (Image.mkPNG 1 1 [x00; x00; x00; x00])).
Proof. vm_compute. split; reflexivity. Qed.

(** The two screenshots differ in width and in height and have the same
    number of pixels: [pixelmatch] accepts the two buffers and compares
    them as if both had the shape of the local one. *)
Definition reshaped : Env :=
  Samples.with_screenshot Samples.calm
    (fun url => if String.prefix BASE_URL url then Samples.column
                else Samples.row).

Example unpadded_comparison_ignores_shape :
  sizes_ok_of reshaped "about-us" = true
  /\ fst (diffRoute reshaped 0 "about-us" Samples.site) = Ret tt.
Proof. vm_compute. split; reflexivity. Qed.

(** The style linter fails: the round of [validate] is over before the
    local server is started. *)
Definition unstyled : Env :=
  Samples.with_exec_ok Samples.calm
    (fun cmd => negb (String.prefix "npx stylelint" cmd)).

Example lint_failure_aborts_round :
  fst (validate unstyled ["about-us"] Samples.site)
  = Throw (CommandFailed
             ("npx stylelint " ++ dq ++ "/site/dist/**/*.css" ++ dq))
  /\ servers (snd (validate unstyled ["about-us"] Samples.site)) = [].
Proof. vm_compute. split; reflexivity. Qed.

(** The browser engine does not start: the round of [validate] throws,
    and the unbounded loop re-synchronises and tries again, round after
    round; the process is not ended. *)
Definition stalled : Env := Samples.with_launch_ok Samples.calm false.

Example launch_failure_is_retried :
  fst (validate stalled ["about-us"] Samples.site) = Throw LaunchFailed
  /\ main 4 (fun _ => stalled) Samples.site = None.
Proof. vm_compute. split; reflexivity. Qed.



End Runs.

(* ===================================================================== *)
(** * The unbounded script on a site that stays reachable *)
(* ===================================================================== *)

Section ReachableSite.

Import SyncValidate.

(** ** Strings and paths *)


Lemma prefix_append (a b : string) : String.prefix a (a ++ b) = true.
Proof.
  induction a as [| x a IH]; cbn [append String.prefix].
  - destruct b; reflexivity.
  - destruct (ascii_dec x x) as [_ | Hne]; [exact IH | congruence].
Qed.

Lemma eqb_append_cancel (a b c : string) :
  String.eqb (a ++ b) (a ++ c) = String.eqb b c.
Proof.
  induction a as [| x a IH]; [reflexivity |].
  cbn [append String.eqb]. rewrite Ascii.eqb_refl. exact IH.
Qed.

Lemma diffPath_eq (env : Env) (r : string) :
  diffPath env r
  = (cwd env ++ "/reports/diffs/" ++ JS.flatten_slashes r ++ ".png")%string.
Proof.
  unfold diffPath, REPORT_DIR, JS.path_join.
  destruct (JS.flatten_slashes r ++ ".png")%string eqn:E.
  - destruct (JS.flatten_slashes r); discriminate.
  - rewrite <- E. cbn [append]. rewrite !append_assoc. reflexivity.
Qed.

Lemma snapshot_path_eq (env : Env) (r : string) :
  exists rest, snapshot_path env r = ((cwd env ++ "/dist/") ++ rest)%string.
Proof.
  unfold snapshot_path, DIST_DIR, JS.path_join. destruct r as [| c r].
  - exists "index.html". rewrite !append_assoc. reflexivity.
  - exists (String c r ++ "/index.html")%string.
    rewrite !append_assoc. reflexivity.
Qed.

(** ** What a computation keeps *)

(** [c] keeps [P]: from a world in [P] it ends, returning or throwing,
    in a world in [P]. *)
Definition keeps {A} (P : World -> Prop) (c : M A) : Prop :=
  forall w, P w -> P (snd (c w)).

(** A property of the files alone. *)
Definition of_disk (P : World -> Prop) : Prop :=
  forall w w', disk w = disk w' -> P w -> P w'.

Lemma keeps_ret {A} (P : World -> Prop) (a : A) : keeps P (ret a).
Proof. intros w H. exact H. Qed.

Lemma keeps_throw {A} (P : World -> Prop) (e : Error) :
  keeps P (@throw A e).
Proof. intros w H. exact H. Qed.

Lemma keeps_bind {A B} (P : World -> Prop) (c : M A) (k : A -> M B) :
  keeps P c -> (forall a, keeps P (k a)) -> keeps P (bind c k).
Proof.
  intros Hc Hk w H. unfold bind. specialize (Hc w H).
  destruct (c w) as [[a | e] w1]; cbn [snd] in *.
  - apply Hk. exact Hc.
  - exact Hc.
Qed.

Lemma keeps_forEach {A} (P : World -> Prop) (l : list A)
    (body : A -> M unit) :
  (forall x, In x l -> keeps P (body x)) -> keeps P (forEach l body).
Proof.
  intros H. induction l as [| x l IH]; cbn [forEach].
  - apply keeps_ret.
  - apply keeps_bind; [apply H; left; reflexivity |].
    intros _. apply IH. intros y Hy. apply H. right. exact Hy.
Qed.

Lemma keeps_untouched {A} (P : World -> Prop) (c : M A) :
  of_disk P -> (forall w, disk (snd (c w)) = disk w) -> keeps P c.
Proof.
  intros HP Hc w H. apply (HP w); [symmetry; apply Hc | exact H].
Qed.

Lemma keeps_run (P : World -> Prop) (env : Env) (cmd : string) :
  keeps P (run env cmd).
Proof.
  unfold run. destruct (exec_ok env cmd); [apply keeps_ret | apply keeps_throw].
Qed.

Lemma keeps_goto (P : World -> Prop) (ok : bool) (url : string) :
  keeps P (goto ok url).
Proof.
  unfold goto. destruct ok; [apply keeps_ret | apply keeps_throw].
Qed.

(** [validate] writes nothing but the diff images of its Routes. *)
Lemma validate_keeps (P : World -> Prop) (env : Env) (routes : list string) :
  of_disk P ->
  (forall r img,
     In r routes -> keeps P (writeFile (diffPath env r) (Png img))) ->
  keeps P (validate env routes).
Proof.
  intros HP Hw. unfold validate.
  apply keeps_bind.
  { apply keeps_untouched; [exact HP |]. intros w. unfold walk.
    destruct (files_below (DIST_DIR env) (disk w)); reflexivity. }
  intros htmlFiles. cbv zeta.
  apply keeps_bind; [apply keeps_forEach; intros; apply keeps_run |].
  intros _. apply keeps_bind; [apply keeps_run |].
  intros _. apply keeps_bind; [apply keeps_run |].
  intros _. apply keeps_bind; [apply keeps_run |].
  intros _. apply keeps_bind;
    [apply keeps_untouched; [exact HP | reflexivity] |].
  intros server. apply keeps_bind;
    [apply keeps_forEach; intros; apply keeps_run |].
  intros _. apply keeps_bind.
  { apply keeps_untouched; [exact HP |]. intros w. unfold launch.
    destruct (launch_ok env); reflexivity. }
  intros browser. apply keeps_bind.
  { apply keeps_forEach. intros r _. unfold axeRoute.
    apply keeps_bind; [apply keeps_untouched; [exact HP | reflexivity] |].
    intros page. apply keeps_bind; [apply keeps_goto |].
    intros _. apply keeps_bind.
    { destruct (negb _); [apply keeps_throw | apply keeps_ret]. }
    intros _. apply keeps_untouched; [exact HP | reflexivity]. }
  intros _. apply keeps_bind; [apply keeps_run |].
  intros _. apply keeps_bind.
  { apply keeps_forEach. intros r Hr. unfold diffRoute.
    apply keeps_bind; [apply keeps_untouched; [exact HP | reflexivity] |].
    intros pageLocal. apply keeps_bind; [apply keeps_goto |].
    intros _. cbv zeta.
    apply keeps_bind; [apply keeps_untouched; [exact HP | reflexivity] |].
    intros pageLive. apply keeps_bind; [apply keeps_goto |].
    intros _. apply keeps_bind.
    { destruct (domDiffFails _ _); [apply keeps_throw | apply keeps_ret]. }
    intros _. apply keeps_bind.
    { unfold pixelmatch.
      destruct (Image.pixelmatch_sizes_ok _ _ _ _ _);
        [apply keeps_ret | apply keeps_throw]. }
    intros res. apply keeps_bind; [apply Hw; exact Hr |].
    intros _. apply keeps_bind.
    { destruct (Num.gtb _ _); [apply keeps_throw | apply keeps_ret]. }
    intros _. apply keeps_bind; [| intros _];
      apply keeps_untouched; try exact HP; reflexivity. }
  intros _. apply keeps_bind.
  { apply keeps_forEach. intros r _. unfold lighthouseRoute.
    apply keeps_bind.
    { unfold orThrow. destruct (lighthouse env (local_url r));
        [apply keeps_ret | apply keeps_throw]. }
    intros lhr. destruct (_ || _); [apply keeps_throw | apply keeps_ret]. }
  intros _. apply keeps_bind; [| intros _];
    apply keeps_untouched; try exact HP; reflexivity.
Qed.

(** ** The invariant of the loop *)

(** The shared fragments are readable and the artifact tree exists, in
    the working directory [c]. *)
Definition ready (c : string) (w : World) : Prop :=
  has_text (c ++ "/head-section.html") w
  /\ has_text (c ++ "/top-panel.html") w
  /\ files_below (c ++ "/dist") (disk w) <> [].

Lemma ready_of_disk (c : string) : of_disk (ready c).
Proof.
  intros w w' Hd [H1 [H2 H3]]. unfold ready, has_text in *.
  rewrite <- Hd. auto.
Qed.

Lemma files_below_writeFile (d q : string) (c : Content) (w : World) :
  files_below d (disk w) <> [] ->
  files_below d (disk (snd (writeFile q c w))) <> [].
Proof.
  unfold files_below, writeFile. cbn [snd disk map fst filter].
  intros H.
  destruct (String.prefix (d ++ "/") q) eqn:Eq; [discriminate |].
  intros Hnil. apply H. clear H.
  induction (disk w) as [| kv l IH]; [reflexivity |].
  cbn [filter map] in *.
  destruct (String.eqb (fst kv) q) eqn:E; cbn [negb map filter] in Hnil.
  - apply String.eqb_eq in E. rewrite E, Eq. apply IH. exact Hnil.
  - destruct (String.prefix (d ++ "/") (fst kv)); [discriminate |].
    apply IH. exact Hnil.
Qed.

Lemma writeFile_diff_keeps_ready (env : Env) (r : string) (img : Image.PNG) :
  keeps (ready (cwd env)) (writeFile (diffPath env r) (Png img)).
Proof.
  intros w [[h Hh] [[t Ht] Hd]]. unfold ready, has_text.
  rewrite !lookup_writeFile, diffPath_eq, !eqb_append_cancel.
  cbn [append String.eqb Ascii.eqb Bool.eqb andb].
  split; [exists h; exact Hh |]. split; [exists t; exact Ht |].
  apply files_below_writeFile. exact Hd.
Qed.

Lemma validate_keeps_ready (env : Env) (routes : list string) :
  keeps (ready (cwd env)) (validate env routes).
Proof.
  apply validate_keeps; [apply ready_of_disk |].
  intros r img _. apply writeFile_diff_keeps_ready.
Qed.

(** A Route whose live page can be fetched and has a content region. *)
Definition fetchable (env : Env) (r : string) : Prop :=
  exists html mainHtml,
    fetch env (sync_url r) = Some html
    /\ main_region env html = Some mainHtml.

Lemma syncRoute_ready (env : Env) (r : string) (w : World) :
  ready (cwd env) w -> fetchable env r ->
  exists q w', syncRoute env r w = (Ret q, w') /\ ready (cwd env) w'.
Proof.
  intros [[h Hh] [[t Ht] Hd]] [html [mainHtml [Hf Hm]]].
  assert (Hs : exists q w', syncRoute env r w = (Ret q, w')).
  { rewrite syncRoute_eq, Hf, Hm. unfold resolve, JS.path_join.
    cbn [append]. rewrite Hh, Ht. eexists. eexists. reflexivity. }
  destruct Hs as [q [w' Hs]]. exists q, w'. split; [exact Hs |].
  destruct (syncRoute_writes env r w w' q Hs) as [_ Hkeep].
  split; [apply Hkeep; exists h; exact Hh |].
  split; [apply Hkeep; exists t; exact Ht |].
  revert Hs. rewrite syncRoute_eq, Hf, Hm. unfold resolve, JS.path_join.
  cbn [append]. rewrite Hh, Ht. intros Hs.
  match type of Hs with
  | (_, ?X) = _ => assert (Hw' : X = w') by congruence
  end.
  rewrite <- Hw'. apply files_below_writeFile. exact Hd.
Qed.

Lemma syncAll_ready (env : Env) (routes : list string) :
  (forall r, In r routes -> fetchable env r) ->
  forall w, ready (cwd env) w ->
    exists w', syncAll env routes w = (Ret tt, w') /\ ready (cwd env) w'.
Proof.
  unfold syncAll. induction routes as [| r routes IH]; intros Hf w Hw.
  - exists w. split; [reflexivity | exact Hw].
  - destruct (syncRoute_ready env r w Hw (Hf r (or_introl eq_refl)))
      as [q [w1 [Hs Hw1]]].
    destruct (IH (fun x Hx => Hf x (or_intror Hx)) w1 Hw1) as [w' [Ha Hw']].
    exists w'. split; [| exact Hw'].
    cbn [forEach]. unfold bind at 1 2. rewrite Hs. unfold ret at 1.
    exact Ha.
Qed.

Lemma syncAll_keeps_text (env : Env) (routes : list string) :
  forall w w' p,
    syncAll env routes w = (Ret tt, w') -> has_text p w -> has_text p w'.
Proof.
  unfold syncAll. induction routes as [| r routes IH]; intros w w' p H Hp.
  - cbn [forEach] in H. inversion H; subst. exact Hp.
  - cbn [forEach] in H. unfold bind at 1 2 in H.
    destruct (syncRoute env r w) as [[q | e] w1] eqn:Hr; [| discriminate].
    unfold ret at 1 in H. apply (IH w1 w' p H).
    apply (syncRoute_writes env r w w1 q Hr). exact Hp.
Qed.

Lemma snapshot_below_dist (env : Env) (r : string) (w : World) :
  has_text (snapshot_path env r) w ->
  files_below (cwd env ++ "/dist") (disk w) <> [].
Proof.
  intros [doc Hdoc]. unfold lookup_file in Hdoc.
  destruct (find _ (disk w)) as [kv |] eqn:Hfind; [| discriminate].
  apply find_some in Hfind. destruct Hfind as [Hin Heq].
  apply String.eqb_eq in Heq.
  assert (Hmem : In (snapshot_path env r)
                   (files_below (cwd env ++ "/dist") (disk w))).
  { unfold files_below. apply filter_In. split.
    - rewrite <- Heq. apply in_map. exact Hin.
    - destruct (snapshot_path_eq env r) as [rest Hrest]. rewrite Hrest.
      rewrite (append_assoc (cwd env) "/dist" "/").
      apply prefix_append. }
  intros Hnil. rewrite Hnil in Hmem. destruct Hmem.
Qed.

(** The preparation of the script leaves a world that is ready, when it
    found at least one Route. *)
Lemma prepare_ready (env : Env) (w : World) (routes : list string)
    (w1 : World) :
  prepare env w = (Ret routes, w1) -> routes <> [] -> ready (cwd env) w1.
Proof.
  unfold prepare. intros H Hne.
  unfold bind at 1 in H.
  destruct (discoverRoutes env w) as [[rs | e] wa]; [| discriminate].
  unfold bind at 1, log at 1 in H. unfold bind at 1, rmTree at 1 in H.
  unfold bind at 1 in H.
  match type of H with
  | context [syncAll env rs ?W] =>
      destruct (syncAll env rs W) as [[[] | e] wc] eqn:Hs; [| discriminate];
      remember W as wb eqn:Hwb
  end.
  unfold bind at 1, log at 1, ret in H. inversion H; subst routes w1.
  clear H. destruct rs as [| r0 rs]; [congruence |].
  apply (ready_of_disk (cwd env) wc); [reflexivity |].
  assert (Hfrag : has_text (cwd env ++ "/head-section.html") wb
                  /\ has_text (cwd env ++ "/top-panel.html") wb).
  { revert Hs. unfold syncAll. cbn [forEach]. unfold bind at 1 2.
    rewrite syncRoute_eq. unfold resolve, JS.path_join. cbn [append].
    destruct (fetch env (sync_url r0)) as [html |]; [| discriminate].
    destruct (main_region env html) as [mainHtml |]; [| discriminate].
    destruct (lookup_file (cwd env ++ "/head-section.html") (disk wb))
      as [[h | | | ] | ] eqn:Eh; try discriminate.
    destruct (lookup_file (cwd env ++ "/top-panel.html") (disk wb))
      as [[t | | | ] | ] eqn:Et; try discriminate.
    intros _. split; [exists h; exact Eh | exists t; exact Et]. }
  destruct Hfrag as [Hh Ht].
  split; [apply (syncAll_keeps_text env (r0 :: rs) wb wc _ Hs Hh) |].
  split; [apply (syncAll_keeps_text env (r0 :: rs) wb wc _ Hs Ht) |].
  apply (snapshot_below_dist env r0).
  apply (syncAll_writes env (r0 :: rs) wb wc Hs). left. reflexivity.
Qed.

(** ** The script *)


(** X8.  On such a site, when some Route fails in every round, the script
    never ends. *)
Lemma main_never_stops (envs : nat -> Env) (w : World)
    (routes : list string) (w1 : World) (c : string) :
  prepare (envs 0) w = (Ret routes, w1) ->
  routes <> [] ->
  (forall k, cwd (envs k) = c) ->
  (forall k r, In r routes -> fetchable (envs (S k)) r) ->
  (forall j, exists r, In r routes /\ route_fails (envs j) r = true) ->
  forall fuel, main fuel envs w = None.
Proof.
  intros Hp Hne Hc Hfetch Hfail fuel.
  assert (Hw1 : ready c w1).
  { rewrite <- (Hc 0). apply (prepare_ready (envs 0) w routes w1 Hp Hne). }
  unfold main. rewrite Hp.
  rewrite (retry_loop_never_passes
             (fun k => validate (envs k) routes)
             (fun k => syncAll (envs (S k)) routes)
             (ready c)); [reflexivity | | | | | exact Hw1].
  - intros w0 line H. apply (ready_of_disk c w0); [reflexivity | exact H].
  - intros j w0 H. rewrite <- (Hc j) in *. apply validate_keeps_ready.
    exact H.
  - intros j w0 H. rewrite <- (Hc (S j)) in *.
    apply syncAll_ready; [apply Hfetch | exact H].
  - intros j w0 _. destruct (Hfail j) as [r [Hin Hr]].
    exact (validate_aborts (envs j) routes r Hin Hr w0).
Qed.

End ReachableSite.

(* ===================================================================== *)
(** * Outcomes of a computation, by cases *)
(* ===================================================================== *)

Section Triples.

(** From a world in [P], the computation [c] either returns a value [a]
    in a world in [Q a], or throws an error [e] in a world in [E e]. *)
Definition triple {A} (P : World -> Prop) (c : M A)
    (Q : A -> World -> Prop) (E : Error -> World -> Prop) : Prop :=
  forall w, P w ->
    match c w with
    | (Ret a, w') => Q a w'
    | (Throw e, w') => E e w'
    end.

Lemma triple_ret {A} (P : World -> Prop) (a : A)
    (Q : A -> World -> Prop) (E : Error -> World -> Prop) :
  (forall w, P w -> Q a w) -> triple P (ret a) Q E.
Proof. intros H w Hw. apply H. exact Hw. Qed.

Lemma triple_throw {A} (P : World -> Prop) (e : Error)
    (Q : A -> World -> Prop) (E : Error -> World -> Prop) :
  (forall w, P w -> E e w) -> triple P (@throw A e) Q E.
Proof. intros H w Hw. apply H. exact Hw. Qed.

Lemma triple_bind {A B} (P : World -> Prop) (c : M A) (k : A -> M B)
    (R : A -> World -> Prop) (Q : B -> World -> Prop)
    (E : Error -> World -> Prop) :
  triple P c R E -> (forall a, triple (R a) (k a) Q E) ->
  triple P (bind c k) Q E.
Proof.
  intros Hc Hk w Hw. unfold bind. specialize (Hc w Hw).
  destruct (c w) as [[a | e] w1].
  - apply Hk. exact Hc.
  - exact Hc.
Qed.

Lemma triple_weaken {A} (P P' : World -> Prop) (c : M A)
    (Q Q' : A -> World -> Prop) (E E' : Error -> World -> Prop) :
  triple P' c Q' E' ->
  (forall w, P w -> P' w) ->
  (forall a w, Q' a w -> Q a w) ->
  (forall e w, E' e w -> E e w) ->
  triple P c Q E.
Proof.
  intros Hc HP HQ HE w Hw. specialize (Hc w (HP w Hw)).
  destruct (c w) as [[a | e] w1]; [apply HQ | apply HE]; exact Hc.
Qed.

Lemma triple_forEach {A} (I : World -> Prop) (l : list A)
    (body : A -> M unit) (E : Error -> World -> Prop) :
  (forall x, In x l -> triple I (body x) (fun _ => I) E) ->
  triple I (forEach l body) (fun _ => I) E.
Proof.
  intros H. induction l as [| x l IH]; cbn [forEach].
  - apply triple_ret. auto.
  - apply (triple_bind I _ _ (fun _ => I)).
    + apply H. left. reflexivity.
    + intros _. apply IH. intros y Hy. apply H. right. exact Hy.
Qed.

Lemma triple_forEachR {A} (I : World -> Prop) (l : list A)
    (body : Results -> A -> M Results) (E : Error -> World -> Prop) :
  (forall res x, In x l -> triple I (body res x) (fun _ => I) E) ->
  forall res, triple I (FixValidate.forEachR l body res) (fun _ => I) E.
Proof.
  intros H. induction l as [| x l IH]; intros res; cbn [FixValidate.forEachR].
  - apply triple_ret. auto.
  - apply (triple_bind I _ _ (fun _ => I)).
    + apply H. left. reflexivity.
    + intros r. apply IH. intros res' y Hy. apply H. right. exact Hy.
Qed.

Lemma triple_try_catch {A} (P : World -> Prop) (c : M A) (h : Error -> M A)
    (Q : A -> World -> Prop) (E1 E : Error -> World -> Prop) :
  triple P c Q E1 -> (forall e, triple (E1 e) (h e) Q E) ->
  triple P (try_catch c h) Q E.
Proof.
  intros Hc Hh w Hw. unfold try_catch. specialize (Hc w Hw).
  destruct (c w) as [[a | e] w1].
  - exact Hc.
  - apply Hh. exact Hc.
Qed.

(** A computation that leaves the world as it is. *)
Definition inert {A} (c : M A) : Prop := forall w, snd (c w) = w.

Lemma triple_inert {A} (P : World -> Prop) (c : M A) :
  inert c -> triple P c (fun _ => P) (fun _ => P).
Proof.
  intros Hc w Hw. specialize (Hc w).
  destruct (c w) as [[a | e] w1]; cbn [snd] in Hc; subst; exact Hw.
Qed.

Lemma inert_run (env : Env) (cmd : string) : inert (SyncValidate.run env cmd).
Proof.
  intros w. unfold SyncValidate.run. destruct (exec_ok env cmd); reflexivity.
Qed.

Lemma inert_goto (ok : bool) (url : string) : inert (goto ok url).
Proof. intros w. unfold goto. destruct ok; reflexivity. Qed.

Lemma inert_forEach {A} (l : list A) (body : A -> M unit) :
  (forall x, In x l -> inert (body x)) -> inert (forEach l body).
Proof.
  intros H. induction l as [| x l IH]; intros w; cbn [forEach];
    [reflexivity |].
  unfold bind. pose proof (H x (or_introl eq_refl) w) as Hx.
  destruct (body x w) as [[[] | e] w1]; cbn [snd] in Hx; subst.
  - apply IH. intros y Hy. apply H. right. exact Hy.
  - reflexivity.
Qed.

End Triples.

(* ===================================================================== *)
(** * What a round of [validate] leaves running *)
(* ===================================================================== *)

Section Engines.

Import SyncValidate.

(** Handles in use are below the next handle. *)
Definition fresh (w : World) : Prop :=
  Forall (fun b => b < next_id w) (browsers w)
  /\ Forall (fun bp => fst bp < next_id w /\ snd bp < next_id w) (pages w)
  /\ Forall (fun s => s < next_id w) (servers w).

(** The engines, page contexts and servers of [w] are those of [w0]. *)
Definition nothing_started (w0 w : World) : Prop :=
  browsers w = browsers w0 /\ pages w = pages w0 /\ servers w = servers w0.

(** Besides what [w0] had, the server started from [w0] is running. *)
Definition server_running (w0 w : World) : Prop :=
  browsers w = browsers w0 /\ pages w = pages w0
  /\ servers w = next_id w0 :: servers w0.

(** Besides what [w0] had, the server and the engine started from [w0]
    are running, with some page contexts of that engine. *)
Definition engine_running (w0 w : World) : Prop :=
  browsers w = S (next_id w0) :: browsers w0
  /\ servers w = next_id w0 :: servers w0
  /\ exists extra,
       pages w = extra ++ pages w0
       /\ Forall (fun bp => fst bp = S (next_id w0)) extra.

(** The errors of the checks of a single Route. *)
Definition route_error (e : Error) : bool :=
  match e with
  | NavigationFailed _ | AxeViolations _ | DomDiffOn _
  | ImageSizesDoNotMatch | VisualDiffOn _ _
  | LighthouseError _ | LighthouseFailedOn _ => true
  | _ => false
  end.

Lemma filter_pages_snd (n : nat) (l : list (nat * nat)) :
  Forall (fun bp => snd bp < n) l ->
  filter (fun bp : nat * nat => negb (snd bp =? n)) l = l.
Proof.
  intros H. induction H as [| x l Hx _ IH]; [reflexivity |].
  cbn [filter]. replace (snd x =? n) with false
    by (symmetry; apply Nat.eqb_neq; lia).
  cbn [negb]. rewrite IH. reflexivity.
Qed.

Lemma filter_pages_fst (n : nat) (l : list (nat * nat)) :
  Forall (fun bp => fst bp < n) l ->
  filter (fun bp : nat * nat => negb (fst bp =? n)) l = l.
Proof.
  intros H. induction H as [| x l Hx _ IH]; [reflexivity |].
  cbn [filter]. replace (fst x =? n) with false
    by (symmetry; apply Nat.eqb_neq; lia).
  cbn [negb]. rewrite IH. reflexivity.
Qed.

Lemma filter_pages_of (n : nat) (l : list (nat * nat)) :
  Forall (fun bp => fst bp = n) l ->
  filter (fun bp : nat * nat => negb (fst bp =? n)) l = [].
Proof.
  intros H. induction H as [| x l Hx _ IH]; [reflexivity |].
  cbn [filter]. rewrite Hx, Nat.eqb_refl. cbn [negb]. exact IH.
Qed.

Lemma filter_handles (n : nat) (l : list nat) :
  Forall (fun x => x < n) l ->
  filter (fun x => negb (x =? n)) l = l.
Proof.
  intros H. induction H as [| x l Hx _ IH]; [reflexivity |].
  cbn [filter]. replace (x =? n) with false
    by (symmetry; apply Nat.eqb_neq; lia).
  cbn [negb]. rewrite IH. reflexivity.
Qed.

Variable env : Env.
Variable w0 : World.
Hypothesis w0_fresh : fresh w0.

(** While the Routes are checked: the server and the engine run, and no
    page context of the engine is open. *)
Definition between_routes (w : World) : Prop :=
  browsers w = S (next_id w0) :: browsers w0
  /\ servers w = next_id w0 :: servers w0
  /\ pages w = pages w0
  /\ S (S (next_id w0)) <= next_id w.

(** Where a failing round stops, by its error: nothing is started when
    the artifact directory is missing or one of the checkers of the
    whole tree fails; the server runs when the accessibility command of
    a Route fails or the engine does not start; the server and the
    engine run when the link checker fails or a check of a Route in the
    engine does. *)
Definition stopped (e : Error) (w : World) : Prop :=
  match e with
  | NoSuchFile _ => nothing_started w0 w
  | CommandFailed cmd =>
      if String.prefix "npx pa11y " cmd then server_running w0 w
      else if String.prefix "npx blc " cmd then engine_running w0 w
      else nothing_started w0 w
  | LaunchFailed => server_running w0 w
  | _ => route_error e = true /\ engine_running w0 w
  end.

Lemma pages_w0_snd (n : nat) :
  next_id w0 <= n -> Forall (fun bp : nat * nat => snd bp < n) (pages w0).
Proof.
  intros Hn. destruct w0_fresh as [_ [Hp _]].
  eapply Forall_impl; [| exact Hp]. cbv beta. intros bp [_ H]. lia.
Qed.

Lemma pages_w0_fst (n : nat) :
  next_id w0 <= n -> Forall (fun bp : nat * nat => fst bp < n) (pages w0).
Proof.
  intros Hn. destruct w0_fresh as [_ [Hp _]].
  eapply Forall_impl; [| exact Hp]. cbv beta. intros bp [H _]. lia.
Qed.

Lemma between_routes_running (w : World) :
  between_routes w -> engine_running w0 w.
Proof.
  intros [Hb [Hs [Hp _]]]. split; [exact Hb |]. split; [exact Hs |].
  exists []. split; [exact Hp | constructor].
Qed.

Lemma axeRoute_between (r : string) :
  triple between_routes (axeRoute env (S (next_id w0)) r)
    (fun _ => between_routes) stopped.
Proof.
  intros w [Hb [Hs [Hp Hn]]].
  unfold axeRoute, bind, newPage, goto, closePage.
  assert (Hleak : engine_running w0
            (mkWorld (disk w) (browsers w)
               ((S (next_id w0), next_id w) :: pages w) (servers w)
               (S (next_id w)) (console w))).
  { split; [exact Hb |]. split; [exact Hs |].
    exists [(S (next_id w0), next_id w)]. cbn [pages app]. rewrite Hp.
    split; [reflexivity |]. constructor; [reflexivity | constructor]. }
  destruct (nav_ok env (local_url r)); cbn [negb]; unfold ret, throw.
  - destruct (negb (axe_violations env (local_url r) =? 0)).
    + split; [reflexivity | exact Hleak].
    + cbn [pages filter snd disk browsers servers next_id console].
      rewrite Nat.eqb_refl. cbn [negb].
      rewrite Hp, (filter_pages_snd (next_id w)) by (apply pages_w0_snd; lia).
      repeat split; cbn [browsers servers pages next_id];
        try assumption; lia.
  - split; [reflexivity | exact Hleak].
Qed.

Lemma diffRoute_between (r : string) :
  triple between_routes (diffRoute env (S (next_id w0)) r)
    (fun _ => between_routes) stopped.
Proof.
  intros w [Hb [Hs [Hp Hn]]]. rewrite diffRoute_eq. cbv zeta.
  assert (Hone : engine_running w0 (snd (newPage (S (next_id w0)) w))).
  { split; [exact Hb |]. split; [exact Hs |].
    exists [(S (next_id w0), next_id w)]. cbn [newPage snd pages app].
    rewrite Hp. split; [reflexivity |].
    constructor; [reflexivity | constructor]. }
  assert (Htwo : forall d,
            engine_running w0
              (mkWorld d (browsers w)
                 ((S (next_id w0), S (next_id w))
                  :: (S (next_id w0), next_id w) :: pages w) (servers w)
                 (S (S (next_id w))) (console w))).
  { intros d. split; [exact Hb |]. split; [exact Hs |].
    exists [(S (next_id w0), S (next_id w)); (S (next_id w0), next_id w)].
    cbn [pages app]. rewrite Hp. split; [reflexivity |].
    repeat constructor. }
  destruct (negb (nav_ok env (local_url r)));
    [split; [reflexivity | exact Hone] |].
  destruct (negb (nav_ok env (live_url r)));
    [split; [reflexivity | apply Htwo] |].
  destruct (domDiffFails _ _); [split; [reflexivity | apply Htwo] |].
  destruct (negb (sizes_ok_of env r)); [split; [reflexivity | apply Htwo] |].
  destruct (Num.gtb _ _); [split; [reflexivity | apply Htwo] |].
  unfold closePage, writeFile, newPage.
  cbn [snd fst pages filter disk browsers servers next_id console].
  replace (S (next_id w) =? next_id w) with false
    by (symmetry; apply Nat.eqb_neq; lia).
  rewrite !Nat.eqb_refl. cbn [negb filter snd]. rewrite Nat.eqb_refl.
  cbn [negb].
  rewrite Hp, (filter_pages_snd (next_id w)) by (apply pages_w0_snd; lia).
  rewrite (filter_pages_snd (S (next_id w))) by (apply pages_w0_snd; lia).
  repeat split; cbn [browsers servers pages next_id]; try assumption; lia.
Qed.

Lemma lighthouseRoute_between (r : string) :
  triple between_routes (lighthouseRoute env r)
    (fun _ => between_routes) stopped.
Proof.
  intros w Hw. unfold lighthouseRoute, bind, orThrow.
  destruct (lighthouse env (local_url r)) as [lhr |]; unfold ret, throw.
  - destruct (_ || _); [| exact Hw].
    split; [reflexivity | apply between_routes_running; exact Hw].
  - split; [reflexivity | apply between_routes_running; exact Hw].
Qed.

(** A command of the round that fails, with what runs then. *)
Lemma run_stage (P : World -> Prop) (cmd : string) :
  (forall w, P w -> stopped (CommandFailed cmd) w) ->
  triple P (run env cmd) (fun _ => P) stopped.
Proof.
  intros HP w Hw. unfold run.
  destruct (exec_ok env cmd); unfold ret, throw; [exact Hw |].
  apply HP. exact Hw.
Qed.

(** The whole round, from [w0]. *)
Lemma validate_stops (routes : list string) :
  triple (fun w => w = w0) (validate env routes)
    (fun _ => nothing_started w0) stopped.
Proof.
  assert (Hidle : forall w, w = w0 -> nothing_started w0 w).
  { intros w ->. repeat split. }
  pose (serving := fun w : World =>
          server_running w0 w /\ next_id w = S (next_id w0)).
  unfold validate.
  apply (triple_bind _ _ _ (fun _ w => w = w0)).
  { intros w ->. unfold walk.
    destruct (files_below (DIST_DIR env) (disk w0)); [| reflexivity].
    repeat split. }
  intros htmlFiles. cbv zeta.
  apply (triple_bind _ _ _ (fun _ w => w = w0)).
  { apply triple_forEach. intros f _. apply run_stage. exact Hidle. }
  intros _. apply (triple_bind _ _ _ (fun _ w => w = w0));
    [apply run_stage; exact Hidle |].
  intros _. apply (triple_bind _ _ _ (fun _ w => w = w0));
    [apply run_stage; exact Hidle |].
  intros _. apply (triple_bind _ _ _ (fun _ w => w = w0));
    [apply run_stage; exact Hidle |].
  intros _.
  apply (triple_bind _ _ _ (fun s w => s = next_id w0 /\ serving w)).
  { intros w ->. unfold spawnServer. repeat split. }
  intros server.
  apply (triple_bind _ _ _ (fun _ w => server = next_id w0 /\ serving w)).
  { intros w [Hs Hw].
    assert (Hpa11y : forall r w1,
              serving w1 ->
              stopped (CommandFailed ("npx pa11y " ++ local_url r)) w1).
    { intros r w1 [H _]. exact H. }
    pose proof (triple_forEach serving routes
                  (fun r => run env ("npx pa11y " ++ local_url r)) stopped
                  (fun r _ => run_stage serving _ (Hpa11y r)) w Hw) as H.
    destruct (forEach routes _ w) as [[[] | e] w1]; [split |]; assumption. }
  intros _.
  apply (triple_bind _ _ _
           (fun b w => server = next_id w0 /\ b = S (next_id w0)
                       /\ between_routes w)).
  { intros w [Hs [[Hb [Hp Hsv]] Hn]]. unfold launch.
    destruct (launch_ok env).
    - unfold between_routes. cbn [browsers servers pages next_id].
      rewrite Hb, Hp, Hsv, Hn. repeat split; try assumption; lia.
    - repeat split; assumption. }
  intros browser.
  apply (triple_bind _ _ _
           (fun _ w => server = next_id w0 /\ browser = S (next_id w0)
                       /\ between_routes w)).
  { intros w [Hs [Hb Hw]]. subst browser.
    pose proof (triple_forEach between_routes routes
                  (axeRoute env (S (next_id w0))) stopped
                  (fun r _ => axeRoute_between r) w Hw) as H.
    destruct (forEach routes _ w) as [[[] | e] w1];
      [refine (conj _ (conj _ _)); try reflexivity |]; assumption. }
  intros _.
  apply (triple_bind _ _ _
           (fun _ w => server = next_id w0 /\ browser = S (next_id w0)
                       /\ between_routes w)).
  { intros w [Hs [Hb Hw]]. unfold run.
    destruct (exec_ok env _); unfold ret, throw;
      [refine (conj _ (conj _ _)); assumption |].
    apply between_routes_running. exact Hw. }
  intros _.
  apply (triple_bind _ _ _
           (fun _ w => server = next_id w0 /\ browser = S (next_id w0)
                       /\ between_routes w)).
  { intros w [Hs [Hb Hw]]. subst browser.
    pose proof (triple_forEach between_routes routes
                  (diffRoute env (S (next_id w0))) stopped
                  (fun r _ => diffRoute_between r) w Hw) as H.
    destruct (forEach routes _ w) as [[[] | e] w1];
      [refine (conj _ (conj _ _)); try reflexivity |]; assumption. }
  intros _.
  apply (triple_bind _ _ _
           (fun _ w => server = next_id w0 /\ browser = S (next_id w0)
                       /\ between_routes w)).
  { intros w [Hs [Hb Hw]].
    pose proof (triple_forEach between_routes routes
                  (lighthouseRoute env) stopped
                  (fun r _ => lighthouseRoute_between r) w Hw) as H.
    destruct (forEach routes _ w) as [[[] | e] w1];
      [refine (conj _ (conj _ _)); try reflexivity |]; assumption. }
  intros _ w [Hs [Hb [Hbr [Hsv [Hp Hn]]]]]. subst server browser.
  unfold bind, closeBrowser, killServer.
  cbn [browsers servers pages next_id disk console].
  rewrite Hbr, Hsv, Hp. cbn [filter]. rewrite !Nat.eqb_refl. cbn [negb].
  destruct w0_fresh as [HB [HP HS]].
  rewrite filter_handles
    by (eapply Forall_impl; [| exact HB]; cbv beta; intros; lia).
  rewrite filter_handles by exact HS.
  rewrite filter_pages_fst by (apply pages_w0_fst; lia).
  repeat split.
Qed.

(** X1.  A passing round of [validate] stops the server and the engine it
    started and closes every page context it opened: the engines, page
    contexts and servers are those it found. *)
Theorem passing_round_releases_everything (routes : list string)
    (w' : World) :
  validate env routes w0 = (Ret tt, w') -> nothing_started w0 w'.
Proof.
  intros H. pose proof (validate_stops routes w0 eq_refl) as Hs.
  rewrite H in Hs. exact Hs.
Qed.

(** X2.  A failing round of [validate] stops nothing of what it
    started, and its error tells where it stopped.  Nothing is started
    when the artifact directory is missing or a checker of the whole
    tree fails (markup validator, style linter, script linter, spell
    checker).  The server is left running when the accessibility
    command of a Route fails, which is run before the engine is
    started, or when the engine does not start.  The server and the
    engine are both left running when the link checker fails or a
    Route fails a check made in the engine (navigation, audit
    violations, structural or visual mismatch, performance). *)
Theorem failing_round_stops_nothing (routes : list string) (e : Error)
    (w' : World) :
  validate env routes w0 = (Throw e, w') ->
  match e with
  | NoSuchFile _ => nothing_started w0 w'
  | CommandFailed cmd =>
      if String.prefix "npx pa11y " cmd then server_running w0 w'
      else if String.prefix "npx blc " cmd then engine_running w0 w'
      else nothing_started w0 w'
  | LaunchFailed => server_running w0 w'
  | _ => route_error e = true /\ engine_running w0 w'
  end
  /\ (nothing_started w0 w' \/ server_running w0 w' \/ engine_running w0 w')
  /\ (route_error e = true -> engine_running w0 w').
Proof.
  intros H. pose proof (validate_stops routes w0 eq_refl) as Hs.
  rewrite H in Hs. split; [exact Hs |]. unfold stopped in Hs.
  destruct e; cbn [route_error];
    try (destruct Hs as [Hr Hs]; split; [right; right; exact Hs |];
         intros _; exact Hs);
    try (split; [| discriminate]).
  all: try (left; exact Hs).
  all: try (right; left; exact Hs).
  destruct (String.prefix "npx pa11y " cmd); [right; left; exact Hs |].
  destruct (String.prefix "npx blc " cmd);
    [right; right; exact Hs | left; exact Hs].
Qed.

End Engines.

Section EnginesRuns.

Import SyncValidate.

(** The working directory of [Samples.site] with an engine, a page
    context and a server of somebody else. *)
Definition shared : World :=
  mkWorld (disk Samples.site) [0] [(0, 1)] [2] 3 [].

Lemma passing_round_releases_everything_witness :
  fresh shared
  /\ nothing_started shared
       (snd (validate Samples.calm ["about-us"] shared)).
Proof.
  assert (Hf : fresh shared).
  { unfold fresh, shared. cbn [browsers pages servers next_id].
    repeat constructor. }
  split; [exact Hf |].
  apply (passing_round_releases_everything Samples.calm shared Hf
           ["about-us"]).
  vm_compute. reflexivity.
Defined.

(** The accessibility command fails on every Route. *)
Definition inaccessible : Env :=
  Samples.with_exec_ok Samples.calm
    (fun cmd => negb (String.prefix "npx pa11y " cmd)).

Lemma failing_round_stops_nothing_witness :
  fresh shared
  /\ fst (validate inaccessible ["about-us"] shared)
     = Throw (CommandFailed "npx pa11y http://localhost:3000/about-us")
  /\ server_running shared (snd (validate inaccessible ["about-us"] shared)).
Proof.
  assert (Hf : fresh shared).
  { unfold fresh, shared. cbn [browsers pages servers next_id].
    repeat constructor. }
  split; [exact Hf |]. split; [vm_compute; reflexivity |].
  exact (proj1 (failing_round_stops_nothing inaccessible shared Hf
                  ["about-us"]
                  (CommandFailed "npx pa11y http://localhost:3000/about-us")
                  (snd (validate inaccessible ["about-us"] shared))
                  ltac:(vm_compute; reflexivity))).
Defined.

(** The same round on the site whose live page has lost its content
    region: the structural check fails in the engine. *)
Example failing_route_leaves_engine :
  fst (validate gutted ["about-us"] shared) = Throw (DomDiffOn "about-us")
  /\ browsers (snd (validate gutted ["about-us"] shared)) = [4; 0]
  /\ servers (snd (validate gutted ["about-us"] shared)) = [3; 2].
Proof. vm_compute. repeat split. Qed.

End EnginesRuns.

(* ===================================================================== *)
(** * One engine among the handles of a world *)
(* ===================================================================== *)

Section Stages.

(** The engines, page contexts and servers that stay as they are while
    an engine is started, used and closed; every handle among them is
    below [n]. *)
Variable B : list nat.
Variable Pg : list (nat * nat).
Variable Sv : list nat.
Variable n : nat.
Hypothesis B_below : Forall (fun b => b < n) B.
Hypothesis Pg_below : Forall (fun bp => fst bp < n /\ snd bp < n) Pg.

(** No engine of a stage is running. *)
Definition at_rest (w : World) : Prop :=
  browsers w = B /\ pages w = Pg /\ servers w = Sv /\ n <= next_id w.

(** The engine [b] of a stage is running, with some page contexts of
    its own. *)
Definition engine_open (b : nat) (w : World) : Prop :=
  browsers w = b :: B /\ servers w = Sv /\ n <= b /\ b < next_id w
  /\ exists extra,
       pages w = extra ++ Pg
       /\ Forall (fun bp => fst bp = b /\ snd bp < next_id w) extra.

Lemma engine_open_newPage (b : nat) (w : World) (d : list (string * Content)) :
  engine_open b w ->
  engine_open b
    (mkWorld d (browsers w) ((b, next_id w) :: pages w) (servers w)
       (S (next_id w)) (console w)).
Proof.
  intros [Hb [Hs [Hn [Hlt [extra [Hp Hex]]]]]].
  unfold engine_open. cbn [browsers servers pages next_id].
  repeat (split; [assumption || lia |]).
  exists ((b, next_id w) :: extra). rewrite Hp. split; [reflexivity |].
  constructor; [cbn [fst snd]; split; [reflexivity | lia] |].
  eapply Forall_impl; [| exact Hex]. cbv beta. intros bp [H1 H2].
  split; [exact H1 | lia].
Qed.

Lemma engine_open_closed (b : nat) (w : World) (d : list (string * Content)) :
  engine_open b w ->
  engine_open b
    (mkWorld d (browsers w)
       (filter (fun bp => negb (snd bp =? next_id w))
          ((b, next_id w) :: pages w))
       (servers w) (S (next_id w)) (console w)).
Proof.
  intros [Hb [Hs [Hn [Hlt [extra [Hp Hex]]]]]].
  unfold engine_open. cbn [browsers servers pages next_id].
  repeat (split; [assumption || lia |]).
  exists extra. cbn [filter snd]. rewrite Nat.eqb_refl. cbn [negb].
  rewrite Hp, filter_pages_snd.
  - split; [reflexivity |].
    eapply Forall_impl; [| exact Hex]. cbv beta. intros bp [H1 H2].
    split; [exact H1 | lia].
  - apply Forall_app. split.
    + eapply Forall_impl; [| exact Hex]. cbv beta. intros bp [_ H]. exact H.
    + eapply Forall_impl; [| exact Pg_below]. cbv beta. intros bp [_ H]. lia.
Qed.

Lemma engine_open_closeBrowser (b : nat) (w : World) :
  engine_open b w -> at_rest (snd (closeBrowser b w)).
Proof.
  intros [Hb [Hs [Hn [Hlt [extra [Hp Hex]]]]]].
  unfold at_rest, closeBrowser. cbn [snd browsers servers pages next_id].
  rewrite Hb, Hp. cbn [filter]. rewrite Nat.eqb_refl. cbn [negb].
  rewrite filter_app, filter_pages_of, filter_pages_fst, filter_handles.
  - repeat split; try assumption. lia.
  - eapply Forall_impl; [| exact B_below]. cbv beta. intros. lia.
  - eapply Forall_impl; [| exact Pg_below]. cbv beta. intros bp [H _]. lia.
  - eapply Forall_impl; [| exact Hex]. cbv beta. intros bp [H _]. exact H.
Qed.

End Stages.

(* ===================================================================== *)
(** * The validation phase of the fix-and-validate script *)
(* ===================================================================== *)

Section Phase.

Import FixValidate.

(** A computation that returns from every world and leaves it as it
    is. *)
Definition settled {A} (c : M A) : Prop :=
  forall w, exists a, c w = (Ret a, w).

Lemma settled_ret {A} (a : A) : settled (ret a).
Proof. intros w. exists a. reflexivity. Qed.

Lemma forEachR_settled {A} (l : list A) (body : Results -> A -> M Results) :
  (forall res x, settled (body res x)) ->
  forall res, settled (forEachR l body res).
Proof.
  intros H. induction l as [| x l IH]; intros res w; cbn [forEachR].
  - exists res. reflexivity.
  - unfold bind. destruct (H res x w) as [r Hr]. rewrite Hr. apply IH.
Qed.

Lemma runHtmlValidator_settled (env : Env) (files : Files)
    (results : Results) :
  settled (runHtmlValidator env files results).
Proof.
  apply forEachR_settled. intros res x. apply settled_ret.
Qed.

Lemma validationPhase_throws (env : Env) (files : Files)
    (pageList : list string) (w : World) :
  validationPhase env files pageList w = (Throw (ReferenceError "stderr"), w).
Proof.
  unfold validationPhase. cbv zeta. unfold bind at 1.
  destruct (runHtmlValidator_settled env files empty_results w) as [r Hr].
  rewrite Hr. reflexivity.
Qed.

(** X9.  The validation phase as it is stored never returns: after the
    markup validator, the style check reads the name [stderr], which
    nothing declares, and the phase throws the reference error before
    the server is started, leaving the world as it found it.  So the
    script never gets past its first attempt: an error of the file
    discovery or of the repair leaves the script, and otherwise the
    reference error does, in the world that the first repair left; no
    exit code is returned. *)
Theorem validationPhase_ends_in_style_check :
  (forall env files pageList w,
     validationPhase env files pageList w
     = (Throw (ReferenceError "stderr"), w))
  /\ (forall envs w,
        match discoverFiles (cwd (envs 0)) w with
        | (Throw e, w1) => main envs w = (Throw e, w1)
        | (Ret files, w1) =>
            match fixPhase (envs 1) files w1 with
            | (Throw e, w2) => main envs w = (Throw e, w2)
            | (Ret _, w2) =>
                main envs w = (Throw (ReferenceError "stderr"), w2)
            end
        end)
  /\ (forall envs w code, fst (main envs w) <> Ret code).
Proof.
  assert (Hmain : forall envs w,
            match discoverFiles (cwd (envs 0)) w with
            | (Throw e, w1) => main envs w = (Throw e, w1)
            | (Ret files, w1) =>
                match fixPhase (envs 1) files w1 with
                | (Throw e, w2) => main envs w = (Throw e, w2)
                | (Ret _, w2) =>
                    main envs w = (Throw (ReferenceError "stderr"), w2)
                end
            end).
  { intros envs w.
    destruct (discoverFiles (cwd (envs 0)) w) as [[files | e] w1] eqn:Ed.
    - destruct (fixPhase (envs 1) files w1) as [[[] | e] w2] eqn:Ef;
        unfold main, bind at 1; rewrite Ed;
        unfold MAX_ATTEMPTS; cbn [attempts]; unfold bind at 1; rewrite Ef;
        [| reflexivity].
      unfold bind at 1. rewrite validationPhase_throws. reflexivity.
    - unfold main, bind at 1. rewrite Ed. reflexivity. }
  split; [exact validationPhase_throws |]. split; [exact Hmain |].
  intros envs w code Hcode. specialize (Hmain envs w).
  destruct (discoverFiles (cwd (envs 0)) w) as [[files | e] w1].
  - destruct (fixPhase (envs 1) files w1) as [[[] | e] w2];
      rewrite Hmain in Hcode; discriminate Hcode.
  - rewrite Hmain in Hcode. discriminate Hcode.
Qed.

End Phase.

(* ===================================================================== *)
(** * A run of the visual regression test *)
(* ===================================================================== *)

Section TestRun.

Variable env : Env.

(** Both navigations of a page succeed. *)
Definition reachable (pagePath : string) : bool :=
  nav_ok env (VisualRegression.local_url pagePath)
  && nav_ok env (VisualRegression.live_url pagePath).

(** The pages the loop gets through: those before the first page that
    cannot be reached. *)
Fixpoint visited (l : list string) : list string :=
  match l with
  | [] => []
  | pagePath :: rest =>
      if reachable pagePath then pagePath :: visited rest else []
  end.

(** An entry of the results of the test for a page: its verdict is the
    threshold test on its percentage. *)
Definition entry_of (pagePath : string) (d : Diag) : Prop :=
  exists diffPixels diffPercent,
    d = DVisualResult pagePath diffPixels diffPercent
          (Num.leb diffPercent VisualRegression.threshold).

Lemma visited_all (l : list string) :
  forallb reachable l = true -> visited l = l.
Proof.
  induction l as [| p l IH]; [reflexivity |].
  cbn [forallb visited]. intros H. apply andb_true_iff in H.
  destruct H as [Hp Hl]. rewrite Hp, (IH Hl). reflexivity.
Qed.

Lemma checkPage_verdict (b : nat) (pagePath : string) (w : World) :
  match VisualRegression.checkPage env b pagePath w with
  | (Ret d, w') =>
      reachable pagePath = true /\ entry_of pagePath d /\ disk w' = disk w
  | (Throw e, w') => reachable pagePath = false /\ disk w' = disk w
  end.
Proof.
  unfold VisualRegression.checkPage, reachable, bind, newPage, goto.
  destruct (nav_ok env (VisualRegression.local_url pagePath));
    unfold ret, throw; cbn [andb];
    [| split; reflexivity].
  destruct (nav_ok env (VisualRegression.live_url pagePath));
    [| split; reflexivity].
  unfold closePage. cbn [disk browsers pages servers next_id console].
  match goal with
  | |- context [VisualRegression.compare env ?a ?c ?w1] =>
      destruct (compare_pads env a c w1)
        as [p1 [p2 [_ [_ [_ [_ [_ [_ [_ [_ Hc]]]]]]]]]];
      cbv zeta in Hc; rewrite Hc
  end.
  unfold log. split; [reflexivity |].
  split; [eexists; eexists; reflexivity | reflexivity].
Qed.

(** The loop records one entry per visited page, stops at the first
    page that cannot be reached, and writes no file. *)
Lemma pageLoop_verdicts (b : nat) (l : list string) :
  forall (results : list Diag) (w : World),
    exists entries e,
      fst (VisualRegression.pageLoop env b l results w)
      = (results ++ entries, if forallb reachable l then None else Some e)
      /\ Forall2 entry_of (visited l) entries
      /\ disk (snd (VisualRegression.pageLoop env b l results w)) = disk w.
Proof.
  induction l as [| p l IH]; intros results w; cbn [VisualRegression.pageLoop].
  - exists [], LaunchFailed. rewrite app_nil_r.
    split; [reflexivity |]. split; [constructor | reflexivity].
  - pose proof (checkPage_verdict b p w) as Hp.
    destruct (VisualRegression.checkPage env b p w) as [[d | e] w1].
    + destruct Hp as [Hr [Hd Hdisk]].
      destruct (IH (results ++ [d]) w1) as [entries [e [Hl [Hv Hk]]]].
      exists (d :: entries), e. cbn [forallb visited]. rewrite Hr, Hl.
      cbn [andb]. rewrite <- app_assoc. cbn [app].
      split; [reflexivity |]. split; [constructor; assumption |].
      congruence.
    + destruct Hp as [Hr Hdisk].
      exists [], e. cbn [forallb visited fst snd]. rewrite Hr, app_nil_r.
      cbn [andb]. split; [reflexivity |]. split; [constructor | exact Hdisk].
Qed.

(** The worlds the loop goes through differ in the page contexts of the
    engine, the handles drawn and the console. *)
Variable B : list nat.
Variable Pg : list (nat * nat).
Variable Sv : list nat.
Variable n : nat.
Hypothesis Pg_below : Forall (fun bp => fst bp < n /\ snd bp < n) Pg.

Lemma checkPage_engine (b : nat) (pagePath : string) (w : World) :
  engine_open B Pg Sv n b w ->
  engine_open B Pg Sv n b (snd (VisualRegression.checkPage env b pagePath w)).
Proof.
  intros Hw. unfold VisualRegression.checkPage, bind, newPage, goto.
  destruct (nav_ok env (VisualRegression.local_url pagePath));
    unfold ret, throw;
    [| apply engine_open_newPage; exact Hw].
  destruct (nav_ok env (VisualRegression.live_url pagePath));
    [| apply engine_open_newPage; exact Hw].
  unfold closePage. cbn [disk browsers pages servers next_id console].
  match goal with
  | |- context [VisualRegression.compare env ?a ?c ?w1] =>
      destruct (compare_pads env a c w1)
        as [p1 [p2 [_ [_ [_ [_ [_ [_ [_ [_ Hc]]]]]]]]]];
      cbv zeta in Hc; rewrite Hc
  end.
  unfold log. cbn [snd].
  apply (engine_open_closed B Pg Sv n Pg_below b w (disk w)) in Hw.
  exact Hw.
Qed.

Lemma pageLoop_engine (b : nat) (l : list string) :
  forall (results : list Diag) (w : World),
    engine_open B Pg Sv n b w ->
    engine_open B Pg Sv n b (snd (VisualRegression.pageLoop env b l results w)).
Proof.
  induction l as [| p l IH]; intros results w Hw;
    cbn [VisualRegression.pageLoop].
  - exact Hw.
  - pose proof (checkPage_engine b p w Hw) as Hp.
    destruct (VisualRegression.checkPage env b p w) as [[d | e] w1];
      cbn [snd] in Hp.
    + apply IH. exact Hp.
    + exact Hp.
Qed.

End TestRun.

Section TestOutcome.

Variable env : Env.
Variable pageList : list string.
Variable w0 : World.

(** The file the test writes its results to. *)
Definition resultsPath : string :=
  JS.path_join (resolve env "reports") "visual-diffs.json".

(** X18.  The exit code of the test tells whether a page could not be
    reached, and nothing else: it is never set because a page differs.  The
    results file holds one entry per visited page, whose verdict is the
    threshold test on its percentage. *)
Theorem test_exit_code_ignores_verdicts :
  launch_ok env = true ->
  exists entries w',
    VisualRegression.main env pageList w0
    = (Ret (if forallb (reachable env) pageList then None else Some 1), w')
    /\ Forall2 entry_of (visited env pageList) entries
    /\ lookup_file resultsPath (disk w') = Some (ResultList entries).
Proof.
  intros Hl. unfold VisualRegression.main, bind at 1, spawnServer.
  unfold bind at 1, launch. rewrite Hl.
  cbn [disk browsers pages servers next_id console].
  match goal with
  | |- context [VisualRegression.pageLoop env ?b pageList [] ?w] =>
      destruct (pageLoop_verdicts env b pageList [] w)
        as [entries [e [Hloop [Hv Hd]]]];
      destruct (VisualRegression.pageLoop env b pageList [] w)
        as [[results err] w1]
  end.
  cbn [fst snd app] in Hloop, Hd. inversion Hloop; subst results err.
  clear Hloop. exists entries.
  destruct (forallb (reachable env) pageList).
  - eexists. unfold bind, closeBrowser, killServer, ret.
    split; [destruct (negb _); reflexivity |].
    split; [exact Hv | apply lookup_written].
  - eexists. unfold bind, closeBrowser, killServer, ret.
    split; [destruct (negb _); reflexivity |].
    split; [exact Hv | apply lookup_written].
Qed.

Hypothesis w0_fresh : fresh w0.

(** X19.  The test stops its engine and its server whatever happens in the
    page loop; only an engine that does not start, before the loop, leaves
    the server listening. *)
Theorem test_releases_engine_and_server :
  match VisualRegression.main env pageList w0 with
  | (Ret _, w') => launch_ok env = true /\ nothing_started w0 w'
  | (Throw e, w') =>
      launch_ok env = false /\ e = LaunchFailed /\ server_running w0 w'
  end.
Proof.
  unfold VisualRegression.main, bind at 1, spawnServer.
  unfold bind at 1, launch.
  destruct (launch_ok env);
    [| split; [reflexivity |]; split; [reflexivity |]; repeat split].
  cbn [disk browsers pages servers next_id console].
  assert (HB : Forall (fun b => b < S (next_id w0)) (browsers w0)).
  { destruct w0_fresh as [H _]. eapply Forall_impl; [| exact H].
    cbv beta. intros. lia. }
  assert (HP : Forall (fun bp => fst bp < S (next_id w0)
                                 /\ snd bp < S (next_id w0)) (pages w0)).
  { destruct w0_fresh as [_ [H _]]. eapply Forall_impl; [| exact H].
    cbv beta. intros bp [H1 H2]. lia. }
  match goal with
  | |- context [VisualRegression.pageLoop env ?b pageList [] ?w] =>
      pose proof (pageLoop_engine env (browsers w0) (pages w0)
                    (next_id w0 :: servers w0) (S (next_id w0)) HP
                    b pageList [] w) as Hloop;
      destruct (VisualRegression.pageLoop env b pageList [] w)
        as [[results err] w1]
  end.
  cbn [snd] in Hloop.
  assert (Hw1 : engine_open (browsers w0) (pages w0)
                  (next_id w0 :: servers w0) (S (next_id w0))
                  (S (next_id w0)) w1).
  { apply Hloop. unfold engine_open.
    cbn [browsers pages servers next_id].
    repeat (split; [reflexivity || lia |]).
    exists []. split; [reflexivity | constructor]. }
  clear Hloop.
  assert (Hend : forall w2 : World,
            engine_open (browsers w0) (pages w0)
              (next_id w0 :: servers w0) (S (next_id w0))
              (S (next_id w0)) w2 ->
            forall code : option nat,
              match
                (closeBrowser (S (next_id w0)) ;;
                 killServer (next_id w0) ;;
                 writeFile
                   (JS.path_join (resolve env "reports") "visual-diffs.json")
                   (ResultList results) ;;
                 ret code)%M w2
              with
              | (Ret _, w') => true = true /\ nothing_started w0 w'
              | (Throw e, w') =>
                  true = false /\ e = LaunchFailed /\ server_running w0 w'
              end).
  { intros w2 Hw2 code.
    pose proof (engine_open_closeBrowser (browsers w0) (pages w0)
                  (next_id w0 :: servers w0) (S (next_id w0)) HB HP
                  (S (next_id w0)) w2 Hw2) as [Hb [Hp [Hs _]]].
    unfold bind, killServer, writeFile, ret, closeBrowser in *.
    cbn [snd browsers pages servers] in *.
    unfold nothing_started. cbn [browsers pages servers].
    rewrite Hb, Hp, Hs. cbn [filter]. rewrite Nat.eqb_refl. cbn [negb].
    destruct w0_fresh as [_ [_ HS]]. rewrite filter_handles by exact HS.
    repeat split. }
  destruct err as [e |]; cbv zeta iota beta.
  - apply Hend. exact Hw1.
  - apply Hend. exact Hw1.
Qed.

End TestOutcome.

Section TestComparison.

(** X21.  The comparison of the test never throws, whatever the sizes of the
    two screenshots: both are padded onto the canvas of the maximal width
    and height, the buffers handed to [pixelmatch] have the size of that
    canvas, and the verdict is the threshold test on the percentage of
    differing pixels on that canvas. *)
Theorem test_comparison_never_throws (env : Env)
    (localPNG livePNG : Image.PNG) (w : World) :
  let width := Nat.max (Image.width localPNG) (Image.width livePNG) in
  let height := Nat.max (Image.height localPNG) (Image.height livePNG) in
  exists localPadded livePadded,
    VisualRegression.pad localPNG width height = Some localPadded
    /\ VisualRegression.pad livePNG width height = Some livePadded
    /\ Image.well_formed localPadded /\ Image.well_formed livePadded
    /\ Image.width localPadded = width /\ Image.height localPadded = height
    /\ Image.width livePadded = width /\ Image.height livePadded = height
    /\ let diffPixels :=
         pm_count env (Image.data localPadded) (Image.data livePadded)
           width height in
       let diffPercent :=
         Num.times (Num.div diffPixels (width * height)) 100 in
       VisualRegression.compare env localPNG livePNG w
       = (Ret (diffPixels, diffPercent,
               Num.leb diffPercent VisualRegression.threshold), w).
Proof. exact (compare_pads env localPNG livePNG w). Qed.

End TestComparison.

(* ===================================================================== *)
(** * The artifact tree of the sync-and-validate script *)
(* ===================================================================== *)

Section ArtifactTree.

Import SyncValidate.

(** The snapshot of a plain Route, with the current directory rooted,
    is where [path.join(DIST_DIR, route, 'index.html')] puts it. *)
Lemma snapshot_path_join (env : Env) (route : string) :
  JS.rooted (cwd env) = true -> JS.plain route = true ->
  snapshot_path env route
  = JS.join_all [JS.join (cwd env) "dist"; route; "index.html"].
Proof.
  intros Hc Hr. unfold snapshot_path, DIST_DIR.
  rewrite <- (path_join_join (cwd env) "dist" Hc eq_refl).
  apply path_join_join_all.
  - unfold JS.path_join. apply rooted_join; [exact Hc | reflexivity |].
    discriminate.
  - exact Hr.
  - reflexivity.
  - discriminate.
Qed.

Lemma syncRoute_writes_snapshot (env : Env) (route : string) (w : World) :
  match syncRoute env route w with
  | (Throw _, w') => w' = w
  | (Ret _, w') =>
      has_text (snapshot_path env route) w'
      /\ (forall p, p <> snapshot_path env route ->
                    lookup_file p (disk w') = lookup_file p (disk w))
      /\ nothing_started w w' /\ console w' = console w
  end.
Proof.
  rewrite syncRoute_eq.
  destruct (fetch env (sync_url route)) as [html |]; [| reflexivity].
  destruct (main_region env html) as [mainHtml |]; [| reflexivity].
  destruct (lookup_file (resolve env "head-section.html") (disk w))
    as [[headInc | | | ] | ]; try reflexivity.
  destruct (lookup_file (resolve env "top-panel.html") (disk w))
    as [[topInc | | | ] | ]; try reflexivity.
  fold (snapshot_path env route).
  split; [| split; [| split]].
  - unfold has_text. rewrite lookup_written. eexists. reflexivity.
  - intros p Hp. rewrite lookup_writeFile.
    destruct (String.eqb_spec (snapshot_path env route) p);
      [congruence | reflexivity].
  - repeat split.
  - reflexivity.
Qed.

(** X3.  For a plain Route (no empty segment, no dot segment) and a
    rooted current directory: a run of [syncRoute] that fails writes
    nothing; a run that succeeds replaces the file that
    [path.join(DIST_DIR, route, 'index.html')] names, which then holds
    text, and touches no other file, engine, page context, server or
    console line. *)
Theorem syncRoute_touches_one_file (env : Env) (route : string) (w : World) :
  JS.rooted (cwd env) = true -> JS.plain route = true ->
  let outPath :=
    JS.join_all [JS.join (cwd env) "dist"; route; "index.html"] in
  match syncRoute env route w with
  | (Throw _, w') => w' = w
  | (Ret _, w') =>
      has_text outPath w'
      /\ (forall p, p <> outPath ->
                    lookup_file p (disk w') = lookup_file p (disk w))
      /\ nothing_started w w' /\ console w' = console w
  end.
Proof.
  intros Hc Hr. cbv zeta. rewrite <- (snapshot_path_join env route Hc Hr).
  apply syncRoute_writes_snapshot.
Qed.

(** The address [syncRoute] fetches is the base address, a slash and the
    Route, less one trailing slash: the fallback to the base address is
    never taken, and the root Route is fetched at the base address
    itself. *)
Lemma sync_url_never_falls_back (route : string) :
  sync_url route = JS.strip_trailing_slash (BASE_URL ++ "/" ++ route)
  /\ sync_url route <> ""
  /\ sync_url "" = BASE_URL.
Proof.
  unfold sync_url, BASE_URL. cbn [append JS.strip_trailing_slash JS.or_else].
  split; [reflexivity |]. split; [discriminate | reflexivity].
Qed.

(** ** What lies below the artifact directory *)

Lemma files_after_writeFile (q : string) (c : Content) (w : World)
    (p : string) :
  In p (map fst (disk (snd (writeFile q c w)))) ->
  p = q \/ In p (map fst (disk w)).
Proof.
  unfold writeFile. cbn [snd disk map fst]. intros [H | H].
  - left. symmetry. exact H.
  - right. apply in_map_iff in H. destruct H as [kv [Hk Hin]].
    apply filter_In in Hin. apply in_map_iff. exists kv.
    split; [exact Hk | apply Hin].
Qed.

Lemma syncRoute_files (env : Env) (r : string) (w w' : World) (q : Num.num)
    (p : string) :
  syncRoute env r w = (Ret q, w') ->
  In p (map fst (disk w')) ->
  p = snapshot_path env r \/ In p (map fst (disk w)).
Proof.
  rewrite syncRoute_eq.
  destruct (fetch env (sync_url r)) as [html |]; [| discriminate].
  destruct (main_region env html) as [mainHtml |]; [| discriminate].
  destruct (lookup_file (resolve env "head-section.html") (disk w))
    as [[headInc | | | ] | ]; try discriminate.
  destruct (lookup_file (resolve env "top-panel.html") (disk w))
    as [[topInc | | | ] | ]; try discriminate.
  intros H.
  match type of H with
  | (_, ?X) = _ => assert (Hw' : X = w') by congruence
  end.
  rewrite <- Hw'. apply files_after_writeFile.
Qed.

Lemma syncAll_files (env : Env) (routes : list string) :
  forall (w w' : World) (p : string),
    syncAll env routes w = (Ret tt, w') ->
    In p (map fst (disk w')) ->
    In p (map fst (disk w))
    \/ exists r, In r routes /\ p = snapshot_path env r.
Proof.
  unfold syncAll. induction routes as [| x routes IH]; intros w w' p H Hp.
  - cbn [forEach] in H. inversion H; subst. left. exact Hp.
  - cbn [forEach] in H. unfold bind at 1 2 in H.
    destruct (syncRoute env x w) as [[q | e] w1] eqn:Hx; [| discriminate].
    unfold ret at 1 in H.
    destruct (IH w1 w' p H Hp) as [Hin | [r [Hr Hpr]]].
    + destruct (syncRoute_files env x w w1 q p Hx Hin) as [Heq | Hold].
      * right. exists x. split; [left; reflexivity | exact Heq].
      * left. exact Hold.
    + right. exists r. split; [right; exact Hr | exact Hpr].
Qed.

Lemma has_text_listed (p : string) (w : World) :
  has_text p w -> In p (map fst (disk w)).
Proof.
  intros [doc Hdoc]. unfold lookup_file in Hdoc.
  destruct (find _ (disk w)) as [kv |] eqn:Hfind; [| discriminate].
  apply find_some in Hfind. destruct Hfind as [Hin Heq].
  apply String.eqb_eq in Heq. rewrite <- Heq. apply in_map. exact Hin.
Qed.

Lemma snapshot_path_below (env : Env) (r : string) :
  String.prefix (DIST_DIR env ++ "/") (snapshot_path env r) = true.
Proof.
  destruct (snapshot_path_eq env r) as [rest Hrest]. rewrite Hrest.
  unfold DIST_DIR, JS.path_join. cbn [append].
  rewrite (append_assoc (cwd env) "/dist" "/"). apply prefix_append.
Qed.

Lemma rmTree_empties (dir : string) (w : World) :
  files_below dir (disk (snd (rmTree dir w))) = [].
Proof.
  unfold rmTree, files_below. cbn [snd disk].
  induction (disk w) as [| kv d IH]; [reflexivity |].
  cbn [filter]. destruct (String.prefix (dir ++ "/") (fst kv)) eqn:E;
    cbn [negb]; [exact IH |].
  cbn [map filter]. rewrite E. exact IH.
Qed.

Lemma discoverRoutes_inert (env : Env) : inert (discoverRoutes env).
Proof.
  intros w. unfold discoverRoutes, try_catch, bind, fetchText, orThrow.
  destruct (fetch env (BASE_URL ++ "/sitemap.xml")) as [xml |];
    unfold ret, throw.
  - reflexivity.
  - destruct (fetch env BASE_URL); reflexivity.
Qed.

(** [prepare], step by step. *)
Lemma prepare_eq (env : Env) (w : World) :
  prepare env w =
  match discoverRoutes env w with
  | (Throw e, _) => (Throw e, w)
  | (Ret routes, _) =>
      match syncAll env routes
              (snd (rmTree (DIST_DIR env)
                      (snd (log "Route discovery: routes found" w)))) with
      | (Throw e, w') => (Throw e, w')
      | (Ret _, w') => (Ret routes, snd (log "All pages synced" w'))
      end
  end.
Proof.
  unfold prepare. unfold bind at 1.
  pose proof (discoverRoutes_inert env w) as Hi.
  destruct (discoverRoutes env w) as [[routes | e] wa]; cbn [snd] in Hi;
    subst wa; [| reflexivity].
  unfold bind at 1, log at 1. unfold bind at 1, rmTree at 1.
  unfold bind at 1.
  match goal with
  | |- context [syncAll env routes ?W] =>
      change (snd (rmTree (DIST_DIR env)
                     (snd (log "Route discovery: routes found" w)))) with W;
      destruct (syncAll env routes W) as [[[] | e] wc]
  end; reflexivity.
Qed.

Lemma prepare_snapshots (env : Env) (w : World)
    (routes : list string) (w1 : World) :
  prepare env w = (Ret routes, w1) ->
  forall p,
    In p (files_below (DIST_DIR env) (disk w1))
    <-> exists r, In r routes /\ p = snapshot_path env r.
Proof.
  rewrite prepare_eq.
  destruct (discoverRoutes env w) as [[rs | e] wa]; [| discriminate].
  match goal with
  | |- context [syncAll env rs ?W] =>
      pose proof (rmTree_empties (DIST_DIR env)
                    (snd (log "Route discovery: routes found" w))) as Hrm;
      remember W as wb eqn:Hwb;
      destruct (syncAll env rs wb) as [[[] | e] wc] eqn:Hs; [| discriminate]
  end.
  intros H. inversion H; subst routes w1. clear H. intros p.
  unfold log. cbn [snd disk]. unfold files_below. rewrite filter_In. split.
  - intros [Hin Hpre].
    destruct (syncAll_files env rs wb wc p Hs Hin) as [Hold | Hnew];
      [| exact Hnew].
    exfalso.
    assert (Hmem : In p (files_below (DIST_DIR env) (disk wb))).
    { unfold files_below. apply filter_In. split; assumption. }
    rewrite Hrm in Hmem. destruct Hmem.
  - intros [r [Hr Hp]]. subst p. split.
    + apply has_text_listed. apply (syncAll_writes env rs wb wc Hs r Hr).
    + apply snapshot_path_below.
Qed.

(** X4.  With a rooted current directory and plain Routes: after the
    preparation the artifact directory, [path.join(cwd, 'dist')], holds
    the files [path.join(DIST_DIR, route, 'index.html')] of the
    discovered Routes and nothing else: what was there before is
    gone. *)
Theorem prepare_leaves_only_snapshots (env : Env) (w : World)
    (routes : list string) (w1 : World) :
  JS.rooted (cwd env) = true ->
  Forall (fun r => JS.plain r = true) routes ->
  prepare env w = (Ret routes, w1) ->
  forall p,
    In p (files_below (JS.join (cwd env) "dist") (disk w1))
    <-> exists r,
          In r routes
          /\ p = JS.join_all [JS.join (cwd env) "dist"; r; "index.html"].
Proof.
  intros Hc Hplain Hp p.
  rewrite <- (path_join_join (cwd env) "dist" Hc eq_refl).
  fold (DIST_DIR env). rewrite (prepare_snapshots env w routes w1 Hp p).
  rewrite Forall_forall in Hplain.
  split; intros [r [Hr Heq]]; exists r; (split; [exact Hr |]).
  - rewrite Heq. unfold DIST_DIR.
    rewrite (path_join_join (cwd env) "dist" Hc eq_refl).
    apply snapshot_path_join; [exact Hc | apply Hplain; exact Hr].
  - rewrite Heq. unfold DIST_DIR.
    rewrite (path_join_join (cwd env) "dist" Hc eq_refl).
    symmetry. apply snapshot_path_join; [exact Hc | apply Hplain; exact Hr].
Qed.

(** ** Failures before the loop *)

Lemma syncRoute_returns_fetchable (env : Env) (r : string) (w w' : World)
    (q : Num.num) :
  syncRoute env r w = (Ret q, w') -> fetchable env r.
Proof.
  rewrite syncRoute_eq.
  destruct (fetch env (sync_url r)) as [html |] eqn:Hf; [| discriminate].
  destruct (main_region env html) as [mainHtml |] eqn:Hm; [| discriminate].
  intros _. exists html, mainHtml. split; assumption.
Qed.

Lemma syncAll_unfetchable (env : Env) (routes : list string) (r : string) :
  In r routes -> ~ fetchable env r ->
  forall w, exists e w', syncAll env routes w = (Throw e, w').
Proof.
  unfold syncAll. intros Hin Hr.
  induction routes as [| x routes IH]; intros w; [destruct Hin |].
  cbn [forEach]. unfold bind at 1 2.
  destruct (syncRoute env x w) as [[q | e] w1] eqn:Hx.
  - unfold ret at 1. destruct Hin as [Heq | Hin].
    + subst x. exfalso. apply Hr.
      exact (syncRoute_returns_fetchable env r w w1 q Hx).
    + apply IH. exact Hin.
  - exists e, w1. reflexivity.
Qed.

(** X5.  The first synchronisation is not retried: when one of the
    discovered Routes cannot be fetched, or has no content region, the
    script exits with code 1 before any validation round. *)
Theorem first_sync_failure_ends_script (envs : nat -> Env) (w w0 : World)
    (routes : list string) (r : string) (fuel : nat) :
  discoverRoutes (envs 0) w = (Ret routes, w0) ->
  In r routes -> ~ fetchable (envs 0) r ->
  exists w', main fuel envs w = Some (1, 0, w').
Proof.
  intros Hd Hin Hr. unfold main. rewrite prepare_eq, Hd.
  match goal with
  | |- context [syncAll (envs 0) routes ?W] =>
      destruct (syncAll_unfetchable (envs 0) routes r Hin Hr W)
        as [e [w' Hs]]; rewrite Hs
  end.
  eexists. reflexivity.
Qed.

(** X6.  A site index that lists no page: the script removes the
    artifact directory and synchronises nothing, every round then fails
    on the missing directory, and the script never ends. *)
Theorem empty_index_never_ends (envs : nat -> Env) (w : World)
    (xml : string) :
  fetch (envs 0) (BASE_URL ++ "/sitemap.xml") = Some xml ->
  xml_locs (envs 0) xml = [] ->
  (forall k, cwd (envs k) = cwd (envs 0)) ->
  forall fuel, main fuel envs w = None.
Proof.
  intros Hf Hx Hc fuel. unfold main. rewrite prepare_eq.
  assert (Hd : discoverRoutes (envs 0) w = (Ret [], w)).
  { unfold discoverRoutes, try_catch, bind, fetchText, orThrow.
    rewrite Hf. unfold ret at 1. rewrite Hx. reflexivity. }
  rewrite Hd. unfold syncAll at 1. cbn [forEach]. unfold ret at 1.
  rewrite (retry_loop_never_passes
             (fun k => validate (envs k) [])
             (fun k => syncAll (envs (S k)) [])
             (fun w' => files_below (DIST_DIR (envs 0)) (disk w') = [])).
  - reflexivity.
  - intros w' line H. exact H.
  - intros j w' H. unfold validate, bind at 1, walk.
    unfold DIST_DIR in *. rewrite (Hc j), H. exact H.
  - intros j w' H. exists w'. split; [reflexivity | exact H].
  - intros j w' H. unfold validate, bind at 1, walk.
    unfold DIST_DIR in *. rewrite (Hc j), H. eexists. eexists. reflexivity.
  - unfold log. cbn [snd disk]. apply rmTree_empties.
Qed.

End ArtifactTree.

(* ===================================================================== *)
(** * The command stages and the loop of the fix-and-validate script *)
(* ===================================================================== *)

Section CommandStages.

Import FixValidate.

Variable env : Env.

(** What the command stages record for a file or a page, if anything:
    the error stream of the checker, when it is not empty. *)
Definition html_entry (file : string) : option Diag :=
  let stderr := exec_stderr env
       ("npx html-validator --quiet --file=" ++ dq ++ file ++ dq) in
  if truthy stderr then Some (DStderr (Some file) stderr) else None.

Definition pa11y_entry (page : string) : option Diag :=
  let stderr := exec_stderr env ("npx pa11y " ++ local_url page) in
  if truthy stderr then Some (DStderr (Some page) stderr) else None.

Definition lighthouse_entry (page : string) : option Diag :=
  let stderr := exec_stderr env (lighthouseCommand env page) in
  if truthy stderr then Some (DStderr (Some page) stderr) else None.

(** The world once the performance audit of a page has written its
    report, if it writes one. *)
Definition report_written (w : World) (page : string) : World :=
  match exec_report env (lighthouseCommand env page) with
  | Some report => snd (writeFile (lighthousePath env page) (Text report) w)
  | None => w
  end.

(** A loop whose body returns, with the worlds it goes through. *)
Lemma forEachR_fold_world (body : Results -> string -> M Results)
    (step : Results -> string -> Results)
    (after : World -> string -> World) (l : list string) :
  (forall res x w, body res x w = (Ret (step res x), after w x)) ->
  forall res w,
    forEachR l body res w
    = (Ret (fold_left step l res), fold_left after l w).
Proof.
  intros Hbody. induction l as [| x l IH]; intros res w; [reflexivity |].
  cbn [forEachR fold_left]. unfold bind. rewrite Hbody. apply IH.
Qed.

Lemma reports_written_keep (l : list string) :
  forall w,
    nothing_started w (fold_left report_written l w)
    /\ console (fold_left report_written l w) = console w
    /\ forall p,
         (forall page, In page l -> p <> lighthousePath env page) ->
         lookup_file p (disk (fold_left report_written l w))
         = lookup_file p (disk w).
Proof.
  induction l as [| x l IH]; intros w.
  - cbn [fold_left]. repeat split.
  - cbn [fold_left]. destruct (IH (report_written w x)) as [Hn [Hc Hd]].
    assert (Hx : nothing_started w (report_written w x)
                 /\ console (report_written w x) = console w
                 /\ forall p, p <> lighthousePath env x ->
                      lookup_file p (disk (report_written w x))
                      = lookup_file p (disk w)).
    { unfold report_written.
      destruct (exec_report env (lighthouseCommand env x)) as [report |].
      - split; [repeat split |]. split; [reflexivity |].
        intros p Hp. rewrite lookup_writeFile.
        destruct (String.eqb_spec (lighthousePath env x) p);
          [congruence | reflexivity].
      - repeat split. }
    destruct Hx as [Hn1 [Hc1 Hd1]]. split; [| split].
    + destruct Hn as [H1 [H2 H3]]. destruct Hn1 as [H4 [H5 H6]].
      repeat split; congruence.
    + congruence.
    + intros p Hp. rewrite Hd.
      * apply Hd1. apply Hp. left. reflexivity.
      * intros page Hin. apply Hp. right. exact Hin.
Qed.

Lemma fold_record_html (f : string -> option Diag) (l : list string)
    (res : Results) :
  fold_left (fun r p => record push_html r (f p)) l res
  = mkResults (r_html res ++ entries f l) (r_css res) (r_js res)
      (r_accessibility res) (r_links res) (r_spell res) (r_dom res)
      (r_visual res) (r_lighthouse res).
Proof.
  revert res. induction l as [| p l IH]; intros res.
  - cbn [fold_left entries flat_map]. rewrite app_nil_r. destruct res.
    reflexivity.
  - cbn [fold_left entries flat_map]. rewrite IH. fold (entries f l).
    destruct (f p) as [d |]; cbn [record push_html r_html r_css
      r_js r_accessibility r_links r_spell r_dom r_visual r_lighthouse app].
    + rewrite <- app_assoc. reflexivity.
    + reflexivity.
Qed.

Lemma fold_record_lighthouse (f : string -> option Diag) (l : list string)
    (res : Results) :
  fold_left (fun r p => record push_lighthouse r (f p)) l res
  = mkResults (r_html res) (r_css res) (r_js res)
      (r_accessibility res) (r_links res) (r_spell res) (r_dom res)
      (r_visual res) (r_lighthouse res ++ entries f l).
Proof.
  revert res. induction l as [| p l IH]; intros res.
  - cbn [fold_left entries flat_map]. rewrite app_nil_r. destruct res.
    reflexivity.
  - cbn [fold_left entries flat_map]. rewrite IH. fold (entries f l).
    destruct (f p) as [d |]; cbn [record push_lighthouse r_html r_css
      r_js r_accessibility r_links r_spell r_dom r_visual r_lighthouse app].
    + rewrite <- app_assoc. reflexivity.
    + reflexivity.
Qed.

(** X11.  The markup, accessibility and performance stages that run a
    command per file or page never throw; each appends to its own
    category, in the order of the files or pages, one entry for every
    command that wrote on its error stream, and changes no other
    category.  The markup and accessibility stages leave the world as it
    is.  The performance stage lets every command write its report to
    the report path of its page: it starts and stops nothing, prints
    nothing, and changes no file but the reports of its pages. *)
Theorem command_stages_record (files : Files) (pageList : list string)
    (res : Results) (w : World) :
  runHtmlValidator env files res w
  = (Ret (mkResults (r_html res ++ entries html_entry (f_html files))
            (r_css res) (r_js res) (r_accessibility res) (r_links res)
            (r_spell res) (r_dom res) (r_visual res) (r_lighthouse res)), w)
  /\ runPa11y env pageList res w
     = (Ret (mkResults (r_html res) (r_css res) (r_js res)
               (r_accessibility res ++ entries pa11y_entry pageList)
               (r_links res) (r_spell res) (r_dom res) (r_visual res)
               (r_lighthouse res)), w)
  /\ runLighthouse env pageList res w
     = (Ret (mkResults (r_html res) (r_css res) (r_js res)
               (r_accessibility res) (r_links res) (r_spell res)
               (r_dom res) (r_visual res)
               (r_lighthouse res ++ entries lighthouse_entry pageList)),
        fold_left report_written pageList w)
  /\ nothing_started w (fold_left report_written pageList w)
  /\ console (fold_left report_written pageList w) = console w
  /\ (forall p,
        (forall page, In page pageList -> p <> lighthousePath env page) ->
        lookup_file p (disk (fold_left report_written pageList w))
        = lookup_file p (disk w))
  /\ (forall page report,
        exec_report env (lighthouseCommand env page) = Some report ->
        lookup_file (lighthousePath env page)
          (disk (report_written w page)) = Some (Text report)).
Proof.
  split; [| split; [| split]].
  - unfold runHtmlValidator.
    rewrite (forEachR_fold _ (fun r p => record push_html r (html_entry p))).
    + rewrite fold_record_html. reflexivity.
    + intros r x w1. unfold html_entry, ret. cbv zeta.
      destruct (truthy _); reflexivity.
  - unfold runPa11y.
    rewrite (forEachR_fold _
               (fun r p => record push_accessibility r (pa11y_entry p))).
    + rewrite fold_record_accessibility. reflexivity.
    + intros r x w1. unfold pa11y_entry, ret. cbv zeta.
      destruct (truthy _); reflexivity.
  - unfold runLighthouse.
    rewrite (forEachR_fold_world _
               (fun r p => record push_lighthouse r (lighthouse_entry p))
               report_written).
    + rewrite fold_record_lighthouse. reflexivity.
    + intros r x w1. unfold lighthouse_entry, report_written, bind, ret.
      cbv zeta.
      destruct (exec_report env (lighthouseCommand env x)) as [report |];
        destruct (truthy _); reflexivity.
  - destruct (reports_written_keep pageList w) as [H1 [H2 H3]].
    split; [exact H1 |]. split; [exact H2 |]. split; [exact H3 |].
    intros page report Hr. unfold report_written. rewrite Hr.
    apply lookup_written.
Qed.

(** X10.  The loops of the axe stage and of the structural stage catch
    the error of every page and go on: nothing declares [browser], so
    each page gets one entry with the message of the reference error,
    in the order of the pages, and the world stays as it is.  After its
    loop either stage reads [browser] once more, outside any [try], and
    throws the reference error; the visual stage has no [try] in its
    loop and throws it as well.  None of them starts or stops
    anything. *)
Theorem collecting_stages_end_at_close (pageList : list string)
    (res : Results) (w : World) :
  forEachR pageList (axePage env) res w
  = (Ret (mkResults (r_html res) (r_css res) (r_js res)
            (r_accessibility res
             ++ map (fun page =>
                       DStderr (Some page) "browser is not defined")
                  pageList)
            (r_links res) (r_spell res) (r_dom res)
            (r_visual res) (r_lighthouse res)), w)
  /\ runAxe env pageList res w = (Throw (ReferenceError "browser"), w)
  /\ forEachR pageList (domDiffPage env) res w
     = (Ret (mkResults (r_html res) (r_css res) (r_js res)
               (r_accessibility res) (r_links res) (r_spell res)
               (r_dom res
                ++ map (fun page =>
                          DDomDiff page (Some "browser is not defined"))
                     pageList)
               (r_visual res) (r_lighthouse res)), w)
  /\ runDomDiff env pageList res w = (Throw (ReferenceError "browser"), w)
  /\ runVisualDiff env pageList res w
     = (Throw (ReferenceError "browser"), w).
Proof.
  split; [apply (axeLoop_records env) |].
  split; [unfold runAxe, bind at 1; rewrite axeLoop_records; reflexivity |].
  split; [apply (domDiffLoop_records env) |].
  split;
    [unfold runDomDiff, bind at 1; rewrite domDiffLoop_records;
     reflexivity |].
  destruct pageList; reflexivity.
Qed.

End CommandStages.

Section BoundedRetryEnds.

Import FixValidate.



Variable reportFile : string.
Variable fix_k : nat -> M unit.
Variable validate_k : nat -> M Results.

Lemma attempts_after_failing_rounds (k n a : nat) (w w1 : World) :
  failing_rounds reportFile fix_k validate_k k a w w1 ->
  attempts (k + n) reportFile fix_k validate_k a w
  = attempts n reportFile fix_k validate_k (k + a) w1.
Proof.
  intros H. induction H as [a w | k a w wa wb w' res H1 H2 Hs Hrest IH].
  - reflexivity.
  - cbn [Nat.add attempts]. unfold bind at 1. rewrite H1.
    unfold bind at 1. rewrite H2. unfold bind at 1, writeFile at 1.
    destruct (summarize res =? 0) eqn:E.
    { apply Nat.eqb_eq in E. lia. }
    unfold bind at 1, log at 1. unfold log, writeFile in IH.
    cbn [snd] in IH. rewrite IH. f_equal. lia.
Qed.


(** X13.  The bounded loop catches nothing: an error thrown by the repair or
    by the validation of an attempt ends the script with that error, in the
    world of the throw; no report is persisted for that attempt, no further
    attempt runs and no exit code is chosen. *)
Theorem bounded_retry_error_escapes (k n a : nat) (w w1 w2 : World)
    (e : Error) :
  failing_rounds reportFile fix_k validate_k k a w w1 ->
  fix_k (k + a) w1 = (Throw e, w2)
  \/ (exists w', fix_k (k + a) w1 = (Ret tt, w')
                 /\ validate_k (k + a) w' = (Throw e, w2)) ->
  attempts (k + S n) reportFile fix_k validate_k a w = (Throw e, w2).
Proof.
  intros Hk H.
  rewrite (attempts_after_failing_rounds k (S n) a w w1 Hk).
  cbn [attempts]. unfold bind at 1.
  destruct H as [Hf | [w' [Hf Hv]]]; rewrite Hf; [reflexivity |].
  unfold bind at 1. rewrite Hv. reflexivity.
Qed.

End BoundedRetryEnds.

(* ===================================================================== *)
(** * Files, pages and repairs of the fix-and-validate script *)
(* ===================================================================== *)

Section Files.

Import FixValidate.

(** ** Suffixes *)

Lemma endsWith_html_not_css (s : string) :
  JS.endsWith s ".html" = true -> JS.endsWith s ".css" = false.
Proof.
  induction s as [| c s IH]; [discriminate |].
  cbn [JS.endsWith].
  destruct (String.eqb (String c s) ".html") eqn:E1.
  - apply String.eqb_eq in E1. inversion E1; subst. intros _. reflexivity.
  - intros H. rewrite (IH H).
    destruct (String.eqb (String c s) ".css") eqn:E2; [| reflexivity].
    apply String.eqb_eq in E2. inversion E2; subst. discriminate H.
Qed.

Lemma endsWith_html_not_js (s : string) :
  JS.endsWith s ".html" = true -> JS.endsWith s ".js" = false.
Proof.
  induction s as [| c s IH]; [discriminate |].
  cbn [JS.endsWith].
  destruct (String.eqb (String c s) ".html") eqn:E1.
  - apply String.eqb_eq in E1. inversion E1; subst. intros _. reflexivity.
  - intros H. rewrite (IH H).
    destruct (String.eqb (String c s) ".js") eqn:E2; [| reflexivity].
    apply String.eqb_eq in E2. inversion E2; subst. discriminate H.
Qed.

Lemma endsWith_css_not_js (s : string) :
  JS.endsWith s ".css" = true -> JS.endsWith s ".js" = false.
Proof.
  induction s as [| c s IH]; [discriminate |].
  cbn [JS.endsWith].
  destruct (String.eqb (String c s) ".css") eqn:E1.
  - apply String.eqb_eq in E1. inversion E1; subst. intros _. reflexivity.
  - intros H. rewrite (IH H).
    destruct (String.eqb (String c s) ".js") eqn:E2; [| reflexivity].
    apply String.eqb_eq in E2. inversion E2; subst. discriminate H.
Qed.

Lemma trailing_slash_append (s : string) :
  JS.trailing_slash (s ++ "/") = true.
Proof.
  induction s as [| c s IH]; [reflexivity |]. cbn [append].
  destruct s as [| d s]; [reflexivity | exact IH].
Qed.

Lemma endsWith_no_trailing_slash (s suffix : string) :
  JS.endsWith s suffix = true -> suffix <> "" ->
  JS.trailing_slash suffix = false -> JS.trailing_slash s = false.
Proof.
  intros H Hne Hs. induction s as [| c s IH].
  - reflexivity.
  - cbn [JS.endsWith] in H.
    destruct (String.eqb (String c s) suffix) eqn:E.
    { apply String.eqb_eq in E. rewrite E. exact Hs. }
    destruct s as [| d s].
    + cbn [JS.endsWith] in H. destruct suffix; [congruence |].
      discriminate H.
    + change (JS.trailing_slash (String c (String d s)))
        with (JS.trailing_slash (String d s)).
      apply IH. exact H.
Qed.

Lemma prefix_split (a s : string) :
  String.prefix a s = true -> exists rest, s = (a ++ rest)%string.
Proof.
  revert s. induction a as [| c a IH]; intros s H.
  - exists s. reflexivity.
  - destruct s as [| d s]; [discriminate |].
    cbn [String.prefix] in H.
    destruct (ascii_dec c d) as [-> | Hne]; [| discriminate].
    destruct (IH s H) as [rest Hrest]. exists rest. rewrite Hrest.
    reflexivity.
Qed.

Lemma prefix_trans (a b c : string) :
  String.prefix a b = true -> String.prefix b c = true ->
  String.prefix a c = true.
Proof.
  intros Hab Hbc. destruct (prefix_split _ _ Hab) as [r1 ->].
  destruct (prefix_split _ _ Hbc) as [r2 ->].
  rewrite append_assoc. apply prefix_append.
Qed.

Lemma reportDir_below_cwd (env : Env) :
  String.prefix (cwd env ++ "/") (reportDir env ++ "/") = true.
Proof.
  unfold reportDir, JS.path_join.
  rewrite <- (append_assoc (cwd env) "/" "reports"), append_assoc.
  apply prefix_append.
Qed.

(** Once the directory of the reports is there, the walk of the
    working directory finds something. *)
Lemma walk_after_reports (w : World) (env : Env) :
  exists files w',
    bind (ensureReportDir env) (fun _ => discoverFiles (cwd env)) w
    = (Ret files, w').
Proof.
  assert (Hwalk : forall w1 f,
            In f (files_below (cwd env) (disk w1)) ->
            exists files, discoverFiles (cwd env) w1 = (Ret files, w1)).
  { intros w1 f Hin. unfold discoverFiles, bind, walk.
    destruct (files_below (cwd env) (disk w1)); [destruct Hin |].
    eexists. reflexivity. }
  unfold bind at 1, ensureReportDir.
  destruct (files_below (reportDir env) (disk w)) as [| f fs] eqn:E.
  - unfold writeFile at 1.
    match goal with
    | |- context [discoverFiles (cwd env) ?W] =>
        destruct (Hwalk W (reportDir env ++ "/")%string) as [files Hf]
    end.
    + unfold files_below. cbn [disk map fst filter].
      rewrite reportDir_below_cwd. left. reflexivity.
    + eexists. eexists. exact Hf.
  - destruct (Hwalk w f) as [files Hf].
    + assert (Hin : In f (files_below (reportDir env) (disk w)))
        by (rewrite E; left; reflexivity).
      unfold files_below in *. apply filter_In in Hin.
      destruct Hin as [Hin Hpre]. apply filter_In. split; [exact Hin |].
      apply (prefix_trans _ (reportDir env ++ "/")); [| exact Hpre].
      apply reportDir_below_cwd.
    + eexists. eexists. exact Hf.
Qed.

(** X14.  [discoverFiles] sorts what lies below the root by suffix: the
    three lists are the paths that end in [.html], in [.css] and in
    [.js], no path is in two of them, paths with another suffix are in
    none, and nothing is changed.  It throws only when the root does not
    exist, that is when nothing lies below it, not even the entry of the
    directory itself; on a root that exists and is empty the three lists
    are empty.  The script walks the working directory once the
    directory of the reports is there, and that walk never throws. *)
Theorem discoverFiles_sorts_by_suffix (root : string) (w : World) :
  match discoverFiles root w with
  | (Throw e, w') =>
      e = NoSuchFile root /\ w' = w /\ files_below root (disk w) = []
  | (Ret files, w') =>
      w' = w
      /\ f_html files
         = filter (fun f => JS.endsWith f ".html")
             (files_below root (disk w))
      /\ f_css files
         = filter (fun f => JS.endsWith f ".css")
             (files_below root (disk w))
      /\ f_js files
         = filter (fun f => JS.endsWith f ".js")
             (files_below root (disk w))
      /\ (forall f, In f (f_html files) -> ~ In f (f_css files))
      /\ (forall f, In f (f_html files) -> ~ In f (f_js files))
      /\ (forall f, In f (f_css files) -> ~ In f (f_js files))
      /\ (files_below root (disk w) = [(root ++ "/")%string] ->
          files = mkFiles [] [] [])
  end
  /\ (forall env,
        exists files w',
          bind (ensureReportDir env) (fun _ => discoverFiles (cwd env)) w
          = (Ret files, w')).
Proof.
  split; [| apply walk_after_reports].
  unfold discoverFiles, bind, walk.
  destruct (files_below root (disk w)) as [| f0 fs] eqn:E.
  - repeat split.
  - unfold ret. cbn [f_html f_css f_js].
    assert (Hcss : forall l,
              filter (fun f => negb (JS.endsWith f ".html")
                               && JS.endsWith f ".css") l
              = filter (fun f => JS.endsWith f ".css") l).
    { intros l. apply filter_ext. intros f.
      destruct (JS.endsWith f ".html") eqn:Eh; [| reflexivity].
      rewrite (endsWith_html_not_css f Eh). reflexivity. }
    assert (Hjs : forall l,
              filter (fun f => negb (JS.endsWith f ".html")
                               && negb (JS.endsWith f ".css")
                               && JS.endsWith f ".js") l
              = filter (fun f => JS.endsWith f ".js") l).
    { intros l. apply filter_ext. intros f.
      destruct (JS.endsWith f ".html") eqn:Eh.
      - rewrite (endsWith_html_not_js f Eh). reflexivity.
      - destruct (JS.endsWith f ".css") eqn:Ec; [| reflexivity].
        rewrite (endsWith_css_not_js f Ec). reflexivity. }
    rewrite Hcss, Hjs.
    split; [reflexivity |]. split; [reflexivity |].
    split; [reflexivity |]. split; [reflexivity |].
    split; [| split; [| split]];
      [intros f H1 H2 | intros f H1 H2 | intros f H1 H2 |];
      try (apply filter_In in H1; apply filter_In in H2;
           destruct H1 as [_ H1]; destruct H2 as [_ H2]).
    + rewrite (endsWith_html_not_css f H1) in H2. discriminate.
    + rewrite (endsWith_html_not_js f H1) in H2. discriminate.
    + rewrite (endsWith_css_not_js f H1) in H2. discriminate.
    + intros Hdir. inversion Hdir; subst f0 fs. cbn [filter].
      assert (Hno : forall suffix,
                suffix <> "" -> JS.trailing_slash suffix = false ->
                JS.endsWith (root ++ "/") suffix = false).
      { intros suffix Hne Hs.
        destruct (JS.endsWith (root ++ "/") suffix) eqn:Ee; [| reflexivity].
        pose proof (endsWith_no_trailing_slash _ _ Ee Hne Hs) as Ht.
        rewrite trailing_slash_append in Ht. discriminate Ht. }
      rewrite (Hno ".html"), (Hno ".css"), (Hno ".js");
        try reflexivity; discriminate.
Qed.

(** ** Pages *)

Lemma drop_append (a b : string) : JS.drop (String.length a) (a ++ b) = b.
Proof.
  induction a as [| c a IH]; cbn [String.length JS.drop append].
  - destruct b; reflexivity.
  - exact IH.
Qed.

Lemma after_common_app (l m : list string) :
  after_common l (l ++ m) = ([], m).
Proof.
  induction l as [| x l IH]; [destruct m; reflexivity |].
  cbn [after_common app]. rewrite String.eqb_refl. exact IH.
Qed.

Lemma relative_path_join (env : Env) (p : string) :
  JS.rooted (cwd env) = true -> JS.plain p = true ->
  relative env (JS.path_join (cwd env) p) = p.
Proof.
  intros Hc Hp. unfold relative. cbv zeta.
  destruct (cwd env) as [| d rest] eqn:Ecwd; [discriminate Hc |].
  destruct d as [[] [] [] [] [] [] [] []]; try discriminate Hc.
  unfold JS.rooted in Hc.
  assert (Hstart : forall name,
            JS.startsWith (JS.path_join (String "/" rest) name) "/" = true).
  { intros name. unfold JS.path_join. destruct name, rest; reflexivity. }
  rewrite Hstart.
  assert (Hfrom : JS.resolve_dots (JS.segments (String "/" rest)) false []
                  = JS.segments rest).
  { cbn [JS.segments Ascii.eqb Bool.eqb JS.resolve_dots String.eqb orb].
    rewrite (resolve_dots_plain _ false Hc []). reflexivity. }
  rewrite Hfrom. unfold JS.path_join. destruct p as [| c p].
  - rewrite Hfrom.
    pose proof (after_common_app (JS.segments rest) []) as Hsame.
    rewrite app_nil_r in Hsame. rewrite Hsame. reflexivity.
  - unfold JS.plain in Hp. cbn [String.eqb orb] in Hp.
    change (String "/" rest ++ "/" ++ String c p)%string
      with (String "/" (rest ++ "/" ++ String c p)).
    cbn [JS.segments Ascii.eqb Bool.eqb JS.resolve_dots String.eqb orb].
    rewrite segments_app_slash.
    rewrite (resolve_dots_plain _ false) by
      (rewrite plain_segments_app, Hc, Hp; reflexivity).
    cbn [rev app]. rewrite after_common_app. cbn [fst snd length repeat app].
    apply concat_segments.
Qed.

(** X15.  With a rooted working directory, the name of a page is the
    path of its file relative to the working directory: for a plain
    path [p], [path.relative] undoes [path.join(cwd, p)], and joining
    the working directory and the relative path gives the file back.
    Elsewhere the two normalise: the relative path of a file outside
    the working directory climbs with [..], and empty and dot segments
    are dropped. *)
Theorem relative_undoes_resolve (env : Env) (p : string) :
  JS.rooted (cwd env) = true -> JS.plain p = true ->
  relative env (JS.join (cwd env) p) = p
  /\ JS.join (cwd env) (relative env (JS.join (cwd env) p))
     = JS.join (cwd env) p.
Proof.
  intros Hc Hp. rewrite <- (path_join_join (cwd env) p Hc Hp).
  rewrite (relative_path_join env p Hc Hp).
  split; [reflexivity |]. symmetry. apply path_join_join; assumption.
Qed.

(** ** Repairs *)

Lemma fixHtml_eq (env : Env) (file : string) (w : World) :
  fixHtml env file w =
  match lookup_file file (disk w) with
  | Some (Text content) =>
      (Ret tt, snd (writeFile file (Text (repair env file content)) w))
  | _ => (Throw (NoSuchFile file), w)
  end.
Proof.
  unfold fixHtml, bind, readFile.
  destruct (lookup_file file (disk w)) as [[content | | | ] | ];
    reflexivity.
Qed.

(** X16.  The repair phase goes through the markup files in order and
    rewrites each one in place.  When it returns, every markup file
    holds text and no other file has changed, and a file that is listed
    once holds the repair of its earlier contents.  When it throws, it
    has met a markup file that cannot be read as text, which is still
    unreadable.  It starts and stops nothing. *)
Theorem fixPhase_rewrites_markup_only (env : Env) (files : Files)
    (w : World) :
  match fixPhase env files w with
  | (Ret _, w') =>
      (forall f, In f (f_html files) -> has_text f w')
      /\ (forall p, ~ In p (f_html files) ->
                    lookup_file p (disk w') = lookup_file p (disk w))
      /\ (NoDup (f_html files) ->
          forall f content,
            In f (f_html files) ->
            lookup_file f (disk w) = Some (Text content) ->
            lookup_file f (disk w')
            = Some (Text (repair env f content)))
      /\ nothing_started w w'
  | (Throw e, w') =>
      exists f, In f (f_html files) /\ e = NoSuchFile f
                /\ ~ has_text f w' /\ nothing_started w w'
  end.
Proof.
  unfold fixPhase. generalize (f_html files) as l. clear files.
  intros l. revert w. induction l as [| x l IH]; intros w.
  - cbn [forEach]. unfold ret. split; [intros f [] |].
    split; [reflexivity |]. split; [intros _ f content [] |].
    repeat split.
  - cbn [forEach]. unfold bind. rewrite fixHtml_eq.
    destruct (lookup_file x (disk w)) as [[content | | | ] | ] eqn:Ex.
    2-5: exists x; split; [left; reflexivity |]; split; [reflexivity |];
      split; [intros [doc Hdoc]; congruence | repeat split].
    specialize (IH (snd (writeFile x (Text (repair env x content)) w))).
    destruct (forEach l (fixHtml env) _) as [[[] | e] w'].
    + destruct IH as [Hall [Hkeep [Hone Hres]]].
      split; [| split; [| split]].
      * intros f [Hf | Hf]; [| apply Hall; exact Hf]. subst f.
        destruct (in_dec string_dec x l) as [Hin | Hout];
          [apply Hall; exact Hin |].
        unfold has_text. rewrite (Hkeep x Hout), lookup_written.
        eexists. reflexivity.
      * intros p Hp. rewrite Hkeep by (intros H; apply Hp; right; exact H).
        rewrite lookup_writeFile.
        destruct (String.eqb_spec x p) as [-> | _]; [| reflexivity].
        exfalso. apply Hp. left. reflexivity.
      * intros Hnd f c [Hf | Hf] Hc.
        -- subst f. inversion Hnd as [| y l' Hout Hnd']; subst.
           rewrite (Hkeep x Hout), lookup_written. congruence.
        -- inversion Hnd as [| y l' Hout Hnd']; subst.
           apply (Hone Hnd' f c Hf). rewrite lookup_writeFile.
           destruct (String.eqb_spec x f) as [-> | _];
             [contradiction | exact Hc].
      * exact Hres.
    + destruct IH as [f [Hf [He [Hno Hres]]]]. exists f.
      split; [right; exact Hf |]. split; [exact He |].
      split; [exact Hno | exact Hres].
Qed.

End Files.

Section ClassRepair.

Import FixValidate.

Lemma collapse_dots_no_dot (s : string) :
  JS.has_char "." (JS.collapse_dots s) = false.
Proof.
  induction s as [| c s IH]; [reflexivity |].
  cbn [JS.collapse_dots]. destruct (Ascii.eqb c ".") eqn:Ec.
  - destruct s as [| d s]; [reflexivity |].
    destruct (Ascii.eqb d "."); [exact IH |].
    cbn [JS.has_char]. rewrite IH. reflexivity.
  - cbn [JS.has_char]. rewrite IH, Ascii.eqb_sym, Ec. reflexivity.
Qed.

Lemma trim_start_has_char (c : ascii) (s : string) :
  JS.has_char c s = false -> JS.has_char c (JS.trim_start s) = false.
Proof.
  induction s as [| d s IH]; [reflexivity |].
  cbn [JS.trim_start]. intros H. destruct (JS.is_space d); [| exact H].
  apply IH. cbn [JS.has_char] in H. apply orb_false_iff in H. apply H.
Qed.

Lemma trim_end_has_char (c : ascii) (s : string) :
  JS.has_char c s = false -> JS.has_char c (JS.trim_end s) = false.
Proof.
  induction s as [| d s IH]; [reflexivity |].
  cbn [JS.trim_end JS.has_char]. intros H. apply orb_false_iff in H.
  destruct H as [Hd Hs]. specialize (IH Hs).
  destruct (JS.trim_end s) as [| e t].
  - destruct (JS.is_space d); [reflexivity |].
    cbn [JS.has_char]. rewrite Hd. reflexivity.
  - cbn [JS.has_char] in *. rewrite Hd. exact IH.
Qed.

Lemma includes_dots_has_dot (s : string) :
  JS.has_char "." s = false -> JS.includes s "..." = false.
Proof.
  induction s as [| c s IH]; [reflexivity |].
  cbn [JS.has_char JS.includes]. intros H. apply orb_false_iff in H.
  destruct H as [Hc Hs]. rewrite (IH Hs), orb_false_r.
  cbn [String.prefix]. destruct (ascii_dec "." c) as [Heq | _];
    [| reflexivity].
  subst c. discriminate Hc.
Qed.

(** X17.  The repair of a class attribute leaves no placeholder behind and
    repairs once and for all.  A value without placeholder is not changed,
    dots included; a value with a placeholder loses every dot it has, those
    of its other class names included. *)
Theorem fixClass_removes_placeholders (cls : string) :
  JS.includes (fixClass cls) "..." = false
  /\ fixClass (fixClass cls) = fixClass cls
  /\ (JS.includes cls "..." = false -> fixClass cls = cls)
  /\ (JS.includes cls "..." = true ->
      JS.has_char "." (fixClass cls) = false).
Proof.
  assert (H1 : JS.includes (fixClass cls) "..." = false).
  { unfold fixClass. destruct (JS.includes cls "...") eqn:E; [| exact E].
    apply includes_dots_has_dot. unfold JS.trim.
    apply trim_end_has_char, trim_start_has_char, collapse_dots_no_dot. }
  split; [exact H1 |]. split; [| split].
  - unfold fixClass at 1. rewrite H1. reflexivity.
  - intros E. unfold fixClass. rewrite E. reflexivity.
  - intros E. unfold fixClass. rewrite E. unfold JS.trim.
    apply trim_end_has_char, trim_start_has_char, collapse_dots_no_dot.
Qed.

End ClassRepair.

(* ===================================================================== *)
(** * The scripts on concrete sites, once more *)
(* ===================================================================== *)

Section MoreRuns.

Lemma shared_fresh : fresh shared.
Proof.
  unfold fresh, shared. cbn [browsers pages servers next_id].
  repeat constructor.
Qed.

(** The test on a site whose pages all differ from the live ones: every
    entry of the results file says so, and no exit code is set. *)
Lemma test_exit_code_ignores_verdicts_witness :
  launch_ok repainted = true
  /\ exists entries w',
       VisualRegression.main repainted ["index.html"; "log-in.html"]
         Samples.site
       = (Ret None, w')
       /\ Forall2 (entry_of)
            (visited repainted ["index.html"; "log-in.html"]) entries
       /\ lookup_file (resultsPath repainted) (disk w')
          = Some (ResultList entries).
Proof.
  split; [reflexivity |].
  exact (test_exit_code_ignores_verdicts repainted
           ["index.html"; "log-in.html"] Samples.site eq_refl).
Defined.

(** The test on the site whose second page cannot be reached, next to
    an engine and a server of somebody else. *)
Lemma test_releases_engine_and_server_witness :
  fresh shared
  /\ match VisualRegression.main unreachable_second VisualRegression.pages
             shared with
     | (Ret _, w') =>
         launch_ok unreachable_second = true /\ nothing_started shared w'
     | (Throw e, w') =>
         launch_ok unreachable_second = false /\ e = LaunchFailed
         /\ server_running shared w'
     end.
Proof.
  split; [exact shared_fresh |].
  exact (test_releases_engine_and_server unreachable_second
           VisualRegression.pages shared shared_fresh).
Defined.

(** The artifact directory holds a file of an earlier run. *)
Definition stale : World :=
  mkWorld (("/site/dist/old/index.html", Text "<html>old</html>")
           :: disk Samples.site) [] [] [] 0 [].

Lemma prepare_leaves_only_snapshots_witness :
  ~ In "/site/dist/old/index.html"
      (files_below (JS.join (cwd Samples.calm) "dist")
         (disk (snd (SyncValidate.prepare Samples.calm stale)))).
Proof.
  intros H.
  assert (Hplain : Forall (fun r => JS.plain r = true) [""; "about-us"]).
  { repeat constructor. }
  apply (proj1 (prepare_leaves_only_snapshots Samples.calm stale
                  [""; "about-us"]
                  (snd (SyncValidate.prepare Samples.calm stale))
                  eq_refl Hplain eq_refl "/site/dist/old/index.html")) in H.
  destruct H as [r [[Hr | [Hr | []]] Hp]]; subst r; vm_compute in Hp;
    discriminate Hp.
Defined.

(** One Route of the sample site. *)
Lemma syncRoute_touches_one_file_witness :
  JS.rooted (cwd Samples.calm) = true /\ JS.plain "about-us" = true
  /\ let outPath :=
       JS.join_all [JS.join (cwd Samples.calm) "dist"; "about-us";
                    "index.html"] in
     match SyncValidate.syncRoute Samples.calm "about-us" Samples.site with
     | (Throw _, w') => w' = Samples.site
     | (Ret _, w') =>
         has_text outPath w'
         /\ (forall p, p <> outPath ->
                       lookup_file p (disk w')
                       = lookup_file p (disk Samples.site))
         /\ nothing_started Samples.site w'
         /\ console w' = console Samples.site
     end.
Proof.
  split; [reflexivity |]. split; [reflexivity |].
  exact (syncRoute_touches_one_file Samples.calm "about-us" Samples.site
           eq_refl eq_refl).
Defined.

(** A page of the sample site, from its file and back. *)
Lemma relative_undoes_resolve_witness :
  FixValidate.relative Samples.calm
    (JS.join (cwd Samples.calm) "docs/index.html")
  = "docs/index.html"
  /\ JS.join (cwd Samples.calm)
       (FixValidate.relative Samples.calm
          (JS.join (cwd Samples.calm) "docs/index.html"))
     = JS.join (cwd Samples.calm) "docs/index.html".
Proof.
  exact (relative_undoes_resolve Samples.calm "docs/index.html"
           eq_refl eq_refl).
Defined.

(** Outside the plain paths the two functions normalise. *)
Example relative_normalises :
  FixValidate.relative Samples.calm "/x" = "../x"
  /\ FixValidate.relative Samples.calm "/site/a//b/" = "a/b"
  /\ FixValidate.relative Samples.calm "/site/./a/../b.html" = "b.html"
  /\ FixValidate.relative Samples.calm "/site" = ""
  /\ JS.join "/site/dist" "docs//api" = "/site/dist/docs/api"
  /\ JS.join "/site/dist" "../x" = "/site/x"
  /\ JS.join "/site" "" = "/site"
  /\ JS.normalize "a/../../b/" = "../b/".
Proof. vm_compute. repeat split. Qed.

(** The live page of the second Route cannot be fetched. *)
Definition patchy : Env :=
  Samples.with_fetch Samples.calm
    (fun url => if String.eqb url "https://genaiglobal.org/about-us"
                then None else Some "<html></html>").

Lemma first_sync_failure_ends_script_witness :
  exists w', SyncValidate.main 5 (fun _ => patchy) Samples.site
             = Some (1, 0, w').
Proof.
  apply (first_sync_failure_ends_script (fun _ => patchy) Samples.site
           Samples.site [""; "about-us"] "about-us" 5).
  - reflexivity.
  - right. left. reflexivity.
  - intros [html [mainHtml [Hf _]]]. discriminate Hf.
Defined.

(** The site index lists no page. *)
Definition bare : Env :=
  Samples.with_xml_locs Samples.calm (fun _ => []).

Lemma empty_index_never_ends_witness :
  SyncValidate.main 6 (fun _ => bare) Samples.site = None.
Proof.
  apply (empty_index_never_ends (fun _ => bare) Samples.site
           "<html></html>").
  - reflexivity.
  - reflexivity.
  - intros k. reflexivity.
Defined.



(** A validator stub that throws. *)
Definition breaks (a : nat) : M Results := throw ImageSizesDoNotMatch.

Lemma bounded_retry_error_escapes_witness :
  FixValidate.attempts FixValidate.MAX_ATTEMPTS "report.json" no_repair
    breaks 1 Samples.site
  = (Throw ImageSizesDoNotMatch, Samples.site).
Proof.
  apply (bounded_retry_error_escapes "report.json" no_repair breaks 0 2 1
           Samples.site Samples.site Samples.site ImageSizesDoNotMatch).
  - constructor.
  - right. exists Samples.site. split; reflexivity.
Defined.

Lemma pad_origin_anchored_witness :
  exists p,
    VisualRegression.pad Samples.dot 2 2 = Some p
    /\ Image.width p = 2 /\ Image.height p = 2 /\ Image.well_formed p
    /\ forall x y c,
         x < 2 -> y < 2 -> c < 4 ->
         Image.channel p x y c
         = if (x <? Image.width Samples.dot) && (y <? Image.height Samples.dot)
           then Image.channel Samples.dot x y c
           else x00.
Proof.
  apply (pad_origin_anchored Samples.dot 2 2).
  - reflexivity.
  - cbn. lia.
  - cbn. lia.
Defined.


Lemma main_never_stops_witness :
  SyncValidate.main 4 (fun _ => gutted) Samples.site = None.
Proof.
  apply (main_never_stops (fun _ => gutted) Samples.site [""; "about-us"]
           (snd (SyncValidate.prepare gutted Samples.site)) "/site").
  - reflexivity.
  - discriminate.
  - intros k. reflexivity.
  - intros k r _. exists "<html></html>", "<p>hello</p>".
    split; reflexivity.
  - intros j. exists "". split; [left; reflexivity | reflexivity].
Defined.

End MoreRuns.

(* ===================================================================== *)
(** * Versions in the conflict resolver *)
(* ===================================================================== *)

Section Versions.

Import ResolveConflicts.

(** No character of the string is a digit. *)
Fixpoint no_digit (s : string) : bool :=
  match s with
  | EmptyString => true
  | String c rest => negb (is_digit c) && no_digit rest
  end.

(** A component of a version: one digit or more, and nothing else. *)
Definition component (s : string) : bool :=
  negb (String.eqb s "") && only_digits s.

(** What may follow a version: nothing, or a character that does not
    continue it (not a digit, and not a dot before a digit). *)
Definition ends_version (rest : string) : bool :=
  match rest with
  | EmptyString => true
  | String c r =>
      negb (is_digit c)
      && negb (Ascii.eqb c "."
               && match r with
                  | String d _ => is_digit d
                  | EmptyString => false
                  end)
  end.

Lemma components_digits (d t cur : string) :
  only_digits d = true ->
  components (d ++ t) cur = components t (cur ++ d).
Proof.
  revert cur. induction d as [| c d IH]; intros cur H.
  - cbn [append]. rewrite append_empty. reflexivity.
  - cbn [only_digits] in H. apply andb_true_iff in H. destruct H as [Hc Hd].
    cbn [append components]. rewrite Hc, (IH _ Hd).
    rewrite append_assoc. reflexivity.
Qed.

Lemma components_end (rest cur : string) :
  ends_version rest = true -> components rest cur = [cur].
Proof.
  destruct rest as [| c r]; [reflexivity |].
  cbn [ends_version components]. intros H. apply andb_true_iff in H.
  destruct H as [Hc Hdot]. apply negb_true_iff in Hc. rewrite Hc.
  destruct (Ascii.eqb c "."); [| reflexivity].
  destruct r as [| d r]; [reflexivity |].
  cbn [andb] in Hdot. apply negb_true_iff in Hdot. rewrite Hdot.
  reflexivity.
Qed.

Lemma is_digit_dot : is_digit "." = false.
Proof. reflexivity. Qed.

Lemma components_dot (X cur : string) (c : ascii) (t : string) :
  X = String c t -> is_digit c = true ->
  components (String "." X) cur = cur :: components X "".
Proof.
  intros HX Hc. cbn [components]. rewrite is_digit_dot.
  cbn [Ascii.eqb Bool.eqb andb]. rewrite HX at 1. rewrite Hc. reflexivity.
Qed.

Lemma dotted_head (d : string) (ds : list string) (rest : string) :
  component d = true ->
  exists c t,
    (String.concat "." (d :: ds) ++ rest)%string = String c t
    /\ is_digit c = true.
Proof.
  unfold component. intros H. apply andb_true_iff in H.
  destruct H as [Hne Hdig]. destruct d as [| c d]; [discriminate |].
  cbn [only_digits] in Hdig. apply andb_true_iff in Hdig.
  destruct Hdig as [Hc _]. exists c.
  destruct ds; cbn [String.concat append]; eexists; split;
    try reflexivity; exact Hc.
Qed.

(** The components of a dotted version, read from its first digit. *)
Lemma components_dotted (rest : string) (ds : list string) :
  ends_version rest = true ->
  forall d cur,
    Forall (fun x => component x = true) (d :: ds) ->
    components (String.concat "." (d :: ds) ++ rest) cur
    = (cur ++ d)%string :: ds.
Proof.
  intros Hend. induction ds as [| d' ds IH]; intros d cur Hall.
  - cbn [String.concat]. inversion Hall as [| x l Hd _]; subst.
    unfold component in Hd. apply andb_true_iff in Hd.
    rewrite components_digits by apply Hd.
    apply components_end. exact Hend.
  - inversion Hall as [| x l Hd Hrest]; subst.
    unfold component in Hd. apply andb_true_iff in Hd.
    destruct Hd as [_ Hd].
    change (String.concat "." (d :: d' :: ds))
      with (d ++ "." ++ String.concat "." (d' :: ds))%string.
    rewrite !append_assoc, components_digits by exact Hd.
    assert (Hd' : component d' = true) by (inversion Hrest; assumption).
    destruct (dotted_head d' ds rest Hd') as [c [t [HX Hc]]].
    change ("." ++ String.concat "." (d' :: ds) ++ rest)%string
      with (String "." (String.concat "." (d' :: ds) ++ rest)).
    rewrite (components_dot _ (cur ++ d) c t HX Hc).
    rewrite (IH d' "" Hrest). reflexivity.
Qed.

Lemma versionNums_skip (p v : string) :
  no_digit p = true -> versionNums (p ++ v) = versionNums v.
Proof.
  induction p as [| c p IH]; intros H; [reflexivity |].
  cbn [no_digit] in H. apply andb_true_iff in H. destruct H as [Hc Hp].
  apply negb_true_iff in Hc. cbn [append versionNums]. rewrite Hc.
  apply IH. exact Hp.
Qed.

(** X22.  [versionNums] reads the first dotted run of digits of the string
    and nothing else: what stands before the first digit (a range operator,
    say) and what follows the run (a pre-release tag, say) do not count; a
    string without digit reads as [[0]]. *)
Theorem versionNums_reads_first_run :
  (forall v, no_digit v = true -> versionNums v = [0%N])
  /\ (forall p d ds rest,
        no_digit p = true ->
        Forall (fun x => component x = true) (d :: ds) ->
        ends_version rest = true ->
        versionNums (p ++ String.concat "." (d :: ds) ++ rest)
        = map Number (d :: ds)).
Proof.
  split.
  - intros v H. rewrite <- (append_empty v).
    rewrite versionNums_skip by exact H.
    reflexivity.
  - intros p d ds rest Hp Hall Hend. rewrite versionNums_skip by exact Hp.
    assert (Hd : component d = true) by (inversion Hall; assumption).
    unfold component in Hd. apply andb_true_iff in Hd.
    destruct Hd as [Hne Hdig]. destruct d as [| c d]; [discriminate |].
    cbn [only_digits] in Hdig. apply andb_true_iff in Hdig.
    destruct Hdig as [Hc _].
    assert (Hhead : exists t,
              (String.concat "." (String c d :: ds) ++ rest)%string
              = String c t).
    { destruct ds; cbn [String.concat append]; eexists; reflexivity. }
    destruct Hhead as [t Ht].
    assert (Hv : versionNums (String c t)
                 = map Number (components (String c t) "")).
    { cbn [versionNums]. rewrite Hc. reflexivity. }
    rewrite Ht, Hv, <- Ht.
    rewrite (components_dotted rest ds Hend (String c d) "" Hall).
    reflexivity.
Qed.

(** ** The higher of two versions *)

Definition all_zero (l : list N) : bool := forallb (N.eqb 0) l.

(** The comparison of two lists of numbers, the shorter one continued
    by zeros. *)
Fixpoint vcompare (va vb : list N) : comparison :=
  match va, vb with
  | [], _ => if all_zero vb then Eq else Lt
  | _, [] => if all_zero va then Eq else Gt
  | x :: va', y :: vb' =>
      match (x ?= y)%N with
      | Eq => vcompare va' vb'
      | c => c
      end
  end.

Lemma skipn_nil_nth (l : list N) (i : nat) :
  skipn i l = [] -> nth i l 0%N = 0%N /\ skipn (S i) l = [].
Proof.
  revert l. induction i as [| i IH]; intros l H.
  - cbn [skipn] in H. subst l. split; reflexivity.
  - destruct l as [| x l]; [split; reflexivity |].
    cbn [skipn nth] in *. apply IH. exact H.
Qed.

Lemma skipn_cons_nth (l : list N) (i : nat) (x : N) (t : list N) :
  skipn i l = x :: t -> nth i l 0%N = x /\ skipn (S i) l = t.
Proof.
  revert l. induction i as [| i IH]; intros l H.
  - cbn [skipn] in H. subst l. split; reflexivity.
  - destruct l as [| y l]; [discriminate |].
    cbn [skipn nth] in *. apply IH. exact H.
Qed.

Lemma compareFrom_spec (a b : string) (va vb : list N) (remaining : nat) :
  forall i,
    remaining = Nat.max (length (skipn i va)) (length (skipn i vb)) ->
    compareFrom a b va vb i remaining
    = match vcompare (skipn i va) (skipn i vb) with
      | Lt => b
      | _ => a
      end.
Proof.
  induction remaining as [| r IH]; intros i Hr.
  - destruct (skipn i va) as [| x ta]; [| cbn [length] in Hr; lia].
    destruct (skipn i vb) as [| y tb]; [| cbn [length] in Hr; lia].
    reflexivity.
  - cbn [compareFrom]. cbv zeta.
    destruct (skipn i va) as [| x ta] eqn:Ea;
      destruct (skipn i vb) as [| y tb] eqn:Eb.
    + cbn [length] in Hr. lia.
    + destruct (skipn_nil_nth va i Ea) as [Hx Ha'].
      destruct (skipn_cons_nth vb i y tb Eb) as [Hy Hb'].
      rewrite Hx, Hy. cbn [vcompare all_zero forallb].
      replace (y <? 0)%N with false by (symmetry; apply N.ltb_ge; lia).
      destruct (N.ltb_spec 0 y) as [Hpos | Hzero].
      * replace (0 =? y)%N with false by (symmetry; apply N.eqb_neq; lia).
        reflexivity.
      * replace (0 =? y)%N with true by (symmetry; apply N.eqb_eq; lia).
        cbn [andb]. rewrite (IH (S i)).
        -- rewrite Ha', Hb'. cbn [vcompare]. reflexivity.
        -- rewrite Ha', Hb'. cbn [length] in *. lia.
    + destruct (skipn_cons_nth va i x ta Ea) as [Hx Ha'].
      destruct (skipn_nil_nth vb i Eb) as [Hy Hb'].
      rewrite Hx, Hy. cbn [vcompare all_zero forallb].
      replace (x <? 0)%N with false by (symmetry; apply N.ltb_ge; lia).
      destruct (N.ltb_spec 0 x) as [Hpos | Hzero].
      * replace (0 =? x)%N with false by (symmetry; apply N.eqb_neq; lia).
        reflexivity.
      * replace (0 =? x)%N with true by (symmetry; apply N.eqb_eq; lia).
        cbn [andb]. rewrite (IH (S i)).
        -- rewrite Ha', Hb'. destruct ta; reflexivity.
        -- rewrite Ha', Hb'. cbn [length] in *. lia.
    + destruct (skipn_cons_nth va i x ta Ea) as [Hx Ha'].
      destruct (skipn_cons_nth vb i y tb Eb) as [Hy Hb'].
      rewrite Hx, Hy. cbn [vcompare].
      destruct (N.compare_spec x y) as [Heq | Hlt | Hgt].
      * rewrite <- Heq, N.ltb_irrefl. rewrite (IH (S i)).
        -- rewrite Ha', Hb'. reflexivity.
        -- rewrite Ha', Hb'. cbn [length] in *. lia.
      * replace (y <? x)%N with false by (symmetry; apply N.ltb_ge; lia).
        replace (x <? y)%N with true by (symmetry; apply N.ltb_lt; lia).
        reflexivity.
      * replace (y <? x)%N with true by (symmetry; apply N.ltb_lt; lia).
        reflexivity.
Qed.

Lemma vcompare_refl (va : list N) : vcompare va va = Eq.
Proof.
  induction va as [| x va IH]; [reflexivity |].
  cbn [vcompare]. rewrite N.compare_refl. exact IH.
Qed.

Lemma higherVersion_vcompare (x y : string) :
  higherVersion x y
  = match vcompare (versionNums x) (versionNums y) with
    | Lt => y
    | _ => x
    end.
Proof.
  unfold higherVersion. cbv zeta.
  rewrite (compareFrom_spec x y _ _ _ 0); reflexivity.
Qed.

Lemma higherVersion_same (s : string) : higherVersion s s = s.
Proof. rewrite higherVersion_vcompare, vcompare_refl. reflexivity. Qed.

(** X23.  [higherVersion] compares the numbers of the two versions from the
    left, the shorter list continued by zeros, and answers its second
    argument exactly when that one is higher: on a tie the first argument
    stays.  It always answers one of its arguments. *)
Theorem higherVersion_picks_the_higher (a b : string) :
  higherVersion a b
  = match vcompare (versionNums a) (versionNums b) with
    | Lt => b
    | _ => a
    end
  /\ (higherVersion a b = a \/ higherVersion a b = b)
  /\ higherVersion a a = a.
Proof.
  split; [apply higherVersion_vcompare |]. split.
  - rewrite higherVersion_vcompare. destruct (vcompare _ _); auto.
  - apply higherVersion_same.
Qed.

End Versions.

(* ===================================================================== *)
(** * Merging in the conflict resolver *)
(* ===================================================================== *)

Section Merging.

Import ResolveConflicts.

Definition names (f : list (string * json)) : list string := map fst f.

(** ** Properties of an object *)

Lemma own_listed (f : list (string * json)) (k : string) (v : json) :
  own f k = Some v -> In (k, v) f.
Proof.
  unfold own. destruct (find _ f) as [[k' x] |] eqn:E; [| discriminate].
  apply find_some in E. cbn [fst snd] in *. destruct E as [Hin Heq].
  apply String.eqb_eq in Heq. intros H. inversion H; subst. exact Hin.
Qed.

Lemma own_unlisted (f : list (string * json)) (k : string) :
  ~ In k (names f) -> own f k = None.
Proof.
  unfold own, names. induction f as [| [k' x] f IH]; [reflexivity |].
  cbn [map fst find snd]. intros H.
  destruct (String.eqb_spec k' k) as [-> | Hk].
  - exfalso. apply H. left. reflexivity.
  - apply IH. intros Hin. apply H. right. exact Hin.
Qed.

Lemma own_first (f : list (string * json)) (k : string) (v : json) :
  NoDup (names f) -> In (k, v) f -> own f k = Some v.
Proof.
  unfold own, names. induction f as [| [k' x] f IH]; [intros _ [] |].
  cbn [map fst find snd]. intros Hnd Hin.
  inversion Hnd as [| y l Hout Hnd']; subst.
  destruct Hin as [Heq | Hin].
  - inversion Heq; subst. rewrite String.eqb_refl. reflexivity.
  - destruct (String.eqb_spec k' k) as [-> | Hk].
    + exfalso. apply Hout. apply in_map_iff. exists (k, v).
      split; [reflexivity | exact Hin].
    + apply IH; assumption.
Qed.

Lemma own_app_fresh (f : list (string * json)) (k k' : string) (v : json) :
  own f k = None ->
  own (f ++ [(k, v)]) k' = if String.eqb k k' then Some v else own f k'.
Proof.
  unfold own. induction f as [| [k0 x] f IH]; cbn [app find fst snd].
  - intros _. destruct (String.eqb k k'); reflexivity.
  - destruct (String.eqb_spec k0 k) as [-> | Hk]; [discriminate |].
    intros H. destruct (String.eqb_spec k0 k') as [-> | Hk'].
    + destruct (String.eqb_spec k k'); [congruence | reflexivity].
    + exact (IH H).
Qed.

Lemma own_insert_index (f : list (string * json)) (k k' : string) (v : json) :
  own f k = None ->
  own (insert_index f k v) k' = if String.eqb k k' then Some v else own f k'.
Proof.
  unfold own. induction f as [| [k0 x] f IH]; cbn [insert_index find fst snd].
  - intros _. destruct (String.eqb k k'); reflexivity.
  - destruct (String.eqb_spec k0 k) as [-> | Hk]; [discriminate |].
    intros H.
    destruct (is_array_index k0 && (digits_value k0 0 <? digits_value k 0)%N);
      cbn [find fst snd].
    + destruct (String.eqb_spec k0 k') as [-> | Hk'].
      * destruct (String.eqb_spec k k'); [congruence | reflexivity].
      * exact (IH H).
    + destruct (String.eqb k k'); reflexivity.
Qed.

Lemma own_replace_own (f : list (string * json)) (k k' : string) (v : json) :
  own (replace_own f k v) k'
  = if String.eqb k k'
    then match own f k with
         | Some _ => Some v
         | None => None
         end
    else own f k'.
Proof.
  unfold own. induction f as [| [k0 x] f IH]; cbn [replace_own find fst snd].
  - destruct (String.eqb k k'); reflexivity.
  - destruct (String.eqb_spec k0 k) as [-> | Hk]; cbn [find fst snd].
    + destruct (String.eqb k k'); reflexivity.
    + destruct (String.eqb_spec k0 k') as [-> | Hk'].
      * destruct (String.eqb_spec k k'); [congruence | reflexivity].
      * exact IH.
Qed.

Lemma own_set_own (f : list (string * json)) (k k' : string) (v : json) :
  own (set_own f k v) k' = if String.eqb k k' then Some v else own f k'.
Proof.
  unfold set_own. destruct (own f k) eqn:E.
  - rewrite own_replace_own, E. reflexivity.
  - destruct (is_array_index k).
    + apply own_insert_index. exact E.
    + apply own_app_fresh. exact E.
Qed.

Lemma own_set_same (f : list (string * json)) (k : string) (v : json) :
  own (set_own f k v) k = Some v.
Proof. rewrite own_set_own, String.eqb_refl. reflexivity. Qed.

Lemma own_set_other (f : list (string * json)) (k k' : string) (v : json) :
  k <> k' -> own (set_own f k v) k' = own f k'.
Proof.
  intros Hne. rewrite own_set_own.
  destruct (String.eqb_spec k k'); [contradiction | reflexivity].
Qed.

Lemma set_own_unchanged (f : list (string * json)) (k : string) (v : json) :
  own f k = Some v -> set_own f k v = f.
Proof.
  intros H. unfold set_own. rewrite H. revert H. unfold own.
  induction f as [| [k' x] f IH]; cbn [replace_own find fst snd].
  - discriminate.
  - destruct (String.eqb_spec k' k) as [-> | Hk].
    + intros H. inversion H; subst. reflexivity.
    + intros H. rewrite (IH H). reflexivity.
Qed.

(** A new property whose name is not an array index goes to the end. *)
Lemma set_own_fresh (f : list (string * json)) (k : string) (v : json) :
  ~ In k (names f) -> is_array_index k = false ->
  set_own f k v = f ++ [(k, v)].
Proof.
  intros Hout Hk. unfold set_own.
  rewrite (own_unlisted f k Hout), Hk. reflexivity.
Qed.

(** ** Dependencies *)

(** What [mergeDeps] makes of a dependency of its second argument,
    given the first: [None] stands for the [TypeError]. *)
Definition merged_dep (fa : list (string * json)) (name : string)
    (ver : json) : option json :=
  match own fa name with
  | Some cur =>
      if truthy cur
      then match cur, ver with
           | JStr x, JStr y => Some (JStr (higherVersion x y))
           | _, _ => None
           end
      else Some ver
  | None => if is_inherited name then None else Some ver
  end.

Lemma mergeDep_spec (fa out : list (string * json)) (name : string)
    (ver : json) :
  own out name = own fa name ->
  match mergeDep out name ver with
  | Some out' =>
      exists r, merged_dep fa name ver = Some r
                /\ own out' name = Some r
                /\ forall n, n <> name -> own out' n = own out n
  | None => merged_dep fa name ver = None
  end.
Proof.
  intros Hsame. unfold mergeDep, merged_dep. rewrite <- Hsame.
  destruct (own out name) as [cur |].
  - destruct (truthy cur).
    + destruct cur; try reflexivity. destruct ver; try reflexivity.
      eexists. split; [reflexivity |]. split; [apply own_set_same |].
      intros n Hn. apply own_set_other. congruence.
    + eexists. split; [reflexivity |]. split; [apply own_set_same |].
      intros n Hn. apply own_set_other. congruence.
  - destruct (is_inherited name); [reflexivity |].
    eexists. split; [reflexivity |]. split; [apply own_set_same |].
    intros n Hn. apply own_set_other. congruence.
Qed.

Lemma mergeDepsLoop_spec (fa : list (string * json))
    (l : list (string * json)) :
  NoDup (names l) ->
  forall out,
    (forall name, In name (names l) -> own out name = own fa name) ->
    match mergeDepsLoop l out with
    | Some out' =>
        (forall name ver,
           In (name, ver) l ->
           exists r, merged_dep fa name ver = Some r
                     /\ own out' name = Some r)
        /\ (forall name, ~ In name (names l) -> own out' name = own out name)
    | None =>
        exists name ver, In (name, ver) l /\ merged_dep fa name ver = None
    end.
Proof.
  induction l as [| [name ver] l IH]; intros Hnd out Hsame.
  - cbn [mergeDepsLoop]. split; [intros name ver [] | reflexivity].
  - cbn [mergeDepsLoop]. inversion Hnd as [| y t Hout Hnd']; subst.
    pose proof (mergeDep_spec fa out name ver
                  (Hsame name (or_introl eq_refl))) as Hstep.
    destruct (mergeDep out name ver) as [out1 |].
    + destruct Hstep as [r [Hr [Hown Hother]]].
      assert (Hsame1 : forall n, In n (names l) -> own out1 n = own fa n).
      { intros n Hn. rewrite Hother.
        - apply Hsame. right. exact Hn.
        - intros ->. apply Hout. exact Hn. }
      specialize (IH Hnd' out1 Hsame1).
      destruct (mergeDepsLoop l out1) as [out' |].
      * destruct IH as [Hin Hrest]. split.
        -- intros n v [Heq | Hn].
           ++ inversion Heq; subst. exists r. split; [exact Hr |].
              rewrite Hrest by exact Hout. exact Hown.
           ++ apply Hin. exact Hn.
        -- intros n Hn. rewrite Hrest.
           ++ apply Hother. intros ->. apply Hn. left. reflexivity.
           ++ intros H. apply Hn. right. exact H.
      * destruct IH as [n [v [Hin Hv]]]. exists n, v.
        split; [right; exact Hin | exact Hv].
    + exists name, ver. split; [left; reflexivity | exact Hstep].
Qed.

(** X24.  [mergeDeps] goes through the dependencies of its second argument
    one name at a time.  It throws exactly when, for one of them, the first
    argument holds a truthy value under that name and the two values are not
    both strings, or holds nothing under a name that every object inherits.
    Otherwise the result holds, under every name of the second argument, the
    higher of the two versions (the version of the second argument when the
    first has none, or a falsy one), and under every other name what the
    first argument holds. *)
Theorem mergeDeps_outcome (fa fb : list (string * json)) :
  NoDup (names fb) ->
  match mergeDeps (Some (JObj fa)) (JObj fb) with
  | Some (JObj out) =>
      (forall name ver,
         In (name, ver) fb ->
         exists r, merged_dep fa name ver = Some r /\ own out name = Some r)
      /\ (forall name, ~ In name (names fb) -> own out name = own fa name)
  | Some _ => False
  | None =>
      exists name ver, In (name, ver) fb /\ merged_dep fa name ver = None
  end.
Proof.
  intros Hnd. unfold mergeDeps. cbn [entries own_enumerable].
  pose proof (mergeDepsLoop_spec fa fb Hnd fa (fun _ _ => eq_refl)) as H.
  destruct (mergeDepsLoop fb fa) as [out |]; exact H.
Qed.

(** An ordinary name: not one that every object inherits, and not an
    array index. *)
Definition ordinary (name : string) : bool :=
  negb (is_inherited name) && negb (is_array_index name).

(** A map of versions: ordinary names that differ from one another,
    each with a string. *)
Definition versions (f : list (string * json)) : Prop :=
  NoDup (names f)
  /\ Forall (fun kv => ordinary (fst kv) = true
                       /\ exists s, snd kv = JStr s) f.

Lemma mergeDepsLoop_same (fa : list (string * json)) :
  versions fa ->
  forall l, incl l fa -> mergeDepsLoop l fa = Some fa.
Proof.
  intros [Hnd Hall] l. induction l as [| [name ver] l IH]; intros Hincl.
  - reflexivity.
  - cbn [mergeDepsLoop].
    assert (Hin : In (name, ver) fa) by (apply Hincl; left; reflexivity).
    assert (Hown : own fa name = Some ver) by (apply own_first; assumption).
    rewrite Forall_forall in Hall. destruct (Hall _ Hin) as [_ [s Hs]].
    cbn [snd] in Hs. subst ver.
    assert (Hstep : mergeDep fa name (JStr s) = Some fa).
    { unfold mergeDep. rewrite Hown. cbn [truthy].
      destruct (negb (String.eqb s "")).
      - rewrite higherVersion_same, set_own_unchanged by exact Hown.
        reflexivity.
      - rewrite set_own_unchanged by exact Hown. reflexivity. }
    rewrite Hstep. apply IH. intros x Hx. apply Hincl. right. exact Hx.
Qed.

Lemma mergeDepsLoop_fresh (l : list (string * json)) :
  forall out,
    NoDup (names out ++ names l) ->
    Forall (fun kv => ordinary (fst kv) = true) l ->
    mergeDepsLoop l out = Some (out ++ l).
Proof.
  induction l as [| [name ver] l IH]; intros out Hnd Hall.
  - rewrite app_nil_r. reflexivity.
  - cbn [mergeDepsLoop]. inversion Hall as [| x t Hname Hrest]; subst.
    cbn [fst] in Hname. unfold ordinary in Hname.
    apply andb_true_iff in Hname. destruct Hname as [Hinh Hidx].
    apply negb_true_iff in Hinh. apply negb_true_iff in Hidx.
    assert (Hout : ~ In name (names out)).
    { intros Hin. apply NoDup_remove_2 in Hnd. apply Hnd.
      apply in_or_app. left. exact Hin. }
    assert (Hstep : mergeDep out name ver = Some (out ++ [(name, ver)])).
    { unfold mergeDep. rewrite (own_unlisted out name Hout), Hinh.
      rewrite set_own_fresh by assumption. reflexivity. }
    rewrite Hstep, IH.
    + rewrite <- app_assoc. reflexivity.
    + unfold names in *. rewrite map_app. cbn [map fst].
      rewrite <- app_assoc. cbn [app]. cbn [map fst] in Hnd. exact Hnd.
    + exact Hrest.
Qed.

Lemma mergeDeps_versions (f : list (string * json)) :
  versions f ->
  mergeDeps None (JObj f) = Some (JObj f)
  /\ mergeDeps (Some (JObj [])) (JObj f) = Some (JObj f)
  /\ mergeDeps (Some (JObj f)) (JObj []) = Some (JObj f)
  /\ mergeDeps (Some (JObj f)) (JObj f) = Some (JObj f).
Proof.
  intros Hf. pose proof Hf as [Hnd Hall].
  assert (Hfresh : mergeDepsLoop f [] = Some f).
  { rewrite (mergeDepsLoop_fresh f []); [reflexivity | exact Hnd |].
    eapply Forall_impl; [| exact Hall]. cbv beta. intros kv [H _]. exact H. }
  unfold mergeDeps. cbn [entries own_enumerable mergeDepsLoop].
  rewrite Hfresh, (mergeDepsLoop_same f Hf f (incl_refl f)).
  repeat split.
Qed.

(** X25.  On maps of versions: merging with the empty map, on either side,
    gives the other map; merging a map with itself gives it back. *)
Theorem mergeDeps_neutral_and_idempotent (f : list (string * json)) :
  versions f ->
  mergeDeps None (JObj f) = Some (JObj f)
  /\ mergeDeps (Some (JObj [])) (JObj f) = Some (JObj f)
  /\ mergeDeps (Some (JObj f)) (JObj []) = Some (JObj f)
  /\ mergeDeps (Some (JObj f)) (JObj f) = Some (JObj f).
Proof. exact (mergeDeps_versions f). Qed.

End Merging.

Section DeepMerging.

Import ResolveConflicts.

(** What [deepMerge] makes of a field of its second argument, given the
    first. *)
Definition merged_field (a : json) (key : string) (val : json)
    : Outcome json :=
  mergedField a key val (fun a' => deepMerge a' val).

(** The loop of [deepMerge] over the fields of an object. *)
Fixpoint objLoop (a : json) (l : list (string * json))
    (result : list (string * json)) : Outcome json :=
  match l with
  | [] => Returns (JObj result)
  | (key, val) :: rest =>
      match merged_field a key val with
      | Returns r => objLoop a rest (assign result key r)
      | Throws e => Throws e
      | Unfollowed => Unfollowed
      end
  end.

Lemma deepMerge_object (a : json) (fb : list (string * json)) :
  deepMerge a (JObj fb) = objLoop a fb (own_enumerable a).
Proof.
  cbn [deepMerge]. generalize (own_enumerable a) as result.
  induction fb as [| [key val] fb IH]; intros result; [reflexivity |].
  cbn [objLoop]. unfold merged_field.
  destruct (mergedField a key val _) as [r | e |];
    [apply IH | reflexivity | reflexivity].
Qed.

Lemma own_assign_other (f : list (string * json)) (k k' : string) (v : json) :
  k <> k' -> own (assign f k v) k' = own f k'.
Proof.
  intros Hne. unfold assign. destruct (own f k).
  - apply own_set_other. exact Hne.
  - destruct (String.eqb k "__proto__"); [reflexivity |].
    apply own_set_other. exact Hne.
Qed.

Lemma own_assign_same (f : list (string * json)) (k : string) (v : json) :
  own (assign f k v) k
  = match own f k with
    | Some _ => Some v
    | None => if String.eqb k "__proto__" then None else Some v
    end.
Proof.
  unfold assign. destruct (own f k) eqn:E.
  - apply own_set_same.
  - destruct (String.eqb k "__proto__"); [exact E | apply own_set_same].
Qed.

(** The outcome of the merge of a field that does not return. *)
Definition stops (o : Outcome json) (a : json) (l : list (string * json))
    : Prop :=
  exists key val, In (key, val) l /\ merged_field a key val = o.

Lemma objLoop_spec (a : json) (l : list (string * json)) :
  NoDup (names l) ->
  forall result,
    match objLoop a l result with
    | Returns (JObj out) =>
        (forall key val,
           In (key, val) l ->
           exists r,
             merged_field a key val = Returns r
             /\ own out key
                = match own result key with
                  | Some _ => Some r
                  | None =>
                      if String.eqb key "__proto__" then None else Some r
                  end)
        /\ (forall key, ~ In key (names l) -> own out key = own result key)
    | Returns _ => False
    | Throws e => stops (Throws e) a l
    | Unfollowed => stops Unfollowed a l
    end.
Proof.
  induction l as [| [key val] l IH]; intros Hnd result.
  - cbn [objLoop]. split; [intros key val [] | reflexivity].
  - cbn [objLoop]. inversion Hnd as [| y t Hout Hnd']; subst.
    destruct (merged_field a key val) as [r | e |] eqn:Er.
    + specialize (IH Hnd' (assign result key r)).
      destruct (objLoop a l (assign result key r))
        as [[ | | | | | out] | e |]; try exact IH.
      * destruct IH as [Hin Hrest]. split.
        -- intros k v [Heq | Hk].
           ++ inversion Heq; subst. exists r. split; [exact Er |].
              rewrite Hrest by exact Hout. apply own_assign_same.
           ++ destruct (Hin k v Hk) as [r' [Hr' Hown]]. exists r'.
              split; [exact Hr' |]. rewrite Hown.
              rewrite own_assign_other; [reflexivity |].
              intros ->. apply Hout. apply in_map_iff. exists (k, v).
              split; [reflexivity | exact Hk].
        -- intros k Hk. rewrite Hrest.
           ++ apply own_assign_other. intros ->. apply Hk. left. reflexivity.
           ++ intros H. apply Hk. right. exact H.
      * destruct IH as [k [v [Hin Hv]]]. exists k, v.
        split; [right; exact Hin | exact Hv].
      * destruct IH as [k [v [Hin Hv]]]. exists k, v.
        split; [right; exact Hin | exact Hv].
    + exists key, val. split; [left; reflexivity | exact Er].
    + exists key, val. split; [left; reflexivity | exact Er].
Qed.

(** X26.  [deepMerge] on an object as second argument goes through its
    fields one name at a time.  When it returns, the result is an object
    that holds, under every name of the second argument, the merge of
    that field (the values of the two sides merged as dependencies or
    as objects, or else the value of the second argument), and under
    every other name what the first argument holds; only the name
    [__proto__], when the first argument does not have it, is dropped.
    When it does not return, its outcome is that of the merge of one of
    the fields. *)
Theorem deepMerge_outcome (a : json) (fb : list (string * json)) :
  NoDup (names fb) ->
  match deepMerge a (JObj fb) with
  | Returns (JObj out) =>
      (forall key val,
         In (key, val) fb ->
         exists r,
           merged_field a key val = Returns r
           /\ own out key
              = match own (own_enumerable a) key with
                | Some _ => Some r
                | None =>
                    if String.eqb key "__proto__" then None else Some r
                end)
      /\ (forall key,
            ~ In key (names fb) -> own out key = own (own_enumerable a) key)
  | Returns _ => False
  | Throws e => stops (Throws e) a fb
  | Unfollowed => stops Unfollowed a fb
  end.
Proof.
  intros Hnd. rewrite deepMerge_object.
  exact (objLoop_spec a fb Hnd (own_enumerable a)).
Qed.

End DeepMerging.

Section Manifests.

Import ResolveConflicts.

(** A manifest: an object whose names are ordinary and differ from one
    another, whose dependencies are maps of versions, and whose other
    objects are manifests themselves. *)
Inductive manifest : json -> Prop :=
| manifest_object (f : list (string * json)) :
    NoDup (names f) ->
    Forall (fun key => ordinary key = true) (names f) ->
    (forall key val, In (key, val) f -> manifest_field key val) ->
    manifest (JObj f)
with manifest_field : string -> json -> Prop :=
| field_versions (key : string) (g : list (string * json)) :
    deps key = true -> versions g -> manifest_field key (JObj g)
| field_object (key : string) (f : list (string * json)) :
    deps key = false -> manifest (JObj f) -> manifest_field key (JObj f)
| field_value (key : string) (val : json) :
    deps key = false -> is_plain_object val = false ->
    manifest_field key val.

Fixpoint size (v : json) : nat :=
  match v with
  | JArr items =>
      S ((fix sum (l : list json) : nat :=
            match l with
            | [] => 0
            | x :: t => size x + sum t
            end) items)
  | JObj fields =>
      S ((fix sum (l : list (string * json)) : nat :=
            match l with
            | [] => 0
            | (_, x) :: t => size x + sum t
            end) fields)
  | _ => 1
  end.

Lemma size_field (f : list (string * json)) (key : string) (val : json) :
  In (key, val) f -> size val < size (JObj f).
Proof.
  cbn [size]. induction f as [| [k x] f IH]; intros Hin; [destruct Hin |].
  destruct Hin as [Heq | Hin].
  - inversion Heq; subst. lia.
  - specialize (IH Hin). lia.
Qed.

Lemma assign_fresh (out : list (string * json)) (key : string) (v : json) :
  ~ In key (names out) -> ordinary key = true ->
  assign out key v = out ++ [(key, v)].
Proof.
  intros Hout Hkey. unfold ordinary in Hkey.
  apply andb_true_iff in Hkey. destruct Hkey as [Hinh Hidx].
  apply negb_true_iff in Hinh. apply negb_true_iff in Hidx.
  unfold assign. rewrite (own_unlisted out key Hout).
  destruct (String.eqb_spec key "__proto__") as [-> | _];
    [discriminate Hinh |].
  apply set_own_fresh; assumption.
Qed.

Lemma deepMerge_manifest (n : nat) :
  forall v, size v < n -> manifest v ->
    deepMerge v v = Returns v /\ deepMerge (JObj []) v = Returns v.
Proof.
  induction n as [| n IH]; intros v Hsize Hm; [lia |].
  destruct Hm as [f Hnd Hord Hfields].
  assert (Hname : forall key val, In (key, val) f -> ordinary key = true).
  { intros key val Hin. rewrite Forall_forall in Hord. apply Hord.
    apply in_map_iff. exists (key, val). split; [reflexivity | exact Hin]. }
  assert (Hfield : forall key val,
            In (key, val) f ->
            merged_field (JObj f) key val = Returns val
            /\ merged_field (JObj []) key val = Returns val).
  { intros key val Hin. unfold merged_field, mergedField. cbn [get].
    rewrite (own_first f key val Hnd Hin). cbn [own find].
    pose proof (Hname key val Hin) as Hkey. unfold ordinary in Hkey.
    apply andb_true_iff in Hkey. destruct Hkey as [Hinh _].
    apply negb_true_iff in Hinh. rewrite Hinh.
    pose proof (size_field f key val Hin) as Hlt.
    destruct (Hfields key val Hin) as [k g Hk Hg | k f' Hk Hf' | k x Hk Hx].
    - rewrite Hk.
      destruct (mergeDeps_versions g Hg) as [H1 [_ [_ H4]]].
      rewrite H1, H4. split; reflexivity.
    - rewrite Hk. cbn [is_plain_object]. unfold or_empty. cbn [truthy].
      destruct (IH (JObj f') ltac:(lia) Hf') as [H1 H2].
      split; assumption.
    - rewrite Hk, Hx. split; reflexivity. }
  rewrite !deepMerge_object. cbn [own_enumerable]. split.
  - assert (Hloop : forall l,
              incl l f -> objLoop (JObj f) l f = Returns (JObj f)).
    { induction l as [| [key val] l IHl]; intros Hincl; [reflexivity |].
      cbn [objLoop].
      assert (Hin : In (key, val) f) by (apply Hincl; left; reflexivity).
      destruct (Hfield key val Hin) as [H1 _]. rewrite H1.
      unfold assign. rewrite (own_first f key val Hnd Hin).
      rewrite set_own_unchanged by (apply own_first; assumption).
      apply IHl. intros x Hx. apply Hincl. right. exact Hx. }
    apply Hloop. apply incl_refl.
  - assert (Hloop : forall l out,
              incl l f -> NoDup (names out ++ names l) ->
              objLoop (JObj []) l out = Returns (JObj (out ++ l))).
    { induction l as [| [key val] l IHl]; intros out Hincl Hnd'.
      - rewrite app_nil_r. reflexivity.
      - cbn [objLoop].
        assert (Hin : In (key, val) f) by (apply Hincl; left; reflexivity).
        destruct (Hfield key val Hin) as [_ H2]. rewrite H2.
        rewrite assign_fresh.
        + rewrite IHl.
          * rewrite <- app_assoc. reflexivity.
          * intros x Hx. apply Hincl. right. exact Hx.
          * unfold names in *. rewrite map_app. cbn [map fst].
            rewrite <- app_assoc. exact Hnd'.
        + intros Hk. apply NoDup_remove_2 in Hnd'. apply Hnd'.
          apply in_or_app. left. exact Hk.
        + exact (Hname key val Hin). }
    apply (Hloop f []); [apply incl_refl | exact Hnd].
Qed.

(** X27.  On manifests: merging a manifest with itself gives it back, and so
    does merging it into the empty object; merging the empty object into it
    gives it back as well. *)
Theorem deepMerge_neutral_and_idempotent (v : json) :
  manifest v ->
  deepMerge v v = Returns v
  /\ deepMerge (JObj []) v = Returns v
  /\ deepMerge v (JObj []) = Returns v.
Proof.
  intros Hm.
  destruct (deepMerge_manifest (S (size v)) v (Nat.lt_succ_diag_r _) Hm)
    as [H1 H2].
  split; [exact H1 |]. split; [exact H2 |].
  destruct Hm. reflexivity.
Qed.

End Manifests.

(* ===================================================================== *)
(** * Conflict blocks *)
(* ===================================================================== *)

Section ConflictBlocks.

Import ResolveConflicts.

Local Open Scope string_scope.

Lemma prefix_short (p s t : string) :
  String.length p <= String.length s ->
  String.prefix p (s ++ t) = String.prefix p s.
Proof.
  revert s. induction p as [| c p IH]; intros s Hlen.
  - destruct s; [destruct t |]; reflexivity.
  - destruct s as [| d s]; [cbn [String.length] in Hlen; lia |].
    cbn [append String.prefix]. destruct (ascii_dec c d); [| reflexivity].
    apply IH. cbn [String.length] in Hlen. lia.
Qed.

Lemma length_append (a b : string) :
  String.length (a ++ b) = String.length a + String.length b.
Proof.
  induction a as [| c a IH]; [reflexivity |].
  cbn [append String.length]. rewrite IH. reflexivity.
Qed.

Lemma includes_here (s pat : string) :
  String.prefix pat s = true -> JS.includes s pat = true.
Proof. intros H. destruct s; cbn [JS.includes]; rewrite H; reflexivity. Qed.

Lemma includes_append (a pat b : string) :
  JS.includes (a ++ pat ++ b) pat = true.
Proof.
  induction a as [| c a IH].
  - cbn [append]. rewrite includes_here by apply prefix_append.
    reflexivity.
  - cbn [append JS.includes]. rewrite IH. apply orb_true_r.
Qed.

Lemma split_first_here (pat s : string) :
  String.prefix pat s = true ->
  split_first pat s = Some ("", JS.drop (String.length pat) s).
Proof. intros H. destruct s; cbn [split_first]; rewrite H; reflexivity. Qed.

(** A pattern of which [init] is all but the last character, found at
    its first occurrence. *)
Lemma split_first_found (init : string) (last : ascii)
    (before after : string) :
  JS.includes (before ++ init) (init ++ String last "") = false ->
  split_first (init ++ String last "")
    (before ++ (init ++ String last "") ++ after)
  = Some (before, after).
Proof.
  induction before as [| c before IH]; intros Hno.
  - cbn [append]. rewrite split_first_here by apply prefix_append.
    rewrite drop_append. reflexivity.
  - cbn [append split_first].
    cbn [append JS.includes] in Hno. apply orb_false_iff in Hno.
    destruct Hno as [Hpre Hrest].
    assert (Hp : String.prefix (init ++ String last "")
                   (String c (before ++ (init ++ String last "") ++ after))
                 = false).
    { rewrite <- Hpre.
      change (String c (before ++ (init ++ String last "") ++ after))
        with (String c before ++ (init ++ String last "") ++ after).
      change (String c (before ++ init)) with (String c before ++ init).
      rewrite (append_assoc init), <- (append_assoc (String c before) init).
      apply prefix_short. rewrite !length_append. cbn [String.length]. lia. }
    rewrite Hp, (IH Hrest). reflexivity.
Qed.

Lemma split_first_none (pat s : string) :
  JS.includes s pat = false -> split_first pat s = None.
Proof.
  induction s as [| c s IH]; cbn [JS.includes split_first]; intros H;
    apply orb_false_iff in H; destruct H as [Hp Hr]; rewrite Hp.
  - reflexivity.
  - rewrite (IH Hr). reflexivity.
Qed.

Lemma has_char_includes (c : ascii) (s : string) :
  JS.has_char c s = false -> JS.includes s (String c "") = false.
Proof.
  induction s as [| d s IH]; [reflexivity |].
  cbn [JS.has_char JS.includes String.prefix]. intros H.
  apply orb_false_iff in H. destruct H as [Hc Hs]. rewrite (IH Hs).
  destruct (ascii_dec c d) as [-> | Hne].
  - rewrite Ascii.eqb_refl in Hc. discriminate.
  - reflexivity.
Qed.

(** A conflict block, as the version control system writes it, with the
    text before it and the text after the label of its closing marker. *)
Definition block (pre label1 ours theirs label2 : string) : string :=
  pre ++ "<<<<<<<" ++ label1 ++ nl ++ ours ++ "=======" ++ nl ++ theirs
  ++ ">>>>>>>" ++ label2.

(** The markers stand where they were put: no opening marker starts
    before the block, no line feed is in the label of the opening
    marker, no separator line starts before the one of the block, and
    no separator or closing marker starts inside a side. *)
Definition well_placed (pre label1 ours theirs : string) : Prop :=
  JS.includes (pre ++ "<<<<<<") "<<<<<<<" = false
  /\ JS.has_char (ascii_of_nat 10) label1 = false
  /\ JS.includes (ours ++ "======") "=======" = false
  /\ JS.includes (pre ++ "<<<<<<<" ++ label1 ++ nl ++ ours ++ "=======")
       ("=======" ++ nl) = false
  /\ JS.includes (theirs ++ ">>>>>>") ">>>>>>>" = false.

Lemma block_sides (pre label1 ours theirs label2 : string) :
  well_placed pre label1 ours theirs ->
  hasMarkers (block pre label1 ours theirs label2) = true
  /\ oursMatch (block pre label1 ours theirs label2) = Some ours
  /\ theirsMatch (block pre label1 ours theirs label2) = Some theirs.
Proof.
  intros [H1 [H2 [H3 [H4 H5]]]]. split; [| split].
  - unfold hasMarkers, block. rewrite includes_append. reflexivity.
  - unfold oursMatch, block.
    rewrite (split_first_found "<<<<<<" "<"%char pre _ H1).
    rewrite (split_first_found "" (ascii_of_nat 10) label1).
    + rewrite (split_first_found "======" "="%char ours _ H3). reflexivity.
    + rewrite append_empty. apply has_char_includes. exact H2.
  - unfold theirsMatch, block.
    assert (E : pre ++ "<<<<<<<" ++ label1 ++ nl ++ ours ++ "=======" ++ nl
                ++ theirs ++ ">>>>>>>" ++ label2
                = (pre ++ "<<<<<<<" ++ label1 ++ nl ++ ours)
                  ++ ("=======" ++ nl) ++ theirs ++ ">>>>>>>" ++ label2).
    { rewrite !append_assoc. reflexivity. }
    rewrite E.
    rewrite (split_first_found "=======" (ascii_of_nat 10)
               (pre ++ "<<<<<<<" ++ label1 ++ nl ++ ours)).
    + rewrite (split_first_found ">>>>>>" ">"%char theirs _ H5). reflexivity.
    + rewrite !append_assoc. exact H4.
Qed.

(** X28.  The two sides of a conflict block are read back as they were
    written, whatever stands before the block and after it, when the markers
    stand where they were put. *)
Theorem conflict_block_round_trip (pre label1 ours theirs label2 : string) :
  well_placed pre label1 ours theirs ->
  hasMarkers (block pre label1 ours theirs label2) = true
  /\ oursMatch (block pre label1 ours theirs label2) = Some ours
  /\ theirsMatch (block pre label1 ours theirs label2) = Some theirs.
Proof. exact (block_sides pre label1 ours theirs label2). Qed.

Variable parse : string -> option json.
Variable stringify : json -> string.

(** The text the files hold under a path. *)
Definition text_of (d : list (string * string)) (file : string)
    : option string :=
  option_map snd (find (fun kv => String.eqb (fst kv) file) d).

Lemma text_of_written (d : list (string * string)) (file text other : string) :
  text_of ((file, text)
           :: filter (fun kv => negb (String.eqb (fst kv) file)) d) other
  = if String.eqb file other then Some text else text_of d other.
Proof.
  unfold text_of. cbn [find fst].
  destruct (String.eqb_spec file other) as [-> | Hne]; [reflexivity |].
  f_equal. induction d as [| [k x] d IH]; [reflexivity |].
  cbn [filter find fst]. destruct (String.eqb_spec k file) as [-> | Hk];
    cbn [negb find fst].
  - destruct (String.eqb_spec file other); [contradiction | exact IH].
  - destruct (String.eqb k other); [reflexivity | exact IH].
Qed.

(** X29.  A file that holds a conflict block is replaced by the merge of the
    two sides of the block, followed by a line feed: what stood before the
    block and after it is not kept.  No other file changes. *)
Theorem resolveFile_replaces_file_by_merge (d : list (string * string))
    (file pre label1 oursText theirsText label2 : string)
    (ours theirs merged : json) :
  text_of d file = Some (block pre label1 oursText theirsText label2) ->
  well_placed pre label1 oursText theirsText ->
  parse oursText = Some ours ->
  parse theirsText = Some theirs ->
  deepMerge ours theirs = Returns merged ->
  exists d',
    resolveFile parse stringify file d = Returns (merged, d')
    /\ text_of d' file = Some (stringify merged ++ nl)
    /\ forall other, other <> file -> text_of d' other = text_of d other.
Proof.
  intros Hd Hw Ho Ht Hm. unfold resolveFile. unfold text_of in Hd.
  destruct (find _ d) as [[k raw] |]; [| discriminate Hd].
  cbn [option_map snd] in Hd. inversion Hd; subst raw. clear Hd.
  destruct (block_sides pre label1 oursText theirsText label2 Hw)
    as [Hmark [Hours Htheirs]].
  rewrite Hmark, Hours, Htheirs, Ho, Ht, Hm. cbn [negb].
  eexists. split; [reflexivity |]. split.
  - rewrite text_of_written, String.eqb_refl. reflexivity.
  - intros other Hne. rewrite text_of_written.
    destruct (String.eqb_spec file other); [congruence | reflexivity].
Qed.

Lemma includes_drop (t : string) (n : nat) :
  forall s, JS.includes (JS.drop n s) t = true -> JS.includes s t = true.
Proof.
  induction n as [| n IH]; intros s H; [exact H |].
  destruct s as [| c s]; [exact H |].
  cbn [JS.drop] in H. cbn [JS.includes]. rewrite (IH s H).
  apply orb_true_r.
Qed.

Lemma split_first_after (pat t : string) :
  forall s before after,
    split_first pat s = Some (before, after) ->
    JS.includes after t = true -> JS.includes s t = true.
Proof.
  induction s as [| c s IH]; intros before after Hs Ht.
  - cbn [split_first] in Hs. destruct (String.prefix pat ""); [| discriminate].
    inversion Hs; subst. eapply includes_drop. exact Ht.
  - cbn [split_first] in Hs.
    destruct (String.prefix pat (String c s)).
    + inversion Hs; subst. eapply includes_drop. exact Ht.
    + destruct (split_first pat s) as [[b a] |]; [| discriminate].
      inversion Hs; subst. cbn [JS.includes].
      rewrite (IH b after eq_refl Ht). apply orb_true_r.
Qed.

(** X30.  A file without any marker is parsed as it is and never rewritten.
    A file that holds one of the three markers is taken for a conflict:
    unless it holds an opening marker, a separator at the end of a line and
    a closing marker, [resolveFile] throws, whether the file is valid or
    not. *)
Theorem resolveFile_needs_whole_block (d : list (string * string))
    (file raw : string) :
  text_of d file = Some raw ->
  (hasMarkers raw = false ->
   resolveFile parse stringify file d
   = match parse raw with
     | Some v => Returns (v, d)
     | None => Throws SyntaxError
     end)
  /\ (hasMarkers raw = true ->
      JS.includes raw "<<<<<<<" = false
      \/ JS.includes raw ("=======" ++ nl) = false
      \/ JS.includes raw ">>>>>>>" = false ->
      resolveFile parse stringify file d
      = Throws (UnableToParseMarkers file)).
Proof.
  intros Hd. unfold resolveFile. unfold text_of in Hd.
  destruct (find _ d) as [[k raw'] |]; [| discriminate Hd].
  cbn [option_map snd] in Hd. inversion Hd; subst raw'. clear Hd.
  split; intros Hmark; rewrite Hmark; cbn [negb]; [reflexivity |].
  intros [Hopen | [Hsep | Hclose]].
  - unfold oursMatch. rewrite (split_first_none _ _ Hopen). reflexivity.
  - unfold theirsMatch. rewrite (split_first_none _ _ Hsep).
    destruct (oursMatch raw); reflexivity.
  - assert (Ht : theirsMatch raw = None).
    { unfold theirsMatch.
      destruct (split_first ("=======" ++ nl) raw) as [[b r1] |] eqn:E;
        [| reflexivity].
      rewrite split_first_none; [reflexivity |].
      destruct (JS.includes r1 ">>>>>>>") eqn:Hin; [| reflexivity].
      rewrite (split_first_after _ _ _ _ _ E Hin) in Hclose.
      discriminate Hclose. }
    rewrite Ht. destruct (oursMatch raw); reflexivity.
Qed.

End ConflictBlocks.

(* ===================================================================== *)
(** * The conflict resolver on concrete manifests *)
(* ===================================================================== *)

Section ResolverRuns.

Import ResolveConflicts.

Ltac distinct :=
  repeat (constructor; [cbn; intuition discriminate |]); constructor.

(** The dependencies of the two sides of a conflict. *)
Definition ours_deps : list (string * json) :=
  [("left-pad", JStr "^1.2.0"); ("react", JStr "17.0.2")].

Definition theirs_deps : list (string * json) :=
  [("react", JStr "^18.2.0"); ("vite", JStr "4.0.0")].

Lemma theirs_deps_distinct : NoDup (names theirs_deps).
Proof. distinct. Qed.

Lemma ours_deps_versions : versions ours_deps.
Proof.
  split; [distinct |].
  repeat (constructor; [split; [reflexivity | eexists; reflexivity] |]).
  constructor.
Qed.

(** The two sides of a conflict. *)
Definition ours_manifest : json :=
  JObj [("name", JStr "site"); ("version", JStr "1.0.0");
        ("dependencies", JObj ours_deps);
        ("scripts", JObj [("test", JStr "jest")])].

Definition theirs_fields : list (string * json) :=
  [("version", JStr "1.1.0"); ("dependencies", JObj theirs_deps);
   ("scripts", JObj [("lint", JStr "eslint .")])].

Lemma theirs_fields_distinct : NoDup (names theirs_fields).
Proof. distinct. Qed.

Lemma ours_manifest_manifest : manifest ours_manifest.
Proof.
  apply manifest_object.
  - distinct.
  - repeat (constructor; [reflexivity |]). constructor.
  - intros key val [H | [H | [H | [H | []]]]]; inversion H; subst.
    + apply field_value; reflexivity.
    + apply field_value; reflexivity.
    + apply field_versions; [reflexivity | exact ours_deps_versions].
    + apply field_object; [reflexivity |]. apply manifest_object.
      * distinct.
      * repeat (constructor; [reflexivity |]). constructor.
      * intros k v [H' | []]. inversion H'; subst.
        apply field_value; reflexivity.
Qed.

Lemma mergeDeps_outcome_witness :
  NoDup (names theirs_deps)
  /\ match mergeDeps (Some (JObj ours_deps)) (JObj theirs_deps) with
     | Some (JObj out) =>
         (forall name ver,
            In (name, ver) theirs_deps ->
            exists r, merged_dep ours_deps name ver = Some r
                      /\ own out name = Some r)
         /\ (forall name,
               ~ In name (names theirs_deps) ->
               own out name = own ours_deps name)
     | Some _ => False
     | None =>
         exists name ver,
           In (name, ver) theirs_deps
           /\ merged_dep ours_deps name ver = None
     end.
Proof.
  split; [exact theirs_deps_distinct |].
  exact (mergeDeps_outcome ours_deps theirs_deps theirs_deps_distinct).
Defined.

Lemma mergeDeps_neutral_and_idempotent_witness :
  versions ours_deps
  /\ mergeDeps None (JObj ours_deps) = Some (JObj ours_deps)
  /\ mergeDeps (Some (JObj [])) (JObj ours_deps) = Some (JObj ours_deps)
  /\ mergeDeps (Some (JObj ours_deps)) (JObj []) = Some (JObj ours_deps)
  /\ mergeDeps (Some (JObj ours_deps)) (JObj ours_deps)
     = Some (JObj ours_deps).
Proof.
  split; [exact ours_deps_versions |].
  exact (mergeDeps_neutral_and_idempotent ours_deps ours_deps_versions).
Defined.

Lemma deepMerge_outcome_witness :
  NoDup (names theirs_fields)
  /\ match deepMerge ours_manifest (JObj theirs_fields) with
     | Returns (JObj out) =>
         (forall key val,
            In (key, val) theirs_fields ->
            exists r,
              merged_field ours_manifest key val = Returns r
              /\ own out key
                 = match own (own_enumerable ours_manifest) key with
                   | Some _ => Some r
                   | None =>
                       if String.eqb key "__proto__" then None else Some r
                   end)
         /\ (forall key,
               ~ In key (names theirs_fields) ->
               own out key = own (own_enumerable ours_manifest) key)
     | Returns _ => False
     | Throws e => stops (Throws e) ours_manifest theirs_fields
     | Unfollowed => stops Unfollowed ours_manifest theirs_fields
     end.
Proof.
  split; [exact theirs_fields_distinct |].
  exact (deepMerge_outcome ours_manifest theirs_fields
           theirs_fields_distinct).
Defined.

Lemma deepMerge_neutral_and_idempotent_witness :
  manifest ours_manifest
  /\ deepMerge ours_manifest ours_manifest = Returns ours_manifest
  /\ deepMerge (JObj []) ours_manifest = Returns ours_manifest
  /\ deepMerge ours_manifest (JObj []) = Returns ours_manifest.
Proof.
  split; [exact ours_manifest_manifest |].
  exact (deepMerge_neutral_and_idempotent ours_manifest
           ours_manifest_manifest).
Defined.

(** A file with a conflict on the version. *)
Definition ours_text : string :=
  "{ " ++ dq ++ "version" ++ dq ++ ": " ++ dq ++ "1.0.0" ++ dq ++ " }" ++ nl.

Definition theirs_text : string :=
  "{ " ++ dq ++ "version" ++ dq ++ ": " ++ dq ++ "1.1.0" ++ dq ++ " }" ++ nl.

Definition conflicted : string :=
  block "" " HEAD" ours_text theirs_text (" feature" ++ nl).

Lemma conflicted_well_placed : well_placed "" " HEAD" ours_text theirs_text.
Proof. repeat split. Qed.

Lemma conflict_block_round_trip_witness :
  well_placed "" " HEAD" ours_text theirs_text
  /\ hasMarkers conflicted = true
  /\ oursMatch conflicted = Some ours_text
  /\ theirsMatch conflicted = Some theirs_text.
Proof.
  split; [exact conflicted_well_placed |].
  exact (conflict_block_round_trip "" " HEAD" ours_text theirs_text
           (" feature" ++ nl) conflicted_well_placed).
Defined.

(** A parser and a printer that know the texts of this file. *)
Definition parse_sample (s : string) : option json :=
  if String.eqb s ours_text then Some (JObj [("version", JStr "1.0.0")])
  else if String.eqb s theirs_text
       then Some (JObj [("version", JStr "1.1.0")])
       else None.

Definition stringify_sample (v : json) : string :=
  match v with
  | JObj [(key, JStr s)] =>
      "{" ++ nl ++ "  " ++ dq ++ key ++ dq ++ ": " ++ dq ++ s ++ dq ++ nl ++ "}"
  | _ => "null"
  end.

Definition conflicted_files : list (string * string) :=
  [("/site/package.json", conflicted); ("/site/README.md", "=======")].

Lemma resolveFile_replaces_file_by_merge_witness :
  exists d',
    resolveFile parse_sample stringify_sample "/site/package.json"
      conflicted_files
    = Returns (JObj [("version", JStr "1.1.0")], d')
    /\ text_of d' "/site/package.json"
       = Some (stringify_sample (JObj [("version", JStr "1.1.0")]) ++ nl)%string
    /\ forall other,
         other <> "/site/package.json" ->
         text_of d' other = text_of conflicted_files other.
Proof.
  apply (resolveFile_replaces_file_by_merge parse_sample stringify_sample
           conflicted_files "/site/package.json" "" " HEAD" ours_text
           theirs_text (" feature" ++ nl)
           (JObj [("version", JStr "1.0.0")])
           (JObj [("version", JStr "1.1.0")])).
  - reflexivity.
  - exact conflicted_well_placed.
  - reflexivity.
  - reflexivity.
  - reflexivity.
Defined.

(** A file that holds a line of equals signs, and no conflict. *)
Lemma resolveFile_needs_whole_block_witness :
  resolveFile parse_sample stringify_sample "/site/README.md"
    conflicted_files
  = Throws (UnableToParseMarkers "/site/README.md").
Proof.
  apply (proj2 (resolveFile_needs_whole_block parse_sample stringify_sample
                  conflicted_files "/site/README.md" "=======" eq_refl)).
  - reflexivity.
  - left. reflexivity.
Defined.

End ResolverRuns.
